(** * Tank battle: the simulation engine and the map generator

    A shallow embedding of [src/game/constants.js], [Tank.js], [Bullet.js],
    [Wall.js], [mapGenerator.js] and [GameEngine.js].

    JavaScript numbers are modelled as rationals ([Q]): every coordinate,
    size, speed and timestamp the engine computes is an integer or a half
    integer, far inside the range on which IEEE doubles are exact, so [+],
    [-], [*] by an integer and the comparisons behave as on [Q].  Counters
    and grid indices, which only ever hold integers, are [Z].  The only
    genuinely floating-point primitive, [Math.sin], is a parameter of the
    map generator. *)

From Stdlib Require Import QArith ZArith String List Bool Lia Lqa.
From Stdlib Require Import Qround Qminmax Qabs.
Import ListNotations.

Open Scope Q_scope.

(* ================================================================== *)
(** * Numbers *)

(** [a < b] on JavaScript numbers, as a boolean. *)
Definition Qltb (a b : Q) : bool := negb (Qle_bool b a).

Infix "<?" := Qltb (at level 70, no associativity) : Q_scope.

(** [Math.round]: the nearest integer, ties towards +infinity. *)
Definition Math_round (q : Q) : Z := Qfloor (q + 0.5).

(** [Math.floor]. *)
Definition Math_floor (q : Q) : Z := Qfloor q.

(** A number that holds an integer. *)
Definition integral (q : Q) : Prop := q == inject_Z (Qfloor q).

(* ================================================================== *)
(** * constants.js *)

Definition DESIGN_WIDTH : Q := 1280.
Definition DESIGN_HEIGHT : Q := 720.

Definition TANK_SIZE : Q := 32.
Definition TANK_SPEED : Q := 2.
Definition TANK_FIRE_COOLDOWN : Q := 300.
Definition PLAYER_MAX_LIVES : Z := 3.

Definition ENEMY_SPEED : Q := 2.
Definition ENEMY_FIRE_COOLDOWN : Q := 1500.
Definition MAX_ENEMIES : nat := 4.
Definition ENEMY_SPAWN_INTERVAL : Q := 3000.
Definition ENEMIES_PER_LEVEL : Z := 8.

Definition BULLET_SIZE : Q := 6.
Definition BULLET_SPEED : Q := 6.

Definition WALL_SIZE : Q := 36.

Definition COLOR_PLAYER : string := "#00CC44".
Definition COLOR_ENEMY : string := "#DD3333".
Definition COLOR_BULLET_PLAYER : string := "#FFFF00".
Definition COLOR_BULLET_ENEMY : string := "#FF8800".

Inductive DIR : Type := UP | DOWN | LEFT | RIGHT.

Inductive GAME_STATE : Type :=
  MENU | PLAYING | PAUSED | GAME_OVER | LEVEL_CLEAR.

Inductive WALL_TYPE : Type := BRICK | STEEL.

Definition GAME_STATE_eqb (a b : GAME_STATE) : bool :=
  match a, b with
  | MENU, MENU | PLAYING, PLAYING | PAUSED, PAUSED
  | GAME_OVER, GAME_OVER | LEVEL_CLEAR, LEVEL_CLEAR => true
  | _, _ => false
  end.

(* ================================================================== *)
(** * Bounding boxes ([rectsOverlap], Tank.js) *)

Record Rect : Type := mkRect { rx : Q; ry : Q; rw : Q; rh : Q }.

Definition rectsOverlap (a b : Rect) : bool :=
  (rx a <? rx b + rw b) &&
  (rx b <? rx a + rw a) &&
  (ry a <? ry b + rh b) &&
  (ry b <? ry a + rh a).

(* ================================================================== *)
(** * Wall.js *)

Module Wall.

Record t : Type := mk {
  x : Q;
  y : Q;
  size : Q;
  type : WALL_TYPE;
  alive : bool;
  destructible : bool
}.

(** [new Wall(x, y, type)]. *)
Definition new (x0 y0 : Q) (ty : WALL_TYPE) : t :=
  {| x := x0; y := y0; size := WALL_SIZE; type := ty; alive := true;
     destructible := match ty with BRICK => true | STEEL => false end |}.

Definition getBounds (w : t) : Rect :=
  {| rx := x w; ry := y w; rw := size w; rh := size w |}.

Definition set_alive (w : t) (a : bool) : t :=
  {| x := x w; y := y w; size := size w; type := type w; alive := a;
     destructible := destructible w |}.

End Wall.

(* ================================================================== *)
(** * Bullet.js *)

Module Bullet.

Record t : Type := mk {
  x : Q;
  y : Q;
  direction : DIR;
  isPlayerBullet : bool;
  color : string;
  size : Q;
  speed : Q;
  alive : bool
}.

(** [new Bullet(x, y, direction, isPlayerBullet, color)]. *)
Definition new (x0 y0 : Q) (d : DIR) (p : bool) (c : string) : t :=
  {| x := x0; y := y0; direction := d; isPlayerBullet := p; color := c;
     size := BULLET_SIZE; speed := BULLET_SPEED; alive := true |}.

Definition getBounds (b : t) : Rect :=
  {| rx := x b; ry := y b; rw := size b; rh := size b |}.

Definition set_pos (b : t) (x0 y0 : Q) : t :=
  {| x := x0; y := y0; direction := direction b;
     isPlayerBullet := isPlayerBullet b; color := color b; size := size b;
     speed := speed b; alive := alive b |}.

Definition set_alive (b : t) (a : bool) : t :=
  {| x := x b; y := y b; direction := direction b;
     isPlayerBullet := isPlayerBullet b; color := color b; size := size b;
     speed := speed b; alive := a |}.

(** The [switch] of [update]: one step along the flight direction. *)
Definition advance (b : t) : t :=
  match direction b with
  | UP => set_pos b (x b) (y b - speed b)
  | DOWN => set_pos b (x b) (y b + speed b)
  | LEFT => set_pos b (x b - speed b) (y b)
  | RIGHT => set_pos b (x b + speed b) (y b)
  end.

(** The bounds test of [update]: beyond the design resolution by more than
    the bullet's own size. *)
Definition outOfBounds (b : t) : bool :=
  (x b <? - size b) || (DESIGN_WIDTH + size b <? x b) ||
  (y b <? - size b) || (DESIGN_HEIGHT + size b <? y b).

Definition update (b : t) : t :=
  if negb (alive b) then b
  else
    let b1 := advance b in
    if outOfBounds b1 then set_alive b1 false else b1.

End Bullet.

(* ================================================================== *)
(** * Tank.js *)

(** [snapToGrid]: the nearest [WALL_SIZE] grid line. *)
Definition snapToGrid (val : Q) : Q :=
  inject_Z (Math_round (val / WALL_SIZE)) * WALL_SIZE.

Definition isVertical (d : DIR) : bool :=
  match d with UP | DOWN => true | LEFT | RIGHT => false end.

Module Tank.

Record t : Type := mk {
  x : Q;
  y : Q;
  direction : DIR;
  isPlayer : bool;
  speed : Q;
  fireCooldown : Q;
  color : string;
  bulletColor : string;
  lastFireTime : Q;
  alive : bool;
  size : Q;
  invincibleUntil : Q;
  aiDirectionTimer : Q;
  aiDirectionInterval : Q
}.

(** [new Tank(x, y, direction, isPlayer)]; [rnd] is the value the
    constructor's [Math.random()] returns. *)
Definition new (x0 y0 : Q) (d : DIR) (p : bool) (rnd : Q) : t :=
  {| x := x0; y := y0; direction := d; isPlayer := p;
     speed := if p then TANK_SPEED else ENEMY_SPEED;
     fireCooldown := if p then TANK_FIRE_COOLDOWN else ENEMY_FIRE_COOLDOWN;
     color := if p then COLOR_PLAYER else COLOR_ENEMY;
     bulletColor := if p then COLOR_BULLET_PLAYER else COLOR_BULLET_ENEMY;
     lastFireTime := 0;
     alive := true;
     size := TANK_SIZE;
     invincibleUntil := 0;
     aiDirectionTimer := 0;
     aiDirectionInterval := 1500 + rnd * 1500 |}.

Definition set_x (k : t) (v : Q) : t :=
  mk v (y k) (direction k) (isPlayer k) (speed k) (fireCooldown k) (color k)
     (bulletColor k) (lastFireTime k) (alive k) (size k) (invincibleUntil k)
     (aiDirectionTimer k) (aiDirectionInterval k).

Definition set_y (k : t) (v : Q) : t :=
  mk (x k) v (direction k) (isPlayer k) (speed k) (fireCooldown k) (color k)
     (bulletColor k) (lastFireTime k) (alive k) (size k) (invincibleUntil k)
     (aiDirectionTimer k) (aiDirectionInterval k).

Definition set_direction (k : t) (v : DIR) : t :=
  mk (x k) (y k) v (isPlayer k) (speed k) (fireCooldown k) (color k)
     (bulletColor k) (lastFireTime k) (alive k) (size k) (invincibleUntil k)
     (aiDirectionTimer k) (aiDirectionInterval k).

Definition set_lastFireTime (k : t) (v : Q) : t :=
  mk (x k) (y k) (direction k) (isPlayer k) (speed k) (fireCooldown k)
     (color k) (bulletColor k) v (alive k) (size k) (invincibleUntil k)
     (aiDirectionTimer k) (aiDirectionInterval k).

Definition set_alive (k : t) (v : bool) : t :=
  mk (x k) (y k) (direction k) (isPlayer k) (speed k) (fireCooldown k)
     (color k) (bulletColor k) (lastFireTime k) v (size k) (invincibleUntil k)
     (aiDirectionTimer k) (aiDirectionInterval k).

Definition set_invincibleUntil (k : t) (v : Q) : t :=
  mk (x k) (y k) (direction k) (isPlayer k) (speed k) (fireCooldown k)
     (color k) (bulletColor k) (lastFireTime k) (alive k) (size k) v
     (aiDirectionTimer k) (aiDirectionInterval k).

Definition set_aiDirectionTimer (k : t) (v : Q) : t :=
  mk (x k) (y k) (direction k) (isPlayer k) (speed k) (fireCooldown k)
     (color k) (bulletColor k) (lastFireTime k) (alive k) (size k)
     (invincibleUntil k) v (aiDirectionInterval k).

Definition set_aiDirectionInterval (k : t) (v : Q) : t :=
  mk (x k) (y k) (direction k) (isPlayer k) (speed k) (fireCooldown k)
     (color k) (bulletColor k) (lastFireTime k) (alive k) (size k)
     (invincibleUntil k) (aiDirectionTimer k) v.

Definition getBounds (k : t) : Rect :=
  {| rx := x k; ry := y k; rw := size k; rh := size k |}.

(** ** [move]

    [move] mutates [this] in three stages, kept apart here: [turn] (the
    assignment of [direction] and the grid snap on an axis change),
    [tentative] (the advanced and clamped position) and the two collision
    loops, after which the position is committed. *)

Definition turn (this : t) (dir : DIR) : t :=
  let wasVertical := isVertical (direction this) in
  let nowVertical := isVertical dir in
  let axisChanged := negb (Bool.eqb wasVertical nowVertical) in
  let this1 := set_direction this dir in
  if axisChanged then
    if nowVertical then set_x this1 (snapToGrid (x this1))
    else set_y this1 (snapToGrid (y this1))
  else this1.

(** [(nx, ny)] after the [switch] and the clamp to the design resolution. *)
Definition tentative (this : t) (dir : DIR) : Q * Q :=
  let nx := x this in
  let ny := y this in
  let '(nx, ny) :=
    match dir with
    | UP => (nx, ny - speed this)
    | DOWN => (nx, ny + speed this)
    | LEFT => (nx - speed this, ny)
    | RIGHT => (nx + speed this, ny)
    end in
  (Qmax 0 (Qmin (DESIGN_WIDTH - size this) nx),
   Qmax 0 (Qmin (DESIGN_HEIGHT - size this) ny)).

Definition TOLERANCE : Q := 0.5.

Definition nextBounds (this : t) (dir : DIR) : Rect :=
  let '(nx, ny) := tentative this dir in
  {| rx := nx + TOLERANCE; ry := ny + TOLERANCE;
     rw := size this - TOLERANCE * 2; rh := size this - TOLERANCE * 2 |}.

(** The wall loop: some alive wall overlaps [nb]. *)
Definition hitsWall (nb : Rect) (walls : list Wall.t) : bool :=
  existsb (fun wall => Wall.alive wall && rectsOverlap nb (Wall.getBounds wall))
          walls.

(** The tank loop.  The arrays the engine passes hold [this] itself; the
    identity test [tank === this] is modelled by position: [self] is the
    index of [this] in [tanks], and [j] the index of the head of the list
    being scanned. *)
Fixpoint hitsTankFrom (j : nat) (nb : Rect) (self : nat) (tanks : list t)
  : bool :=
  match tanks with
  | [] => false
  | tank :: rest =>
      if (Nat.eqb j self) || negb (alive tank) then
        hitsTankFrom (S j) nb self rest
      else if rectsOverlap nb (getBounds tank) then true
      else hitsTankFrom (S j) nb self rest
  end.

Definition hitsTank (nb : Rect) (self : nat) (tanks : list t) : bool :=
  hitsTankFrom 0 nb self tanks.

(** The tentative position of the turned tank fails a collision test. *)
Definition blocked (this : t) (self : nat) (dir : DIR)
  (walls : list Wall.t) (tanks : list t) : bool :=
  let this1 := turn this dir in
  let nb := nextBounds this1 dir in
  hitsWall nb walls || hitsTank nb self tanks.

(** [this.move(dir, walls, tanks)], with [this] at index [self] of
    [tanks]; the result is [this] after the call. *)
Definition move (this : t) (self : nat) (dir : DIR)
  (walls : list Wall.t) (tanks : list t) : t :=
  if negb (alive this) then this
  else
    let this1 := turn this dir in
    let '(nx, ny) := tentative this1 dir in
    let nb := nextBounds this1 dir in
    if hitsWall nb walls then this1
    else if hitsTank nb self tanks then this1
    else set_y (set_x this1 nx) ny.

(** ** [fire]: the tank after the call and the bullet it returns
    ([None] for [null]). *)
Definition fire (this : t) (now : Q) : t * option Bullet.t :=
  if negb (alive this) then (this, None)
  else if now - lastFireTime this <? fireCooldown this then (this, None)
  else
    let this1 := set_lastFireTime this now in
    let halfTank := size this1 / 2 in
    let halfBullet := BULLET_SIZE / 2 in
    let '(bx, by') :=
      match direction this1 with
      | UP => (x this1 + halfTank - halfBullet, y this1 - BULLET_SIZE)
      | DOWN => (x this1 + halfTank - halfBullet, y this1 + size this1)
      | LEFT => (x this1 - BULLET_SIZE, y this1 + halfTank - halfBullet)
      | RIGHT => (x this1 + size this1, y this1 + halfTank - halfBullet)
      end in
    (this1,
     Some (Bullet.new bx by' (direction this1) (isPlayer this1)
                      (bulletColor this1))).

Definition isInvincible (this : t) (now : Q) : bool :=
  now <? invincibleUntil this.

End Tank.

(* ================================================================== *)
(** * mapGenerator.js *)

(** The indices of [for (let i = lo; i < hi; i++)]. *)
Definition range (lo hi : Z) : list Z :=
  map (fun k => (lo + Z.of_nat k)%Z) (seq 0 (Z.to_nat (hi - lo))).

Definition COLS : Z := Math_floor (DESIGN_WIDTH / WALL_SIZE).
Definition ROWS : Z := Math_floor (DESIGN_HEIGHT / WALL_SIZE).

(** [new Wall(c * WALL_SIZE, r * WALL_SIZE, type)]. *)
Definition wallAt (c r : Z) (ty : WALL_TYPE) : Wall.t :=
  Wall.new (inject_Z c * WALL_SIZE) (inject_Z r * WALL_SIZE) ty.

(** [Math.floor(COLS / 2)]: on integers, [Z]'s floor division. *)
Definition playerSpawnCol : Z := (COLS / 2)%Z.
Definition playerSpawnRow : Z := (ROWS - 3)%Z.
Definition enemySpawnPositions : list (Z * Z) :=
  [ (2, 2); (COLS / 2, 2); (COLS - 3, 2) ]%Z.

Definition isReserved (c r : Z) : bool :=
  ((Z.abs (c - playerSpawnCol) <=? 1) && (Z.abs (r - playerSpawnRow) <=? 1))%Z
  || existsb (fun sp : Z * Z =>
                (Z.abs (c - fst sp) <=? 1) && (Z.abs (r - snd sp) <=? 1))%Z
             enemySpawnPositions.

Definition innerStartR : Z := 2.
Definition innerEndR : Z := (ROWS - 2)%Z.
Definition innerStartC : Z := 2.
Definition innerEndC : Z := (COLS - 2)%Z.

Definition getPlayerSpawn : Q * Q :=
  (inject_Z (COLS / 2) * WALL_SIZE, inject_Z (ROWS - 3) * WALL_SIZE).

Definition getEnemySpawnPoints : list (Q * Q) :=
  [ (2 * WALL_SIZE, 2 * WALL_SIZE);
    (inject_Z (COLS / 2) * WALL_SIZE, 2 * WALL_SIZE);
    (inject_Z (COLS - 3) * WALL_SIZE, 2 * WALL_SIZE) ].

Section MapGenerator.

(** [Math.sin], the engine's double-precision sine.  The generator only
    needs it to be a function: the same argument gives the same value. *)
Variable Math_sin : Q -> Q.

(** [Math.abs(Math.floor(Math.sin(n * 9301 + 49297) * 233280))]. *)
Definition pseudoRandom (n : Z) : Z :=
  let x := Math_sin (inject_Z n * 9301 + 49297) * 233280 in
  Z.abs (Math_floor x).

(** Step 1: the steel border, in push order. *)
Definition borderWalls : list Wall.t :=
  flat_map (fun c => [ Wall.new (inject_Z c * WALL_SIZE) 0 STEEL;
                       Wall.new (inject_Z c * WALL_SIZE)
                                (inject_Z (ROWS - 1) * WALL_SIZE) STEEL ])
           (range 0 COLS)
  ++
  flat_map (fun r => [ Wall.new 0 (inject_Z r * WALL_SIZE) STEEL;
                       Wall.new (inject_Z (COLS - 1) * WALL_SIZE)
                                (inject_Z r * WALL_SIZE) STEEL ])
           (range 1 (ROWS - 1)).

Definition rowSpacing (level : Z) : Z := Z.max 3 (5 - level / 3).
Definition colSpacing (level : Z) : Z := Z.max 3 (5 - level / 3).

(** The body of the two nested loops of step 3: what cell [(c, r)] pushes.
    [%] is [Z.rem]. *)
Definition gridCell (level c r : Z) : list Wall.t :=
  let seed := (level * 7 + 3)%Z in
  if isReserved c r then []
  else
    let isStructRow := (Z.rem (r - innerStartR) (rowSpacing level) =? 0)%Z in
    let isStructCol := (Z.rem (c - innerStartC) (colSpacing level) =? 0)%Z in
    if isStructRow && isStructCol then
      let type :=
        if (Z.rem (pseudoRandom (c * seed + r * 13)) 5 =? 0)%Z
        then STEEL else BRICK in
      [ wallAt c r type ]
    else if isStructRow && negb isStructCol then
      let hash := pseudoRandom (c * seed + r * 17 + level) in
      if negb (Z.rem hash 3 =? 0)%Z then [ wallAt c r BRICK ] else []
    else if negb isStructRow && isStructCol then
      let hash := pseudoRandom (c * 19 + r * seed + level) in
      if (Z.rem hash 4 =? 0)%Z then [ wallAt c r BRICK ] else []
    else [].

Definition gridWalls (level : Z) : list Wall.t :=
  flat_map (fun r => flat_map (fun c => gridCell level c r)
                              (range innerStartC innerEndC))
           (range innerStartR innerEndR).

(** The cell iteration [i] of the loop of step 4 aims at. *)
Definition steelExtraCol (level i : Z) : Z :=
  (innerStartC
   + Z.rem (pseudoRandom (i * 31 + level * 7)) (innerEndC - innerStartC))%Z.

Definition steelExtraRow (level i : Z) : Z :=
  (innerStartR
   + Z.rem (pseudoRandom (i * 37 + level * 11)) (innerEndR - innerStartR))%Z.

(** The body of the loop of step 4: what iteration [i] pushes. *)
Definition steelExtraCell (level i : Z) : list Wall.t :=
  let c := steelExtraCol level i in
  let r := steelExtraRow level i in
  if negb (isReserved c r) then [ wallAt c r STEEL ] else [].

Definition steelExtra (level : Z) : Z := Z.min level 5.

(** Step 4: the walls the extra-steel loop pushes. *)
Definition steelExtraWalls (level : Z) : list Wall.t :=
  flat_map (steelExtraCell level) (range 0 (steelExtra level)).

Definition generateMap (level : Z) : list Wall.t :=
  borderWalls ++ gridWalls level ++ steelExtraWalls level.

End MapGenerator.

(** The values of [Math.sin] at the ten arguments step 4 uses at level 5
    ([n * 9301 + 49297] for [n = 35, 66, 97, 128, 159] and
    [n = 55, 92, 129, 166, 203]), to twenty decimal places; [0] elsewhere. *)
Definition Math_sin_level5 (q : Q) : Q :=
  match Qfloor q with
  | 374832%Z => 0.74749154318907187113
  | 663163%Z => -0.87486695926312738937
  | 951494%Z => -0.16621767954772133774
  | 1239825%Z => 0.98530431407828938180
  | 1528156%Z => -0.48843230973655983734
  | 560852%Z => 0.73690613954114468875
  | 904989%Z => 0.17011035077291674996
  | 1249126%Z => -0.46762219535762000623
  | 1593263%Z => -0.91035424881622635941
  | 1937400%Z => -0.97346461453738700683
  | _ => 0
  end.

(* ================================================================== *)
(** * GameEngine.js *)

(** [Math.random()]: the environment's stream of draws, read in call
    order. *)
Record Rand : Type := mkRand { tape : nat -> Q; cursor : nat }.

Definition Math_random (r : Rand) : Q * Rand :=
  (tape r (cursor r), mkRand (tape r) (S (cursor r))).

Record Keys : Type := mkKeys {
  up : bool; down : bool; left : bool; right : bool; fire : bool
}.

Record Explosion : Type := mkExplosion {
  ex : Q; ey : Q; radius : Q; maxRadius : Q; alpha : Q; ecolor : string
}.

(** The engine's fields.  [onStateChange] and the sound effects only
    report to the presentation layer and are left out. *)
Record GameEngine : Type := mkEngine {
  state : GAME_STATE;
  score : Z;
  lives : Z;
  level : Z;
  enemiesDestroyed : Z;
  totalEnemiesSpawned : Z;
  player : option Tank.t;
  enemies : list Tank.t;
  bullets : list Bullet.t;
  walls : list Wall.t;
  lastEnemySpawnTime : Q;
  keys : Keys;
  explosions : list Explosion
}.

Definition set_state (g : GameEngine) (v : GAME_STATE) : GameEngine :=
  mkEngine v (score g) (lives g) (level g) (enemiesDestroyed g)
    (totalEnemiesSpawned g) (player g) (enemies g) (bullets g) (walls g)
    (lastEnemySpawnTime g) (keys g) (explosions g).

Definition set_score (g : GameEngine) (v : Z) : GameEngine :=
  mkEngine (state g) v (lives g) (level g) (enemiesDestroyed g)
    (totalEnemiesSpawned g) (player g) (enemies g) (bullets g) (walls g)
    (lastEnemySpawnTime g) (keys g) (explosions g).

Definition set_lives (g : GameEngine) (v : Z) : GameEngine :=
  mkEngine (state g) (score g) v (level g) (enemiesDestroyed g)
    (totalEnemiesSpawned g) (player g) (enemies g) (bullets g) (walls g)
    (lastEnemySpawnTime g) (keys g) (explosions g).

Definition set_enemiesDestroyed (g : GameEngine) (v : Z) : GameEngine :=
  mkEngine (state g) (score g) (lives g) (level g) v
    (totalEnemiesSpawned g) (player g) (enemies g) (bullets g) (walls g)
    (lastEnemySpawnTime g) (keys g) (explosions g).

Definition set_totalEnemiesSpawned (g : GameEngine) (v : Z) : GameEngine :=
  mkEngine (state g) (score g) (lives g) (level g) (enemiesDestroyed g)
    v (player g) (enemies g) (bullets g) (walls g)
    (lastEnemySpawnTime g) (keys g) (explosions g).

Definition set_player (g : GameEngine) (v : option Tank.t) : GameEngine :=
  mkEngine (state g) (score g) (lives g) (level g) (enemiesDestroyed g)
    (totalEnemiesSpawned g) v (enemies g) (bullets g) (walls g)
    (lastEnemySpawnTime g) (keys g) (explosions g).

Definition set_enemies (g : GameEngine) (v : list Tank.t) : GameEngine :=
  mkEngine (state g) (score g) (lives g) (level g) (enemiesDestroyed g)
    (totalEnemiesSpawned g) (player g) v (bullets g) (walls g)
    (lastEnemySpawnTime g) (keys g) (explosions g).

Definition set_bullets (g : GameEngine) (v : list Bullet.t) : GameEngine :=
  mkEngine (state g) (score g) (lives g) (level g) (enemiesDestroyed g)
    (totalEnemiesSpawned g) (player g) (enemies g) v (walls g)
    (lastEnemySpawnTime g) (keys g) (explosions g).

Definition set_walls (g : GameEngine) (v : list Wall.t) : GameEngine :=
  mkEngine (state g) (score g) (lives g) (level g) (enemiesDestroyed g)
    (totalEnemiesSpawned g) (player g) (enemies g) (bullets g) v
    (lastEnemySpawnTime g) (keys g) (explosions g).

Definition set_lastEnemySpawnTime (g : GameEngine) (v : Q) : GameEngine :=
  mkEngine (state g) (score g) (lives g) (level g) (enemiesDestroyed g)
    (totalEnemiesSpawned g) (player g) (enemies g) (bullets g) (walls g)
    v (keys g) (explosions g).

Definition set_keys (g : GameEngine) (v : Keys) : GameEngine :=
  mkEngine (state g) (score g) (lives g) (level g) (enemiesDestroyed g)
    (totalEnemiesSpawned g) (player g) (enemies g) (bullets g) (walls g)
    (lastEnemySpawnTime g) v (explosions g).

Definition set_explosions (g : GameEngine) (v : list Explosion) : GameEngine :=
  mkEngine (state g) (score g) (lives g) (level g) (enemiesDestroyed g)
    (totalEnemiesSpawned g) (player g) (enemies g) (bullets g) (walls g)
    (lastEnemySpawnTime g) (keys g) v.

(** [new GameEngine()]. *)
Definition newGameEngine : GameEngine :=
  {| state := MENU; score := 0; lives := PLAYER_MAX_LIVES; level := 1;
     enemiesDestroyed := 0; totalEnemiesSpawned := 0;
     player := None; enemies := []; bullets := []; walls := [];
     lastEnemySpawnTime := 0;
     keys := mkKeys false false false false false;
     explosions := [] |}.

Definition togglePause (g : GameEngine) : GameEngine :=
  match state g with
  | PLAYING => set_state g PAUSED
  | PAUSED => set_state g PLAYING
  | _ => g
  end.

Definition _addExplosion (g : GameEngine) (x y maxR : Q) (color : string)
  : GameEngine :=
  set_explosions g
    (explosions g ++ [ mkExplosion x y 2 maxR 1 color ]).

(** [[this.player, ...this.enemies]].  [player] is [null] only before the
    first [startGame], when there is no enemy either; the [null] entry is
    then left out. *)
Definition allTanks (g : GameEngine) : list Tank.t :=
  match player g with
  | Some p => p :: enemies g
  | None => enemies g
  end.

(** The index in [allTanks] of the [k]-th enemy. *)
Definition enemyIndex (g : GameEngine) (k : nat) : nat :=
  match player g with
  | Some _ => S k
  | None => k
  end.

Definition pushBullet (g : GameEngine) (ob : option Bullet.t) : GameEngine :=
  match ob with
  | Some bullet => set_bullets g (bullets g ++ [ bullet ])
  | None => g
  end.

Definition _handlePlayerInput (g : GameEngine) (now : Q) : GameEngine :=
  match player g with
  | None => g
  | Some p =>
      if negb (Tank.alive p) then g
      else
        let all := allTanks g in
        let k := keys g in
        let p1 :=
          if up k then Tank.move p 0 UP (walls g) all
          else if down k then Tank.move p 0 DOWN (walls g) all
          else if left k then Tank.move p 0 LEFT (walls g) all
          else if right k then Tank.move p 0 RIGHT (walls g) all
          else p in
        let g1 := set_player g (Some p1) in
        if fire k then
          let '(p2, ob) := Tank.fire p1 now in
          pushBullet (set_player g1 (Some p2)) ob
        else g1
  end.

Definition directions : list DIR := [ UP; DOWN; LEFT; RIGHT ].

(** [l[k] = v] for [k] in range. *)
Fixpoint replaceAt {A : Type} (k : nat) (v : A) (l : list A) : list A :=
  match l, k with
  | [], _ => []
  | _ :: rest, O => v :: rest
  | a :: rest, S k' => a :: replaceAt k' v rest
  end.

(** The periodic change of direction of [_updateEnemyAI]. *)
Definition aiRedirect (enemy : Tank.t) (now : Q) (r : Rand) : Tank.t * Rand :=
  if Tank.aiDirectionInterval enemy <? now - Tank.aiDirectionTimer enemy then
    let '(u, r1) := Math_random r in
    let '(v, r2) := Math_random r1 in
    let e1 := Tank.set_aiDirectionTimer enemy now in
    let e2 :=
      Tank.set_direction e1
        (nth (Z.to_nat (Math_floor (u * 4))) directions UP) in
    (Tank.set_aiDirectionInterval e2 (1500 + v * 1500), r2)
  else (enemy, r).

(** One iteration of the loop of [_updateEnemyAI], for the enemy at
    index [k], in its two stages: the change of direction, written to the
    enemy in place, and then the move and the shot.  The state between the
    two is the one in which the enemy moves. *)
Definition enemyRedirect (k : nat) (now : Q) (g : GameEngine) (r : Rand)
  : GameEngine * Rand :=
  match nth_error (enemies g) k with
  | None => (g, r)
  | Some enemy =>
      if negb (Tank.alive enemy) then (g, r)
      else
        let '(e1, r1) := aiRedirect enemy now r in
        (set_enemies g (replaceAt k e1 (enemies g)), r1)
  end.

Definition enemyAdvance (k : nat) (now : Q) (g : GameEngine) (r : Rand)
  : GameEngine * Rand :=
  match nth_error (enemies g) k with
  | None => (g, r)
  | Some enemy =>
      if negb (Tank.alive enemy) then (g, r)
      else
        let e2 :=
          Tank.move enemy (enemyIndex g k) (Tank.direction enemy) (walls g)
                    (allTanks g) in
        let '(w, r2) := Math_random r in
        let '(e3, ob) :=
          if w <? 0.02 then Tank.fire e2 now else (e2, None) in
        (pushBullet (set_enemies g (replaceAt k e3 (enemies g))) ob, r2)
  end.

Definition enemyStep (k : nat) (now : Q) (g : GameEngine) (r : Rand)
  : GameEngine * Rand :=
  let '(g1, r1) := enemyRedirect k now g r in
  enemyAdvance k now g1 r1.

Definition _updateEnemyAI (g : GameEngine) (now : Q) (r : Rand)
  : GameEngine * Rand :=
  fold_left (fun (s : GameEngine * Rand) k => enemyStep k now (fst s) (snd s))
            (seq 0 (length (enemies g))) (g, r).

(** [[...this.enemies, this.player]], without a [null] player. *)
Definition spawnBlockers (g : GameEngine) : list Tank.t :=
  enemies g ++ match player g with Some p => [ p ] | None => [] end.

(** The round-robin spawn point,
    [spawnPoints[this.totalEnemiesSpawned % spawnPoints.length]]. *)
Definition spawnPoint (g : GameEngine) : option (Q * Q) :=
  nth_error getEnemySpawnPoints
    (Z.to_nat (Z.rem (totalEnemiesSpawned g)
                     (Z.of_nat (length getEnemySpawnPoints)))).

Definition spawnBlocked (g : GameEngine) (sp : Q * Q) : bool :=
  let testBounds := {| rx := fst sp; ry := snd sp; rw := 36; rh := 36 |} in
  existsb (fun t => Tank.alive t && rectsOverlap testBounds (Tank.getBounds t))
          (spawnBlockers g).

(** The three gates of [_spawnEnemies]. *)
Definition spawnGates (g : GameEngine) (now : Q) : bool :=
  negb (ENEMIES_PER_LEVEL <=? totalEnemiesSpawned g)%Z
  && negb (MAX_ENEMIES <=? length (enemies g))%nat
  && negb (now - lastEnemySpawnTime g <? ENEMY_SPAWN_INTERVAL).

Definition _spawnEnemies (g : GameEngine) (now : Q) (r : Rand)
  : GameEngine * Rand :=
  if (ENEMIES_PER_LEVEL <=? totalEnemiesSpawned g)%Z then (g, r)
  else if (MAX_ENEMIES <=? length (enemies g))%nat then (g, r)
  else if now - lastEnemySpawnTime g <? ENEMY_SPAWN_INTERVAL then (g, r)
  else
    let g1 := set_lastEnemySpawnTime g now in
    match spawnPoint g1 with
    | None => (g1, r)
    | Some sp =>
        if spawnBlocked g1 sp then (g1, r)
        else
          let '(u, r1) := Math_random r in
          let enemy :=
            Tank.set_aiDirectionTimer
              (Tank.new (fst sp) (snd sp) DOWN false u) now in
          (set_totalEnemiesSpawned
             (set_enemies g1 (enemies g1 ++ [ enemy ]))
             (totalEnemiesSpawned g1 + 1)%Z,
           r1)
    end.

(** The wall loop of [_checkCollisions]: the first alive wall that
    overlaps [bb], as it was found, and the walls after the hit (a
    destructible wall dies). *)
Fixpoint wallHit (bb : Rect) (ws : list Wall.t)
  : option (Wall.t * list Wall.t) :=
  match ws with
  | [] => None
  | wall :: rest =>
      if Wall.alive wall && rectsOverlap bb (Wall.getBounds wall) then
        Some (wall,
              (if Wall.destructible wall then Wall.set_alive wall false
               else wall) :: rest)
      else
        match wallHit bb rest with
        | Some (hit, rest') => Some (hit, wall :: rest')
        | None => None
        end
  end.

(** The enemy loop: the first alive enemy that overlaps [bb], and the
    enemies after it died. *)
Fixpoint enemyHit (bb : Rect) (es : list Tank.t)
  : option (Tank.t * list Tank.t) :=
  match es with
  | [] => None
  | enemy :: rest =>
      if Tank.alive enemy && rectsOverlap bb (Tank.getBounds enemy) then
        Some (enemy, Tank.set_alive enemy false :: rest)
      else
        match enemyHit bb rest with
        | Some (hit, rest') => Some (hit, enemy :: rest')
        | None => None
        end
  end.

(** Bullet against walls. *)
Definition bulletVsWalls (g : GameEngine) (bullet : Bullet.t)
  : GameEngine * Bullet.t :=
  let bb := Bullet.getBounds bullet in
  match wallHit bb (walls g) with
  | Some (wall, ws') =>
      let g1 := set_walls g ws' in
      (if Wall.destructible wall then
         _addExplosion g1 (Wall.x wall + Wall.size wall / 2)
                       (Wall.y wall + Wall.size wall / 2) 12 "#AA6633"
       else
         _addExplosion g1 (Bullet.x bullet) (Bullet.y bullet) 6 "#CCCCCC",
       Bullet.set_alive bullet false)
  | None => (g, bullet)
  end.

(** Player bullet against enemies; [bb] is the box taken at the top of the
    iteration. *)
Definition bulletVsEnemies (g : GameEngine) (bb : Rect) (bullet : Bullet.t)
  : GameEngine * Bullet.t :=
  if Bullet.isPlayerBullet bullet then
    match enemyHit bb (enemies g) with
    | Some (enemy, es') =>
        let g1 := set_enemies g es' in
        let g2 := set_score g1 (score g1 + 100)%Z in
        let g3 := set_enemiesDestroyed g2 (enemiesDestroyed g2 + 1)%Z in
        (_addExplosion g3 (Tank.x enemy + Tank.size enemy / 2)
                       (Tank.y enemy + Tank.size enemy / 2) 25 "#FF4400",
         Bullet.set_alive bullet false)
    | None => (g, bullet)
    end
  else (g, bullet).

(** The body of the inner [if] of the enemy-bullet block: the player [p]
    takes the hit. *)
Definition playerHit (g : GameEngine) (p : Tank.t) (now : Q) : GameEngine :=
  let g1 := set_lives g (lives g - 1)%Z in
  let g2 := _addExplosion g1 (Tank.x p + Tank.size p / 2)
                          (Tank.y p + Tank.size p / 2) 25 "#00FF66" in
  if (lives g2 <=? 0)%Z then
    set_state (set_player g2 (Some (Tank.set_alive p false))) GAME_OVER
  else
    let spawn := getPlayerSpawn in
    let p1 := Tank.set_x p (fst spawn) in
    let p2 := Tank.set_y p1 (snd spawn) in
    let p3 := Tank.set_direction p2 UP in
    set_player g2 (Some (Tank.set_invincibleUntil p3 (now + 2000))).

(** Enemy bullet against the player. *)
Definition bulletVsPlayer (g : GameEngine) (bb : Rect) (bullet : Bullet.t)
  (now : Q) : GameEngine * Bullet.t :=
  if negb (Bullet.isPlayerBullet bullet) then
    match player g with
    | Some p =>
        if Tank.alive p then
          if negb (Tank.isInvincible p now)
             && rectsOverlap bb (Tank.getBounds p)
          then (playerHit g p now, Bullet.set_alive bullet false)
          else (g, bullet)
        else (g, bullet)
    | None => (g, bullet)
    end
  else (g, bullet).

(** One iteration of the loop of [_checkCollisions]: the engine and the
    bullet after it. *)
Definition checkBullet (now : Q) (g : GameEngine) (bullet : Bullet.t)
  : GameEngine * Bullet.t :=
  if negb (Bullet.alive bullet) then (g, bullet)
  else
    let bb := Bullet.getBounds bullet in
    let '(g1, b1) := bulletVsWalls g bullet in
    if negb (Bullet.alive b1) then (g1, b1)
    else
      let '(g2, b2) := bulletVsEnemies g1 bb b1 in
      bulletVsPlayer g2 bb b2 now.

(** The loop over the bullets, in list order; the engine is threaded
    through, the bullets are returned as the loop left them. *)
Fixpoint checkBullets (now : Q) (g : GameEngine) (bs : list Bullet.t)
  : GameEngine * list Bullet.t :=
  match bs with
  | [] => (g, [])
  | bullet :: rest =>
      let '(g1, b1) := checkBullet now g bullet in
      let '(g2, rest') := checkBullets now g1 rest in
      (g2, b1 :: rest')
  end.

Definition _checkCollisions (g : GameEngine) (now : Q) : GameEngine :=
  let '(g1, bs) := checkBullets now g (bullets g) in
  set_bullets g1 bs.

(** Step 4 of [update]: every bullet advances. *)
Definition updateBullets (g : GameEngine) : GameEngine :=
  set_bullets g (map Bullet.update (bullets g)).

(** Step 6 of [update]: the four [filter]s. *)
Definition cleanup (g : GameEngine) : GameEngine :=
  let g1 := set_bullets g (filter Bullet.alive (bullets g)) in
  let g2 := set_enemies g1 (filter Tank.alive (enemies g1)) in
  let g3 := set_walls g2 (filter Wall.alive (walls g2)) in
  set_explosions g3 (filter (fun e => 0 <? alpha e) (explosions g3)).

(** Step 7 of [update]: the explosions grow and fade. *)
Definition updateExplosions (g : GameEngine) : GameEngine :=
  set_explosions g
    (map (fun e => mkExplosion (ex e) (ey e) (radius e + 1.5) (maxRadius e)
                               (alpha e - 0.03) (ecolor e))
         (explosions g)).

(** Step 8 of [update]: the level is cleared. *)
Definition checkLevelClear (g : GameEngine) : GameEngine :=
  if (ENEMIES_PER_LEVEL <=? enemiesDestroyed g)%Z
  then set_state g LEVEL_CLEAR else g.

Definition update (g : GameEngine) (now : Q) (r : Rand) : GameEngine * Rand :=
  if negb (GAME_STATE_eqb (state g) PLAYING) then (g, r)
  else
    let g1 := _handlePlayerInput g now in
    let '(g2, r2) := _updateEnemyAI g1 now r in
    let '(g3, r3) := _spawnEnemies g2 now r2 in
    let g4 := updateBullets g3 in
    let g5 := _checkCollisions g4 now in
    let g6 := cleanup g5 in
    let g7 := updateExplosions g6 in
    (checkLevelClear g7, r3).

Section Run.

Variable Math_sin : Q -> Q.

(** [startGame(level)]; [t1] and [t2] are the values of its two
    [performance.now()] reads. *)
Definition startGame (g : GameEngine) (lvl : Z) (t1 t2 : Q) (r : Rand)
  : GameEngine * Rand :=
  let '(u, r1) := Math_random r in
  let spawn := getPlayerSpawn in
  let p := Tank.new (fst spawn) (snd spawn) UP true u in
  ({| state := PLAYING;
      score := if (lvl =? 1)%Z then 0%Z else score g;
      lives := if (lvl =? 1)%Z then PLAYER_MAX_LIVES else lives g;
      level := lvl;
      enemiesDestroyed := 0;
      totalEnemiesSpawned := 0;
      player := Some (Tank.set_invincibleUntil p (t1 + 2000));
      enemies := [];
      bullets := [];
      walls := generateMap Math_sin lvl;
      lastEnemySpawnTime := t2;
      keys := keys g;
      explosions := [] |},
   r1).

Definition nextLevel (g : GameEngine) (t1 t2 : Q) (r : Rand)
  : GameEngine * Rand :=
  startGame g (level g + 1)%Z t1 t2 r.

(** The states the engine passes through: the commands of the
    presentation layer, the input flags it writes, and every stage of
    [update] (so that the states between two stages of a tick, in which
    the tanks move, are covered). *)
Inductive reachable : GameEngine -> Prop :=
  | reach_new : reachable newGameEngine
  | reach_startGame g lvl t1 t2 r :
      reachable g -> reachable (fst (startGame g lvl t1 t2 r))
  | reach_togglePause g :
      reachable g -> reachable (togglePause g)
  | reach_keys g k :
      reachable g -> reachable (set_keys g k)
  | reach_handlePlayerInput g now :
      reachable g -> reachable (_handlePlayerInput g now)
  | reach_enemyRedirect g k now r :
      reachable g -> reachable (fst (enemyRedirect k now g r))
  | reach_enemyAdvance g k now r :
      reachable g -> reachable (fst (enemyAdvance k now g r))
  | reach_spawnEnemies g now r :
      reachable g -> reachable (fst (_spawnEnemies g now r))
  | reach_updateBullets g :
      reachable g -> reachable (updateBullets g)
  | reach_checkCollisions g now :
      reachable g -> reachable (_checkCollisions g now)
  | reach_cleanup g :
      reachable g -> reachable (cleanup g)
  | reach_updateExplosions g :
      reachable g -> reachable (updateExplosions g)
  | reach_checkLevelClear g :
      reachable g -> reachable (checkLevelClear g).

End Run.

(* ================================================================== *)
(** * Vocabulary of the properties *)

(** Beyond the design resolution by more than [size]. *)
Definition beyondBounds (x y size : Q) : Prop :=
  x < - size \/ DESIGN_WIDTH + size < x \/
  y < - size \/ DESIGN_HEIGHT + size < y.

(** The displacement of one step: the components of the unit vector of a
    direction, the vertical axis pointing down. *)
Definition dirX (d : DIR) : Q :=
  match d with LEFT => -1 | RIGHT => 1 | UP | DOWN => 0 end.
Definition dirY (d : DIR) : Q :=
  match d with UP => -1 | DOWN => 1 | LEFT | RIGHT => 0 end.

(** The muzzle point of a tank: the bullet is centred on the edge the tank
    faces and lies against it from outside. *)
Definition atMuzzle (this : Tank.t) (b : Bullet.t) : Prop :=
  let cx := Tank.x this + Tank.size this / 2 in
  let cy := Tank.y this + Tank.size this / 2 in
  match Tank.direction this with
  | UP =>
      Bullet.x b + Bullet.size b / 2 == cx
      /\ Bullet.y b + Bullet.size b == Tank.y this
  | DOWN =>
      Bullet.x b + Bullet.size b / 2 == cx
      /\ Bullet.y b == Tank.y this + Tank.size this
  | LEFT =>
      Bullet.x b + Bullet.size b == Tank.x this
      /\ Bullet.y b + Bullet.size b / 2 == cy
  | RIGHT =>
      Bullet.x b == Tank.x this + Tank.size this
      /\ Bullet.y b + Bullet.size b / 2 == cy
  end.

(** [v'] is a multiple of the cell size nearest to [v]. *)
Definition nearestGridLine (v' v : Q) : Prop :=
  (exists k : Z, v' == inject_Z k * WALL_SIZE)
  /\ forall m : Z, Qabs (v' - v) <= Qabs (inject_Z m * WALL_SIZE - v).

(** The box [nb] overlaps an alive wall of [walls], or an alive tank of
    [tanks] other than the one at index [self]. *)
Definition overlapsWall (nb : Rect) (walls : list Wall.t) : Prop :=
  exists wall, In wall walls /\ Wall.alive wall = true
               /\ rectsOverlap nb (Wall.getBounds wall) = true.

Definition overlapsOtherTank (nb : Rect) (self : nat) (tanks : list Tank.t)
  : Prop :=
  exists j other, nth_error tanks j = Some other /\ j <> self
                  /\ Tank.alive other = true
                  /\ rectsOverlap nb (Tank.getBounds other) = true.

(** The spawn test box at [sp] overlaps an alive tank of the engine. *)
Definition spawnOccupied (g : GameEngine) (sp : Q * Q) : Prop :=
  exists t, In t (spawnBlockers g) /\ Tank.alive t = true
            /\ rectsOverlap {| rx := fst sp; ry := snd sp; rw := 36; rh := 36 |}
                            (Tank.getBounds t) = true.

(** The three gates of [_spawnEnemies] pass at [now]: quota, cap, cooldown. *)
Definition spawnEligible (g : GameEngine) (now : Q) : Prop :=
  (totalEnemiesSpawned g < ENEMIES_PER_LEVEL)%Z
  /\ (length (enemies g) < MAX_ENEMIES)%nat
  /\ ENEMY_SPAWN_INTERVAL <= now - lastEnemySpawnTime g.

(** Every coordinate and size the engine gives a tank or a wall is an
    integer. *)
Definition tank_ok (t : Tank.t) : Prop :=
  integral (Tank.x t) /\ integral (Tank.y t)
  /\ integral (Tank.size t) /\ integral (Tank.speed t).

Definition wall_ok (w : Wall.t) : Prop :=
  integral (Wall.x w) /\ integral (Wall.y w) /\ integral (Wall.size w).

Definition engine_ok (g : GameEngine) : Prop :=
  (forall p, player g = Some p -> tank_ok p)
  /\ Forall tank_ok (enemies g)
  /\ Forall wall_ok (walls g).

(** ** Sample states *)

Definition bullet_sample : Bullet.t :=
  Bullet.new 1269 100 RIGHT false COLOR_BULLET_ENEMY.


Definition tank_fresh : Tank.t := Tank.new 0 0 UP true 0.

Definition tank_dead : Tank.t :=
  Tank.set_alive (Tank.new 100 100 UP false 0) false.

Definition tank_facing_up : Tank.t := Tank.new 76 100 UP true 0.

Definition wall_right : list Wall.t := [ Wall.new 108 108 BRICK ].

Definition rand_half : Rand := mkRand (fun _ => 0.5) 0.

Definition keys_none : Keys := mkKeys false false false false false.

(** A running game: the player stands on its spawn point, invincible until
    2000, and an enemy bullet flies down onto it. *)
Definition engine_invincible : GameEngine :=
  {| state := PLAYING; score := 0; lives := 3; level := 1;
     enemiesDestroyed := 0; totalEnemiesSpawned := 0;
     player := Some (Tank.set_invincibleUntil
                       (Tank.new 612 612 UP true 0) 2000);
     enemies := [];
     bullets := [ Bullet.new 625 610 DOWN false COLOR_BULLET_ENEMY ];
     walls := [];
     lastEnemySpawnTime := 0;
     keys := keys_none;
     explosions := [] |}.

(** A running game in which an enemy stands on the first spawn point when
    the spawn cooldown, started at 0, has elapsed. *)
Definition engine_blocked : GameEngine :=
  {| state := PLAYING; score := 0; lives := 3; level := 1;
     enemiesDestroyed := 0; totalEnemiesSpawned := 3;
     player := Some (Tank.new 612 612 UP true 0);
     enemies := [ Tank.new 72 80 DOWN false 0 ];
     bullets := [];
     walls := [];
     lastEnemySpawnTime := 0;
     keys := keys_none;
     explosions := [] |}.

(** The engine right after [startGame(1)], both clock reads giving 0. *)
Definition engine_started : GameEngine :=
  fst (startGame Math_sin_level5 newGameEngine 1 0 0 rand_half).

Definition player_started : Tank.t :=
  Tank.set_invincibleUntil
    (Tank.new (fst getPlayerSpawn) (snd getPlayerSpawn) UP true 0.5)
    (0 + 2000).

(** A tank a quarter of a unit off the integers, under a steel wall. *)
Definition tank_off_grid : Tank.t := Tank.new 40.25 73 UP true 0.

Definition wall_above : Wall.t := Wall.new 72 36 STEEL.

(* ================================================================== *)
(** * Vocabulary of the further properties *)

(** The number of updates after which a bullet that started at [(x, y)]
    has certainly left the design resolution. *)
Definition flightBound (b : Bullet.t) : nat :=
  S (Z.to_nat
       (Qceiling ((DESIGN_WIDTH + DESIGN_HEIGHT + Qabs (Bullet.size b)
                   + Qabs (Bullet.x b) + Qabs (Bullet.y b))
                  / Bullet.speed b))).

(** [w] is a wall that fills grid cell [(c, r)]. *)
Definition wallInCell (w : Wall.t) (c r : Z) : Prop :=
  Wall.x w == inject_Z c * WALL_SIZE /\ Wall.y w == inject_Z r * WALL_SIZE
  /\ Wall.size w = WALL_SIZE.

(** The outermost ring of the grid. *)
Definition onBorder (c r : Z) : Prop :=
  c = 0%Z \/ c = (COLS - 1)%Z \/ r = 0%Z \/ r = (ROWS - 1)%Z.

(** The three by three cells around the cell whose corner is [sp]. *)
Definition spawnZone (sp : Q * Q) : Rect :=
  {| rx := fst sp - WALL_SIZE; ry := snd sp - WALL_SIZE;
     rw := 3 * WALL_SIZE; rh := 3 * WALL_SIZE |}.

(** The enemies of a list that are alive. *)
Definition aliveCount (es : list Tank.t) : nat :=
  length (filter Tank.alive es).

(** The bookkeeping of a level: every enemy spawned is either alive in the
    list or counted as destroyed; the quota and the cap are respected; the
    lives never exceed the initial three. *)
Definition tally_ok (g : GameEngine) : Prop :=
  (enemiesDestroyed g + Z.of_nat (aliveCount (enemies g))
   = totalEnemiesSpawned g)%Z
  /\ (0 <= enemiesDestroyed g)%Z
  /\ (totalEnemiesSpawned g <= ENEMIES_PER_LEVEL)%Z
  /\ (length (enemies g) <= MAX_ENEMIES)%nat
  /\ (lives g <= PLAYER_MAX_LIVES)%Z.

(** Every wall fills a cell outside the reserved zones. *)
Definition walls_clear (g : GameEngine) : Prop :=
  Forall (fun w => exists c r, wallInCell w c r /\ isReserved c r = false)
         (walls g).

(* ================================================================== *)
(** * GameEngine.js: the notification *)

(** The object [_notifyStateChange] hands to [onStateChange]. *)
Record StateInfo : Type := mkStateInfo {
  info_state : GAME_STATE;
  info_score : Z;
  info_lives : Z;
  info_level : Z;
  info_enemiesLeft : Z
}.

Definition _notifyStateChange (g : GameEngine) : StateInfo :=
  {| info_state := state g;
     info_score := score g;
     info_lives := lives g;
     info_level := level g;
     info_enemiesLeft := (ENEMIES_PER_LEVEL - enemiesDestroyed g)%Z |}.

(* ================================================================== *)
(** * useInputHandler.js *)

(** The names the virtual pad passes to [setDirection]; [None] is
    [null]. *)
Inductive DirName : Type := dir_up | dir_down | dir_left | dir_right.

Definition set_up (k : Keys) (v : bool) : Keys :=
  mkKeys v (down k) (left k) (right k) (fire k).
Definition set_down (k : Keys) (v : bool) : Keys :=
  mkKeys (up k) v (left k) (right k) (fire k).
Definition set_left (k : Keys) (v : bool) : Keys :=
  mkKeys (up k) (down k) v (right k) (fire k).
Definition set_right (k : Keys) (v : bool) : Keys :=
  mkKeys (up k) (down k) (left k) v (fire k).
Definition set_fire (k : Keys) (v : bool) : Keys :=
  mkKeys (up k) (down k) (left k) (right k) v.

(** [setDirection(dir)]: all four flags are cleared, then [keys[dir]] is
    set. *)
Definition setDirection (g : GameEngine) (dir : option DirName) : GameEngine :=
  let k0 := set_right (set_left (set_down (set_up (keys g) false) false)
                                false) false in
  set_keys g
    match dir with
    | None => k0
    | Some dir_up => set_up k0 true
    | Some dir_down => set_down k0 true
    | Some dir_left => set_left k0 true
    | Some dir_right => set_right k0 true
    end.

Definition setFire (g : GameEngine) (firing : bool) : GameEngine :=
  set_keys g (set_fire (keys g) firing).

(** The keys the keyboard handlers know, after [e.key.toLowerCase()]. *)
Inductive KeyName : Type :=
  | key_up      (* 'w', 'arrowup' *)
  | key_down    (* 's', 'arrowdown' *)
  | key_left    (* 'a', 'arrowleft' *)
  | key_right   (* 'd', 'arrowright' *)
  | key_fire    (* ' ', 'j' *)
  | key_pause   (* 'p', 'escape' *)
  | key_other.

(** The [switch] of the two keyboard handlers on the lower-cased key. *)
Definition keyName (lowered : string) : KeyName :=
  if String.eqb lowered "w" || String.eqb lowered "arrowup" then key_up
  else if String.eqb lowered "s" || String.eqb lowered "arrowdown"
       then key_down
  else if String.eqb lowered "a" || String.eqb lowered "arrowleft"
       then key_left
  else if String.eqb lowered "d" || String.eqb lowered "arrowright"
       then key_right
  else if String.eqb lowered " " || String.eqb lowered "j" then key_fire
  else if String.eqb lowered "p" || String.eqb lowered "escape"
       then key_pause
  else key_other.

Definition handleKeyDown (g : GameEngine) (lowered : string) : GameEngine :=
  match keyName lowered with
  | key_up => set_keys g (set_up (keys g) true)
  | key_down => set_keys g (set_down (keys g) true)
  | key_left => set_keys g (set_left (keys g) true)
  | key_right => set_keys g (set_right (keys g) true)
  | key_fire => set_keys g (set_fire (keys g) true)
  | key_pause => togglePause g
  | key_other => g
  end.

Definition handleKeyUp (g : GameEngine) (lowered : string) : GameEngine :=
  match keyName lowered with
  | key_up => set_keys g (set_up (keys g) false)
  | key_down => set_keys g (set_down (keys g) false)
  | key_left => set_keys g (set_left (keys g) false)
  | key_right => set_keys g (set_right (keys g) false)
  | key_fire => set_keys g (set_fire (keys g) false)
  | key_pause | key_other => g
  end.

(** The direction [_handlePlayerInput] acts on: the first flag set, in the
    order up, down, left, right. *)
Definition chosenDirection (k : Keys) : option DIR :=
  if up k then Some UP
  else if down k then Some DOWN
  else if left k then Some LEFT
  else if right k then Some RIGHT
  else None.

(** ** Sample states of the further properties *)

(** A game on level 2 with a score, paused by the player. *)
Definition engine_level2 : GameEngine :=
  {| state := PLAYING; score := 700; lives := 2; level := 2;
     enemiesDestroyed := 8; totalEnemiesSpawned := 8;
     player := Some (Tank.new 612 612 UP true 0);
     enemies := []; bullets := []; walls := [];
     lastEnemySpawnTime := 0; keys := keys_none; explosions := [] |}.

(** What a stage of a tick that kills no one and scores nothing leaves
    alone. *)
Definition same_tally (g g' : GameEngine) : Prop :=
  state g' = state g /\ score g' = score g /\ lives g' = lives g
  /\ level g' = level g /\ enemiesDestroyed g' = enemiesDestroyed g
  /\ walls g' = walls g
  /\ map Tank.alive (enemies g') = map Tank.alive (enemies g).

(** What the collision pass may do to the tally: kills are scored 100
    each, no enemy appears or leaves the list, lives only go down. *)
Definition pass_tally (g g' : GameEngine) : Prop :=
  totalEnemiesSpawned g' = totalEnemiesSpawned g
  /\ level g' = level g
  /\ length (enemies g') = length (enemies g)
  /\ (enemiesDestroyed g' + Z.of_nat (aliveCount (enemies g'))
      = enemiesDestroyed g + Z.of_nat (aliveCount (enemies g)))%Z
  /\ (enemiesDestroyed g <= enemiesDestroyed g')%Z
  /\ (score g' = score g + 100 * (enemiesDestroyed g' - enemiesDestroyed g))%Z
  /\ (lives g' <= lives g)%Z.

(** The player tank after a hit it survives: back on the spawn point,
    facing up, invincible for two seconds. *)
Definition respawned (p : Tank.t) (now : Q) : Tank.t :=
  Tank.set_invincibleUntil
    (Tank.set_direction
       (Tank.set_y (Tank.set_x p (fst getPlayerSpawn)) (snd getPlayerSpawn))
       UP)
    (now + 2000).

(** What the collision pass did to the player: nothing, or one hit, fatal
    or not. *)
Definition playerOutcome (g g' : GameEngine) (now : Q) : Prop :=
  (lives g' = lives g /\ player g' = player g /\ state g' = state g)
  \/ (lives g' = (lives g - 1)%Z
      /\ exists p,
           player g = Some p /\ Tank.alive p = true
           /\ Tank.isInvincible p now = false
           /\ (((lives g' <= 0)%Z /\ state g' = GAME_OVER
                /\ player g' = Some (Tank.set_alive p false))
               \/ ((0 < lives g')%Z /\ state g' = state g
                   /\ player g' = Some (respawned p now)))).

(** What the collision pass may do to a wall: nothing, or kill it if it
    was alive and destructible. *)
Definition wallFate (w w' : Wall.t) : Prop :=
  w' = w
  \/ (w' = Wall.set_alive w false /\ Wall.alive w = true
      /\ Wall.destructible w = true).

(** What the collision pass may do to an enemy: nothing, or kill it if it
    was alive. *)
Definition enemyFate (e e' : Tank.t) : Prop :=
  e' = e \/ (e' = Tank.set_alive e false /\ Tank.alive e = true).

(** A tank of the given side and of the size the constructor gives. *)
Definition role (side : bool) (t : Tank.t) : Prop :=
  Tank.isPlayer t = side /\ Tank.size t = TANK_SIZE.

(** The cast of a level: the player is the player's tank, the enemies are
    enemy tanks, and the walls keep off the reserved zones. *)
Definition cast_ok (g : GameEngine) : Prop :=
  (forall p, player g = Some p -> role true p)
  /\ Forall (role false) (enemies g)
  /\ walls_clear g.

(** A running game in which an enemy bullet is on the player, whose
    invincibility ended at 2000, with a steel wall in the top border. *)
Definition engine_under_fire : GameEngine :=
  set_walls engine_invincible [ wallAt 5 0 STEEL ].

(** The direction a name of the virtual pad stands for: [keys[dir]] is
    the flag [_handlePlayerInput] reads for it. *)
Definition dirOfName (d : DirName) : DIR :=
  match d with
  | dir_up => UP
  | dir_down => DOWN
  | dir_left => LEFT
  | dir_right => RIGHT
  end.

(** The animation loop: [update] called once per frame, [nows] being the
    values of [performance.now()] frame after frame. *)
Fixpoint frames (g : GameEngine) (r : Rand) (nows : list Q)
  : GameEngine * Rand :=
  match nows with
  | [] => (g, r)
  | now :: rest =>
      let '(g1, r1) := update g now r in
      frames g1 r1 rest
  end.

(** A running game with three enemies spawned, two of them destroyed: the
    one left is moving down off the first spawn point, 32 below it, and
    the last spawn was at 0. *)
Definition engine_leaving : GameEngine :=
  {| state := PLAYING; score := 200; lives := 3; level := 1;
     enemiesDestroyed := 2; totalEnemiesSpawned := 3;
     player := Some (Tank.new 612 612 UP true 0);
     enemies := [ Tank.set_aiDirectionTimer (Tank.new 72 104 DOWN false 1)
                                            3000 ];
     bullets := [];
     walls := [];
     lastEnemySpawnTime := 0;
     keys := keys_none;
     explosions := [] |}.
(* ================================================================== *)
(** * Properties *)

(** ** Comparisons and integers *)

Lemma Qltb_lt (a b : Q) : (a <? b) = true <-> a < b.
Proof.
  unfold Qltb. rewrite negb_true_iff.
  split; intro H.
  - apply Qnot_le_lt. intro Hle. apply Qle_bool_iff in Hle. congruence.
  - destruct (Qle_bool b a) eqn:E; [|reflexivity].
    apply Qle_bool_iff in E. exfalso. apply (Qlt_not_le _ _ H E).
Qed.

Lemma Qltb_ge (a b : Q) : (a <? b) = false <-> b <= a.
Proof.
  unfold Qltb. rewrite negb_false_iff. apply Qle_bool_iff.
Qed.

(** Case analysis on a boolean comparison, leaving the order fact. *)
Ltac qcase a b H :=
  destruct (Qltb a b) eqn:H;
  [ apply Qltb_lt in H | apply Qltb_ge in H ].

#[local] Instance Qltb_Proper : Proper (Qeq ==> Qeq ==> eq) Qltb.
Proof.
  intros a a' Ha b b' Hb. unfold Qltb. now rewrite Ha, Hb.
Qed.

Lemma rectsOverlap_spec (a b : Rect) :
  rectsOverlap a b = true
  <-> rx a < rx b + rw b /\ rx b < rx a + rw a
      /\ ry a < ry b + rh b /\ ry b < ry a + rh a.
Proof.
  unfold rectsOverlap. rewrite !andb_true_iff, !Qltb_lt. tauto.
Qed.

Lemma integral_ex (q : Q) : (exists z, q == inject_Z z) -> integral q.
Proof.
  intros [z Hz]. unfold integral.
  rewrite (Qfloor_comp _ _ Hz), Qfloor_Z. exact Hz.
Qed.

Lemma integral_inject (z : Z) : integral (inject_Z z).
Proof. apply integral_ex. now exists z. Qed.

#[local] Instance integral_Proper : Proper (Qeq ==> iff) integral.
Proof.
  intros a b Hab. unfold integral.
  now rewrite (Qfloor_comp _ _ Hab), Hab.
Qed.

Lemma integral_plus (a b : Q) : integral a -> integral b -> integral (a + b).
Proof.
  intros Ha Hb. apply integral_ex. exists (Qfloor a + Qfloor b)%Z.
  rewrite inject_Z_plus. unfold integral in Ha, Hb. now rewrite <- Ha, <- Hb.
Qed.

Lemma integral_minus (a b : Q) : integral a -> integral b -> integral (a - b).
Proof.
  intros Ha Hb. apply integral_ex. exists (Qfloor a - Qfloor b)%Z.
  unfold Z.sub. rewrite inject_Z_plus, inject_Z_opp.
  unfold integral in Ha, Hb. rewrite <- Ha, <- Hb. reflexivity.
Qed.

Lemma integral_mult (a b : Q) : integral a -> integral b -> integral (a * b).
Proof.
  intros Ha Hb. apply integral_ex. exists (Qfloor a * Qfloor b)%Z.
  rewrite inject_Z_mult. unfold integral in Ha, Hb. now rewrite <- Ha, <- Hb.
Qed.

Lemma integral_max (a b : Q) : integral a -> integral b -> integral (Qmax a b).
Proof.
  intros Ha Hb. destruct (Q.max_dec a b) as [E|E]; now rewrite E.
Qed.

Lemma integral_min (a b : Q) : integral a -> integral b -> integral (Qmin a b).
Proof.
  intros Ha Hb. destruct (Q.min_dec a b) as [E|E]; now rewrite E.
Qed.

(** Between integers, a strict order leaves room for a half. *)
Lemma integral_lt_half (a b : Q) :
  integral a -> integral b -> (a + 0.5 < b <-> a < b).
Proof.
  unfold integral. intros Ha Hb. split; intro H; [lra|].
  assert (Hz : (Qfloor a < Qfloor b)%Z).
  { rewrite Zlt_Qlt. now rewrite <- Ha, <- Hb. }
  assert (Hz' : (Qfloor a + 1 <= Qfloor b)%Z) by lia.
  rewrite Zle_Qle, inject_Z_plus in Hz'.
  rewrite <- Ha, <- Hb in Hz'. change (inject_Z 1) with 1 in Hz'. lra.
Qed.

(** ** Bullet.update *)

Lemma outOfBounds_spec (b : Bullet.t) :
  Bullet.outOfBounds b = true
  <-> beyondBounds (Bullet.x b) (Bullet.y b) (Bullet.size b).
Proof.
  unfold Bullet.outOfBounds, beyondBounds.
  rewrite !orb_true_iff, !Qltb_lt. tauto.
Qed.

Lemma update_dead (b : Bullet.t) :
  Bullet.alive b = false -> Bullet.update b = b.
Proof. intro H. unfold Bullet.update. now rewrite H. Qed.

Lemma update_iter_dead (b : Bullet.t) (n : nat) :
  Bullet.alive b = false -> Nat.iter n Bullet.update b = b.
Proof.
  intro H. induction n as [|n IH]; simpl; [reflexivity|].
  rewrite IH. now apply update_dead.
Qed.

(** C9.  [Bullet.update] on an alive bullet moves it by its speed along
    its direction and touches no other field but [alive]; [alive] is
    cleared in that same update exactly when the new position is beyond
    the design resolution by more than the bullet's size.  A dead bullet is
    left as it is by any number of updates, so [alive] stays false.  A
    constructed bullet has the fixed speed [BULLET_SPEED]. *)
Theorem C9_bullet_update (b : Bullet.t) :
  let b' := Bullet.update b in
  (Bullet.alive b = true ->
     Bullet.x b' == Bullet.x b + dirX (Bullet.direction b) * Bullet.speed b
     /\ Bullet.y b' == Bullet.y b + dirY (Bullet.direction b) * Bullet.speed b
     /\ Bullet.direction b' = Bullet.direction b
     /\ Bullet.isPlayerBullet b' = Bullet.isPlayerBullet b
     /\ Bullet.color b' = Bullet.color b
     /\ Bullet.size b' = Bullet.size b
     /\ Bullet.speed b' = Bullet.speed b
     /\ (beyondBounds (Bullet.x b') (Bullet.y b') (Bullet.size b')
         -> Bullet.alive b' = false)
     /\ (~ beyondBounds (Bullet.x b') (Bullet.y b') (Bullet.size b')
         -> Bullet.alive b' = true))
  /\ (Bullet.alive b = false ->
      forall n, Nat.iter n Bullet.update b = b
                /\ Bullet.alive (Nat.iter n Bullet.update b) = false)
  /\ (forall x y d p c, Bullet.speed (Bullet.new x y d p c) = BULLET_SPEED).
Proof.
  cbv zeta. split; [|split].
  - intro Ha. unfold Bullet.update. rewrite Ha. cbn [negb].
    destruct (Bullet.outOfBounds (Bullet.advance b)) eqn:E.
    + pose proof (proj1 (outOfBounds_spec _) E) as Hb.
      unfold Bullet.advance in *.
      destruct (Bullet.direction b) eqn:D; cbn in *; rewrite ?D;
        (repeat split; try reflexivity; try assumption; try ring;
         intro Hn; try (exfalso; now apply Hn)).
    + assert (Hb : ~ beyondBounds (Bullet.x (Bullet.advance b))
                      (Bullet.y (Bullet.advance b))
                      (Bullet.size (Bullet.advance b))).
      { intro Hb. apply outOfBounds_spec in Hb. congruence. }
      unfold Bullet.advance in *.
      destruct (Bullet.direction b) eqn:D; cbn in *; rewrite ?D;
        (repeat split; try reflexivity; try assumption; try ring;
         intro Hn; try assumption; try (exfalso; now apply Hb)).
  - intros Hd n. rewrite (update_iter_dead b n Hd). now split.
  - reflexivity.
Qed.

Lemma C9_bullet_update_witness :
  Bullet.alive bullet_sample = true
  /\ Bullet.x (Bullet.update bullet_sample) == 1275
  /\ Bullet.alive (Bullet.update (Bullet.update bullet_sample)) = true
  /\ Bullet.alive (Nat.iter 3 Bullet.update bullet_sample) = false
  /\ Bullet.alive (Nat.iter 9 Bullet.update bullet_sample) = false.
Proof.
  pose proof (C9_bullet_update bullet_sample) as [H1 _].
  specialize (H1 eq_refl). destruct H1 as [Hx _].
  pose proof (C9_bullet_update (Nat.iter 3 Bullet.update bullet_sample))
    as [_ [H2 _]].
  specialize (H2 eq_refl 6%nat). destruct H2 as [_ H2].
  split; [reflexivity|]. split; [rewrite Hx; reflexivity|].
  split; [reflexivity|]. split; [reflexivity|]. exact H2.
Defined.

(** ** Tank.fire *)

(** C10.  [fire] on a dead tank returns [null] and leaves the tank, its
    [lastFireTime] included, as it was. *)
Theorem C10_dead_tank_fire (this : Tank.t) (now : Q) :
  Tank.alive this = false -> Tank.fire this now = (this, None).
Proof.
  intro H. unfold Tank.fire. now rewrite H.
Qed.

Lemma C10_dead_tank_fire_witness :
  Tank.alive tank_dead = false
  /\ Tank.fire tank_dead 5000 = (tank_dead, None).
Proof.
  split; [reflexivity|]. apply (C10_dead_tank_fire tank_dead 5000).
  reflexivity.
Defined.

Lemma fire_cooling (this : Tank.t) (now : Q) :
  Tank.alive this = true ->
  now - Tank.lastFireTime this < Tank.fireCooldown this ->
  Tank.fire this now = (this, None).
Proof.
  intros Ha Hc. unfold Tank.fire. rewrite Ha. cbn [negb].
  apply Qltb_lt in Hc. now rewrite Hc.
Qed.

Lemma fire_ready (this : Tank.t) (now : Q) :
  Tank.alive this = true ->
  Tank.fireCooldown this <= now - Tank.lastFireTime this ->
  exists bullet,
    Tank.fire this now = (Tank.set_lastFireTime this now, Some bullet)
    /\ Bullet.isPlayerBullet bullet = Tank.isPlayer this
    /\ Bullet.color bullet = Tank.bulletColor this
    /\ Bullet.direction bullet = Tank.direction this
    /\ Bullet.alive bullet = true
    /\ Bullet.size bullet = BULLET_SIZE
    /\ atMuzzle this bullet
    /\ rectsOverlap (Bullet.getBounds bullet) (Tank.getBounds this) = false.
Proof.
  intros Ha Hc. unfold Tank.fire. rewrite Ha. cbn [negb].
  apply Qltb_ge in Hc. rewrite Hc.
  unfold atMuzzle, rectsOverlap.
  destruct this as [x y d p sp cd c bc lf al sz iu at_ ai]; cbn in *.
  destruct d; cbn;
    (eexists; split; [reflexivity|]; cbn;
     repeat (split; [try reflexivity; try (unfold BULLET_SIZE; field)|]);
     try (unfold BULLET_SIZE; field));
    match goal with
    | |- ?o = false =>
        destruct o eqn:E; [|reflexivity];
        repeat (apply andb_true_iff in E; destruct E as [E ?]);
        repeat match goal with
               | H : Qltb _ _ = true |- _ => apply Qltb_lt in H
               end;
        unfold BULLET_SIZE in *; cbn in *; lra
    end.
Qed.

(** C7, amended.  On an alive tank, [fire(now)] made less than the cooldown
    after [lastFireTime] returns [null] and changes nothing; otherwise it
    stamps [lastFireTime = now], changes no other field, and returns an
    alive bullet with the tank's owner flag, bullet colour and direction,
    at the muzzle point, outside the tank's box.  After a call that
    returned a bullet, a second call less than the cooldown later returns
    none and one at least the cooldown later returns a bullet. *)
Theorem C7_fire_cooldown (this : Tank.t) (now : Q) :
  Tank.alive this = true ->
  (now - Tank.lastFireTime this < Tank.fireCooldown this ->
     Tank.fire this now = (this, None))
  /\ (Tank.fireCooldown this <= now - Tank.lastFireTime this ->
      exists bullet,
        Tank.fire this now = (Tank.set_lastFireTime this now, Some bullet)
        /\ Bullet.isPlayerBullet bullet = Tank.isPlayer this
        /\ Bullet.color bullet = Tank.bulletColor this
        /\ Bullet.direction bullet = Tank.direction this
        /\ Bullet.alive bullet = true
        /\ atMuzzle this bullet
        /\ rectsOverlap (Bullet.getBounds bullet) (Tank.getBounds this)
           = false
        /\ forall now2,
             let this1 := fst (Tank.fire this now) in
             (now2 - now < Tank.fireCooldown this ->
                Tank.fire this1 now2 = (this1, None))
             /\ (Tank.fireCooldown this <= now2 - now ->
                 exists bullet2, snd (Tank.fire this1 now2) = Some bullet2)).
Proof.
  intro Ha. split.
  - now apply fire_cooling.
  - intro Hc.
    destruct (fire_ready this now Ha Hc)
      as (b & Hf & Hp & Hcol & Hd & Hal & _ & Hm & Ho).
    exists b. rewrite Hf. cbn [fst].
    split; [reflexivity|]. do 6 (split; [assumption|]).
    intro now2. cbv zeta. split; intro H2.
    + apply fire_cooling; [exact Ha | exact H2].
    + destruct (fire_ready (Tank.set_lastFireTime this now) now2 Ha H2)
        as (b2 & Hf2 & _).
      exists b2. now rewrite Hf2.
Qed.

Lemma C7_fire_cooldown_witness :
  Tank.alive tank_fresh = true
  /\ (exists bullet, snd (Tank.fire tank_fresh 1000) = Some bullet)
  /\ snd (Tank.fire (fst (Tank.fire tank_fresh 1000)) 1100) = None.
Proof.
  destruct (C7_fire_cooldown tank_fresh 1000 eq_refl) as [_ H].
  assert (Hc : Tank.fireCooldown tank_fresh
               <= 1000 - Tank.lastFireTime tank_fresh)
    by (vm_compute; discriminate).
  destruct (H Hc) as (b & Hf & _ & _ & _ & _ & _ & _ & H2).
  split; [reflexivity|]. split.
  - exists b. now rewrite Hf.
  - destruct (H2 1100) as [Hn _]. cbv zeta in Hn. rewrite Hn.
    + reflexivity.
    + vm_compute. reflexivity.
Defined.

(** C7, as stated, fails: on a fresh player tank ([lastFireTime = 0],
    cooldown 300) the calls [fire(0)] and [fire(300)] are a cooldown apart
    and the first returns no bullet; the calls [fire(100)] and [fire(350)]
    are less than a cooldown apart and the second returns a bullet. *)
Lemma C7_counterexample :
  Tank.alive tank_fresh = true
  /\ (Tank.fireCooldown tank_fresh <= 300 - 0
      /\ snd (Tank.fire tank_fresh 0) = None)
  /\ (350 - 100 < Tank.fireCooldown tank_fresh
      /\ snd (Tank.fire tank_fresh 100) = None
      /\ snd (Tank.fire (fst (Tank.fire tank_fresh 100)) 350) <> None).
Proof.
  split; [reflexivity|]. split; [split|split; [|split]].
  - vm_compute. discriminate.
  - reflexivity.
  - vm_compute. reflexivity.
  - reflexivity.
  - vm_compute. discriminate.
Qed.

(** ** Tank.move: the grid snap *)

Lemma snapToGrid_nearest (v : Q) : nearestGridLine (snapToGrid v) v.
Proof.
  unfold nearestGridLine, snapToGrid, Math_round, WALL_SIZE.
  set (w := v / 36).
  assert (Hv : v == w * 36) by (unfold w; field).
  set (k := Qfloor (w + 0.5)).
  pose proof (Qfloor_le (w + 0.5)) as Hlo.
  pose proof (Qlt_floor (w + 0.5)) as Hhi.
  fold k in Hlo, Hhi. rewrite inject_Z_plus in Hhi.
  change (inject_Z 1) with 1 in Hhi.
  split; [now exists k|].
  intro m.
  assert (Hnear : Qabs (inject_Z k * 36 - v) <= 18).
  { apply Qabs_Qle_condition. split; lra. }
  destruct (Z.eq_dec m k) as [->|Hne]; [apply Qle_refl|].
  apply Qle_trans with (1 := Hnear).
  destruct (Z_lt_le_dec m k) as [Hm|Hm].
  - assert (Hm' : (m + 1 <= k)%Z) by lia.
    rewrite Zle_Qle, inject_Z_plus in Hm'. change (inject_Z 1) with 1 in Hm'.
    apply (Qabs_case (inject_Z m * 36 - v)); intro; lra.
  - assert (Hm' : (k + 1 <= m)%Z) by lia.
    rewrite Zle_Qle, inject_Z_plus in Hm'. change (inject_Z 1) with 1 in Hm'.
    apply (Qabs_case (inject_Z m * 36 - v)); intro; lra.
Qed.

Lemma snapToGrid_integral (v : Q) : integral (snapToGrid v).
Proof.
  unfold snapToGrid, WALL_SIZE. apply integral_mult.
  - apply integral_inject.
  - apply (integral_inject 36).
Qed.

Lemma clamp_inside (hi v : Q) : 0 <= v <= hi -> Qmax 0 (Qmin hi v) == v.
Proof.
  intros [H0 H1]. rewrite (Q.min_r hi v H1). now apply Q.max_r.
Qed.

Lemma move_alive (this : Tank.t) (self : nat) (dir : DIR)
  (walls : list Wall.t) (tanks : list Tank.t) :
  Tank.alive this = true ->
  Tank.move this self dir walls tanks
  = if Tank.blocked this self dir walls tanks then Tank.turn this dir
    else Tank.set_y
           (Tank.set_x (Tank.turn this dir)
                       (fst (Tank.tentative (Tank.turn this dir) dir)))
           (snd (Tank.tentative (Tank.turn this dir) dir)).
Proof.
  intro Ha. unfold Tank.move, Tank.blocked. rewrite Ha. cbn [negb].
  destruct (Tank.tentative (Tank.turn this dir) dir) as [nx ny] eqn:T.
  cbn [fst snd].
  destruct (Tank.hitsWall _ walls); [reflexivity|].
  destruct (Tank.hitsTank _ self tanks); reflexivity.
Qed.

Lemma move_dead (this : Tank.t) (self : nat) (dir : DIR)
  (walls : list Wall.t) (tanks : list Tank.t) :
  Tank.alive this = false -> Tank.move this self dir walls tanks = this.
Proof. intro H. unfold Tank.move. now rewrite H. Qed.

Lemma turn_fields (this : Tank.t) (dir : DIR) :
  let this1 := Tank.turn this dir in
  Tank.direction this1 = dir
  /\ Tank.size this1 = Tank.size this
  /\ Tank.speed this1 = Tank.speed this
  /\ Tank.alive this1 = Tank.alive this
  /\ Tank.x this1
     = (if negb (Bool.eqb (isVertical (Tank.direction this)) (isVertical dir))
           && isVertical dir
        then snapToGrid (Tank.x this) else Tank.x this)
  /\ Tank.y this1
     = (if negb (Bool.eqb (isVertical (Tank.direction this)) (isVertical dir))
           && negb (isVertical dir)
        then snapToGrid (Tank.y this) else Tank.y this).
Proof.
  unfold Tank.turn.
  destruct (isVertical (Tank.direction this)), (isVertical dir); cbn;
    repeat split; reflexivity.
Qed.

(** C8.  When a tank heading along one axis is moved along the other, the
    off-axis coordinate it has right after the switch (in [turn], before
    the advance and the collision tests) is a multiple of the cell size
    nearest to the coordinate it had, the other coordinate being untouched
    by the switch.  [move] makes the switch on every alive tank, and the
    tank still has that coordinate when [move] returns: always when the
    move is blocked, and as long as the grid line lies inside the design
    resolution when it is committed.  (A dead tank is not moved at all.) *)
Theorem C8_grid_snap (this : Tank.t) (self : nat) (dir : DIR)
  (walls : list Wall.t) (tanks : list Tank.t) :
  isVertical (Tank.direction this) <> isVertical dir ->
  let this1 := Tank.turn this dir in
  let this' := Tank.move this self dir walls tanks in
  (if isVertical dir then
     Tank.x this1 = snapToGrid (Tank.x this)
     /\ nearestGridLine (Tank.x this1) (Tank.x this)
     /\ Tank.y this1 = Tank.y this
     /\ (Tank.alive this = true ->
         0 <= snapToGrid (Tank.x this) <= DESIGN_WIDTH - Tank.size this ->
         Tank.x this' == Tank.x this1)
   else
     Tank.y this1 = snapToGrid (Tank.y this)
     /\ nearestGridLine (Tank.y this1) (Tank.y this)
     /\ Tank.x this1 = Tank.x this
     /\ (Tank.alive this = true ->
         0 <= snapToGrid (Tank.y this) <= DESIGN_HEIGHT - Tank.size this ->
         Tank.y this' == Tank.y this1))
  /\ (Tank.alive this = true ->
      Tank.blocked this self dir walls tanks = true -> this' = this1)
  /\ (Tank.alive this = false -> this' = this).
Proof.
  intros Hax. cbv zeta.
  destruct (turn_fields this dir) as (Hd & Hsz & Hsp & _ & Hx & Hy).
  cbv zeta in *.
  assert (Hch : Bool.eqb (isVertical (Tank.direction this)) (isVertical dir)
                = false).
  { apply eqb_false_iff. exact Hax. }
  rewrite Hch in Hx, Hy. cbn [negb andb] in Hx, Hy.
  split; [|split].
  - destruct (isVertical dir) eqn:V; cbn [negb] in Hx, Hy.
    + split; [exact Hx|]. split; [rewrite Hx; apply snapToGrid_nearest|].
      split; [exact Hy|]. intros Ha Hin.
      rewrite (move_alive this self dir walls tanks Ha).
      destruct (Tank.blocked this self dir walls tanks); [reflexivity|].
      unfold Tank.tentative. rewrite Hsz.
      destruct dir; try discriminate V; cbn; rewrite !Hx;
        now apply clamp_inside.
    + split; [exact Hy|]. split; [rewrite Hy; apply snapToGrid_nearest|].
      split; [exact Hx|]. intros Ha Hin.
      rewrite (move_alive this self dir walls tanks Ha).
      destruct (Tank.blocked this self dir walls tanks); [reflexivity|].
      unfold Tank.tentative. rewrite Hsz.
      destruct dir; try discriminate V; cbn; rewrite !Hy;
        now apply clamp_inside.
  - intros Ha Hb. rewrite (move_alive this self dir walls tanks Ha).
    now rewrite Hb.
  - apply move_dead.
Qed.

Lemma C8_grid_snap_witness :
  isVertical (Tank.direction tank_facing_up) <> isVertical RIGHT
  /\ Tank.y (Tank.turn tank_facing_up RIGHT) = snapToGrid 100
  /\ Tank.y (Tank.move tank_facing_up 0 RIGHT wall_right [ tank_facing_up ])
     == 108.
Proof.
  assert (Hax : isVertical (Tank.direction tank_facing_up)
                <> isVertical RIGHT) by (cbn; discriminate).
  pose proof (C8_grid_snap tank_facing_up 0 RIGHT wall_right
                [ tank_facing_up ] Hax) as H.
  cbv zeta in H. cbn [isVertical] in H. destruct H as ((H1 & _ & _ & H4) & _).
  split; [exact Hax|]. split; [exact H1|].
  rewrite H4.
  - rewrite H1. vm_compute. reflexivity.
  - reflexivity.
  - split; vm_compute; discriminate.
Defined.

(** ** Tank.move: the collision loops *)

Lemma hitsWall_spec (nb : Rect) (walls : list Wall.t) :
  Tank.hitsWall nb walls = true <-> overlapsWall nb walls.
Proof.
  unfold Tank.hitsWall, overlapsWall. rewrite existsb_exists.
  split; intros (w & Hin & H).
  - apply andb_true_iff in H. exists w. tauto.
  - exists w. split; [exact Hin|]. apply andb_true_iff. tauto.
Qed.

Lemma hitsTankFrom_spec (nb : Rect) (self : nat) (tanks : list Tank.t) :
  forall j,
    Tank.hitsTankFrom j nb self tanks = true
    <-> exists i other, nth_error tanks i = Some other
                        /\ (j + i)%nat <> self
                        /\ Tank.alive other = true
                        /\ rectsOverlap nb (Tank.getBounds other) = true.
Proof.
  induction tanks as [|t rest IH]; intro j; cbn [Tank.hitsTankFrom].
  - split; [discriminate|]. intros (i & o & H & _). now destruct i.
  - assert (Hshift :
      (exists i other, nth_error rest i = Some other
                       /\ (S j + i)%nat <> self
                       /\ Tank.alive other = true
                       /\ rectsOverlap nb (Tank.getBounds other) = true)
      -> exists i other, nth_error (t :: rest) i = Some other
                         /\ (j + i)%nat <> self
                         /\ Tank.alive other = true
                         /\ rectsOverlap nb (Tank.getBounds other) = true).
    { intros (i & o & H1 & H2 & H3 & H4). exists (S i), o.
      cbn [nth_error]. repeat split; try assumption. lia. }
    destruct (Nat.eqb j self) eqn:Ej; cbn [orb].
    + apply Nat.eqb_eq in Ej. rewrite IH. split; [exact Hshift|].
      intros (i & o & H1 & H2 & H3 & H4). destruct i as [|i].
      * exfalso. apply H2. lia.
      * exists i, o. cbn [nth_error] in H1.
        repeat split; try assumption. lia.
    + apply Nat.eqb_neq in Ej.
      destruct (Tank.alive t) eqn:Et; cbn [negb].
      * destruct (rectsOverlap nb (Tank.getBounds t)) eqn:Eo.
        -- split; [|reflexivity]. intros _. exists 0%nat, t.
           cbn [nth_error]. repeat split; try assumption. lia.
        -- rewrite IH. split; [exact Hshift|].
           intros (i & o & H1 & H2 & H3 & H4). destruct i as [|i].
           ++ cbn [nth_error] in H1. injection H1 as <-. congruence.
           ++ exists i, o. cbn [nth_error] in H1.
              repeat split; try assumption. lia.
      * rewrite IH. split; [exact Hshift|].
        intros (i & o & H1 & H2 & H3 & H4). destruct i as [|i].
        -- cbn [nth_error] in H1. injection H1 as <-. congruence.
        -- exists i, o. cbn [nth_error] in H1.
           repeat split; try assumption. lia.
Qed.

Lemma hitsTank_spec (nb : Rect) (self : nat) (tanks : list Tank.t) :
  Tank.hitsTank nb self tanks = true <-> overlapsOtherTank nb self tanks.
Proof.
  unfold Tank.hitsTank, overlapsOtherTank. rewrite hitsTankFrom_spec.
  reflexivity.
Qed.

Lemma blocked_spec (this : Tank.t) (self : nat) (dir : DIR)
  (walls : list Wall.t) (tanks : list Tank.t) :
  Tank.blocked this self dir walls tanks = true
  <-> overlapsWall (Tank.nextBounds (Tank.turn this dir) dir) walls
      \/ overlapsOtherTank (Tank.nextBounds (Tank.turn this dir) dir) self
                           tanks.
Proof.
  unfold Tank.blocked. rewrite orb_true_iff, hitsWall_spec, hitsTank_spec.
  reflexivity.
Qed.

(** ** Tank.move: what a blocked and what a committed move change *)

(** C2, amended.  On an alive tank [move] always adopts the new direction
    and, on an axis change, snaps the off-axis coordinate, before it tests
    the tentative box.  If the box overlaps an alive wall or another alive
    tank, only the advance is abandoned: the tank is left as [turn] made
    it, with no change along the movement axis.  If nothing overlaps, the
    tentative position is committed as well and no field but the direction
    and the position has changed. *)
Theorem C2_move_frame (this : Tank.t) (self : nat) (dir : DIR)
  (walls : list Wall.t) (tanks : list Tank.t) :
  Tank.alive this = true ->
  let this1 := Tank.turn this dir in
  let this' := Tank.move this self dir walls tanks in
  let axisChanged :=
    negb (Bool.eqb (isVertical (Tank.direction this)) (isVertical dir)) in
  Tank.direction this' = dir
  /\ (overlapsWall (Tank.nextBounds this1 dir) walls
      \/ overlapsOtherTank (Tank.nextBounds this1 dir) self tanks ->
      this' = this1
      /\ Tank.x this'
         = (if axisChanged && isVertical dir
            then snapToGrid (Tank.x this) else Tank.x this)
      /\ Tank.y this'
         = (if axisChanged && negb (isVertical dir)
            then snapToGrid (Tank.y this) else Tank.y this))
  /\ (~ overlapsWall (Tank.nextBounds this1 dir) walls ->
      ~ overlapsOtherTank (Tank.nextBounds this1 dir) self tanks ->
      (Tank.x this', Tank.y this') = Tank.tentative this1 dir
      /\ this' = Tank.set_y (Tank.set_x (Tank.set_direction this dir)
                                        (Tank.x this'))
                            (Tank.y this')).
Proof.
  intro Ha. cbv zeta.
  rewrite (move_alive this self dir walls tanks Ha).
  destruct (turn_fields this dir) as (Hd & _ & _ & _ & Hx & Hy).
  cbv zeta in *.
  pose proof (blocked_spec this self dir walls tanks) as Hb.
  destruct (Tank.blocked this self dir walls tanks).
  - split; [exact Hd|]. split.
    + intros _. split; [reflexivity|]. split; assumption.
    + intros Hw Ht. exfalso. destruct (proj1 Hb eq_refl); tauto.
  - split; [exact Hd|]. split.
    + intro H. apply Hb in H. discriminate.
    + intros _ _. split.
      * cbn. now destruct (Tank.tentative (Tank.turn this dir) dir).
      * unfold Tank.turn.
        destruct (negb (Bool.eqb (isVertical (Tank.direction this))
                                 (isVertical dir)));
          [destruct (isVertical dir)|]; reflexivity.
Qed.

Lemma C2_move_frame_witness :
  Tank.alive tank_facing_up = true
  /\ Tank.direction (Tank.move tank_facing_up 0 UP wall_right
                               [ tank_facing_up ]) = UP
  /\ Tank.y (Tank.move tank_facing_up 0 UP wall_right [ tank_facing_up ])
     == 98.
Proof.
  pose proof (C2_move_frame tank_facing_up 0 UP wall_right
                [ tank_facing_up ] eq_refl) as H.
  cbv zeta in H. destruct H as (Hd & _ & Hc).
  assert (Hb : Tank.blocked tank_facing_up 0 UP wall_right
                 [ tank_facing_up ] = false) by (vm_compute; reflexivity).
  assert (Hw : ~ overlapsWall
                 (Tank.nextBounds (Tank.turn tank_facing_up UP) UP)
                 wall_right).
  { intro Hw.
    assert (E : Tank.blocked tank_facing_up 0 UP wall_right
                  [ tank_facing_up ] = true)
      by (apply blocked_spec; now left).
    rewrite Hb in E. discriminate E. }
  assert (Ht : ~ overlapsOtherTank
                 (Tank.nextBounds (Tank.turn tank_facing_up UP) UP)
                 0 [ tank_facing_up ]).
  { intro Ht.
    assert (E : Tank.blocked tank_facing_up 0 UP wall_right
                  [ tank_facing_up ] = true)
      by (apply blocked_spec; now right).
    rewrite Hb in E. discriminate E. }
  destruct (Hc Hw Ht) as [Hpos _].
  split; [reflexivity|]. split; [exact Hd|].
  apply (f_equal snd) in Hpos. cbn [snd] in Hpos. rewrite Hpos.
  vm_compute. reflexivity.
Defined.

(** C2, as stated, fails: a tank at (76, 100) facing up is moved to the
    right against a wall at (108, 108).  The tentative box overlaps the
    wall and the advance is abandoned, yet the tank now faces right and its
    vertical coordinate went from 100 to the grid line 108. *)
Lemma C2_counterexample :
  let this' :=
    Tank.move tank_facing_up 0 RIGHT wall_right [ tank_facing_up ] in
  Tank.alive tank_facing_up = true
  /\ Tank.blocked tank_facing_up 0 RIGHT wall_right [ tank_facing_up ] = true
  /\ Tank.direction tank_facing_up = UP
  /\ Tank.direction this' = RIGHT
  /\ Tank.y tank_facing_up == 100
  /\ Tank.y this' == 108
  /\ Tank.x this' == Tank.x tank_facing_up.
Proof.
  cbv zeta. repeat split; vm_compute; reflexivity.
Qed.

(** ** generateMap *)

Lemma range_length (lo hi : Z) : length (range lo hi) = Z.to_nat (hi - lo).
Proof. unfold range. now rewrite length_map, length_seq. Qed.

Lemma range_In (lo hi i : Z) : In i (range lo hi) <-> (lo <= i < hi)%Z.
Proof.
  unfold range. rewrite in_map_iff. split.
  - intros (k & <- & Hk). apply in_seq in Hk. lia.
  - intro H. exists (Z.to_nat (i - lo)). split; [lia|].
    apply in_seq. lia.
Qed.

Section MapProperties.

Variable Math_sin : Q -> Q.

(** The iterations of step 4 whose cell is not reserved. *)
Lemma steelExtraWalls_length (level : Z) :
  length (steelExtraWalls Math_sin level)
  = length (filter (fun i => negb (isReserved
                                     (steelExtraCol Math_sin level i)
                                     (steelExtraRow Math_sin level i)))
                   (range 0 (steelExtra level))).
Proof.
  unfold steelExtraWalls.
  induction (range 0 (steelExtra level)) as [|i l IH]; [reflexivity|].
  cbn [flat_map filter]. rewrite length_app, IH. unfold steelExtraCell.
  destruct (negb (isReserved _ _)); reflexivity.
Qed.

Lemma steelExtraWalls_steel (level : Z) :
  Forall (fun w => Wall.type w = STEEL /\ Wall.alive w = true)
         (steelExtraWalls Math_sin level).
Proof.
  unfold steelExtraWalls. apply Forall_flat_map, Forall_forall.
  intros i _. unfold steelExtraCell.
  destruct (negb (isReserved _ _)); repeat constructor.
Qed.

(** C5, amended.  Step 4 runs [min(level, 5)] iterations and each pushes
    one alive STEEL wall unless its pseudo-random cell is reserved, so the
    number of extra walls is the number of iterations whose cell is not
    reserved: at most [min(level, 5)], and exactly that many when no such
    cell is reserved.  They are the walls of [generateMap] after the
    border and the structural grid. *)
Theorem C5_steel_extra_count (level : Z) :
  (0 < level)%Z ->
  let extra := steelExtraWalls Math_sin level in
  let skipped i :=
    isReserved (steelExtraCol Math_sin level i)
               (steelExtraRow Math_sin level i) in
  generateMap Math_sin level
  = borderWalls ++ gridWalls Math_sin level ++ extra
  /\ Forall (fun w => Wall.type w = STEEL /\ Wall.alive w = true) extra
  /\ length extra
     = length (filter (fun i => negb (skipped i)) (range 0 (Z.min level 5)))
  /\ (Z.of_nat (length extra) <= Z.min level 5)%Z
  /\ ((forall i, (0 <= i < Z.min level 5)%Z -> skipped i = false) ->
      Z.of_nat (length extra) = Z.min level 5).
Proof.
  intro Hpos. cbv zeta.
  split; [reflexivity|]. split; [apply steelExtraWalls_steel|].
  split; [apply steelExtraWalls_length|].
  rewrite steelExtraWalls_length. unfold steelExtra. split.
  - pose proof (filter_length_le
                  (fun i => negb (isReserved
                                    (steelExtraCol Math_sin level i)
                                    (steelExtraRow Math_sin level i)))
                  (range 0 (Z.min level 5))) as Hle.
    rewrite range_length in Hle. lia.
  - intro Hall. rewrite forallb_filter_id.
    + rewrite range_length. lia.
    + apply forallb_forall. intros i Hi. apply range_In in Hi.
      now rewrite Hall.
Qed.

End MapProperties.

Lemma C5_steel_extra_count_witness :
  (0 < 5)%Z
  /\ (Z.of_nat (length (steelExtraWalls Math_sin_level5 5)) <= Z.min 5 5)%Z.
Proof.
  destruct (C5_steel_extra_count Math_sin_level5 5 eq_refl)
    as (_ & _ & _ & H & _).
  split; [reflexivity | exact H].
Defined.

(** C5, as stated, fails at level 5: the first of the five iterations aims
    at cell (32, 3), inside the reserved zone of the third enemy spawn
    point, and pushes nothing; four extra walls are added, not five. *)
Lemma C5_counterexample :
  (0 < 5)%Z
  /\ pseudoRandom Math_sin_level5 (0 * 31 + 5 * 7) = 174374%Z
  /\ pseudoRandom Math_sin_level5 (0 * 37 + 5 * 11) = 171905%Z
  /\ steelExtraCol Math_sin_level5 5 0 = 32%Z
  /\ steelExtraRow Math_sin_level5 5 0 = 3%Z
  /\ isReserved 32 3 = true
  /\ Z.of_nat (length (steelExtraWalls Math_sin_level5 5)) = 4%Z
  /\ Z.min 5 5 = 5%Z.
Proof.
  repeat split; vm_compute; reflexivity.
Qed.

(** ** _checkCollisions: an invincible player *)

Lemma wallHit_None (bb : Rect) (ws : list Wall.t) :
  wallHit bb ws = None <-> ~ overlapsWall bb ws.
Proof.
  rewrite <- hitsWall_spec. unfold Tank.hitsWall.
  induction ws as [|w rest IH]; cbn [wallHit existsb].
  - split; [discriminate | reflexivity].
  - destruct (Wall.alive w && rectsOverlap bb (Wall.getBounds w)); cbn [orb].
    + split; [discriminate | intro H; now contradiction H].
    + destruct (wallHit bb rest) as [[h rest']|].
      * split; [discriminate|]. intro H. apply IH in H. discriminate.
      * split; [intros _; now apply IH | reflexivity].
Qed.

Lemma bulletVsWalls_frame (g : GameEngine) (bullet : Bullet.t) :
  let g1 := fst (bulletVsWalls g bullet) in
  lives g1 = lives g /\ player g1 = player g /\ state g1 = state g
  /\ enemies g1 = enemies g /\ score g1 = score g.
Proof.
  unfold bulletVsWalls.
  destruct (wallHit _ (walls g)) as [[w ws']|]; [|now repeat split].
  destruct (Wall.destructible w); now repeat split.
Qed.

Lemma checkBullet_invincible (g : GameEngine) (now : Q) (bullet : Bullet.t)
  (p : Tank.t) :
  player g = Some p -> Tank.alive p = true ->
  Tank.isInvincible p now = true ->
  let g1 := fst (checkBullet now g bullet) in
  lives g1 = lives g /\ player g1 = Some p /\ state g1 = state g.
Proof.
  intros Hp Ha Hi. unfold checkBullet.
  destruct (Bullet.alive bullet); cbn [negb]; [|now repeat split].
  pose proof (bulletVsWalls_frame g bullet) as Hw. cbv zeta in Hw.
  destruct (bulletVsWalls g bullet) as [g1 b1]. cbn [fst] in Hw.
  destruct Hw as (Hl & Hpl & Hs & _).
  destruct (Bullet.alive b1); cbn [negb];
    [|cbn [fst]; rewrite Hl, Hpl, Hs; now repeat split].
  assert (Hen : let g2 := fst (bulletVsEnemies g1 (Bullet.getBounds bullet) b1)
                in lives g2 = lives g1 /\ player g2 = player g1
                   /\ state g2 = state g1).
  { unfold bulletVsEnemies. destruct (Bullet.isPlayerBullet b1);
      [|now repeat split].
    destruct (enemyHit _ (enemies g1)) as [[e es']|]; now repeat split. }
  cbv zeta in Hen.
  destruct (bulletVsEnemies g1 (Bullet.getBounds bullet) b1) as [g2 b2].
  cbn [fst] in Hen. destruct Hen as (Hl2 & Hp2 & Hs2).
  unfold bulletVsPlayer.
  destruct (Bullet.isPlayerBullet b2); cbn [negb fst];
    [rewrite Hl2, Hp2, Hs2, Hl, Hpl, Hs; now repeat split|].
  rewrite Hp2, Hpl, Hp, Ha, Hi. cbn [negb andb fst].
  rewrite Hl2, Hl, Hp2, Hpl, Hs2, Hs. now repeat split.
Qed.

Lemma checkBullets_invincible (now : Q) (p : Tank.t) (bs : list Bullet.t) :
  Tank.alive p = true -> Tank.isInvincible p now = true ->
  forall g, player g = Some p ->
    let g1 := fst (checkBullets now g bs) in
    lives g1 = lives g /\ player g1 = Some p /\ state g1 = state g.
Proof.
  intros Ha Hi. induction bs as [|b rest IH]; intros g Hp.
  - now repeat split.
  - cbn [checkBullets].
    pose proof (checkBullet_invincible g now b p Hp Ha Hi) as H1.
    cbv zeta in H1. destruct (checkBullet now g b) as [g1 b1].
    cbn [fst] in H1. destruct H1 as (Hl & Hp1 & Hs).
    specialize (IH g1 Hp1). cbv zeta in IH.
    destruct (checkBullets now g1 rest) as [g2 rest']. cbn [fst] in *.
    destruct IH as (Hl2 & Hp2 & Hs2).
    rewrite Hl2, Hl, Hs2, Hs. now repeat split.
Qed.

(** C3, amended.  While the alive player is invincible, an alive enemy
    bullet that overlaps it is not a hit: the player check changes
    nothing.  A bullet that is over no alive wall comes out of the
    iteration as it went in, still alive, and the engine is unchanged: no
    life lost, no explosion.  If it is over an alive wall it dies on the
    wall, before the player is looked at.  Either way, and over the whole
    collision pass, the player (position and alive flag included), the
    lives and the game state stay as they were. *)
Theorem C3_invincible_hit_ignored (g : GameEngine) (now : Q)
  (bullet : Bullet.t) (p : Tank.t) :
  player g = Some p -> Tank.alive p = true ->
  Tank.isInvincible p now = true ->
  Bullet.alive bullet = true -> Bullet.isPlayerBullet bullet = false ->
  rectsOverlap (Bullet.getBounds bullet) (Tank.getBounds p) = true ->
  let g1 := fst (checkBullet now g bullet) in
  let bullet1 := snd (checkBullet now g bullet) in
  lives g1 = lives g /\ player g1 = Some p /\ state g1 = state g
  /\ (~ overlapsWall (Bullet.getBounds bullet) (walls g) ->
      g1 = g /\ bullet1 = bullet /\ Bullet.alive bullet1 = true
      /\ explosions g1 = explosions g)
  /\ (overlapsWall (Bullet.getBounds bullet) (walls g) ->
      Bullet.alive bullet1 = false)
  /\ (let g2 := _checkCollisions g now in
      lives g2 = lives g /\ player g2 = Some p /\ state g2 = state g).
Proof.
  intros Hp Ha Hi Hb Hpb Hov. cbv zeta.
  pose proof (checkBullet_invincible g now bullet p Hp Ha Hi) as H1.
  cbv zeta in H1. destruct H1 as (Hl & Hp1 & Hs).
  split; [exact Hl|]. split; [exact Hp1|]. split; [exact Hs|].
  split; [|split].
  - intro Hnw. apply wallHit_None in Hnw.
    unfold checkBullet, bulletVsWalls. rewrite Hb, Hnw. cbn [negb].
    rewrite Hb. cbn [negb]. unfold bulletVsEnemies. rewrite Hpb.
    unfold bulletVsPlayer. rewrite Hpb, Hp, Ha, Hi. cbn.
    now repeat split.
  - intro Hw. unfold checkBullet, bulletVsWalls. rewrite Hb. cbn [negb].
    destruct (wallHit (Bullet.getBounds bullet) (walls g)) as [[w ws']|] eqn:E.
    + reflexivity.
    + exfalso. apply wallHit_None in E. now apply E.
  - unfold _checkCollisions.
    pose proof (checkBullets_invincible now p (bullets g) Ha Hi g Hp) as H2.
    cbv zeta in H2. destruct (checkBullets now g (bullets g)) as [g2 bs].
    exact H2.
Qed.

Lemma C3_invincible_hit_ignored_witness :
  let p := Tank.set_invincibleUntil (Tank.new 612 612 UP true 0) 2000 in
  let b := Bullet.new 625 616 DOWN false COLOR_BULLET_ENEMY in
  Tank.isInvincible p 1000 = true
  /\ rectsOverlap (Bullet.getBounds b) (Tank.getBounds p) = true
  /\ lives (fst (checkBullet 1000 engine_invincible b)) = 3%Z
  /\ player (fst (checkBullet 1000 engine_invincible b)) = Some p.
Proof.
  cbv zeta.
  pose proof (C3_invincible_hit_ignored engine_invincible 1000
                (Bullet.new 625 616 DOWN false COLOR_BULLET_ENEMY)
                (Tank.set_invincibleUntil (Tank.new 612 612 UP true 0) 2000)
                eq_refl eq_refl eq_refl eq_refl eq_refl eq_refl) as H.
  cbv zeta in H. destruct H as (Hl & Hp & _).
  split; [reflexivity|]. split; [reflexivity|].
  split; [rewrite Hl; reflexivity | exact Hp].
Defined.

(** C3, as stated, fails: in a tick at 1000 an enemy bullet comes to
    overlap the player, who is alive and invincible until 2000.  Lives,
    player and explosions are untouched, but the bullet's alive flag does
    not become false: it is still in the bullet list, alive, after the
    tick. *)
Lemma C3_counterexample :
  let p := Tank.set_invincibleUntil (Tank.new 612 612 UP true 0) 2000 in
  let b := Bullet.new 625 616 DOWN false COLOR_BULLET_ENEMY in
  let g' := fst (update engine_invincible 1000 rand_half) in
  state engine_invincible = PLAYING
  /\ player engine_invincible = Some p
  /\ Tank.alive p = true
  /\ Tank.isInvincible p 1000 = true
  /\ bullets (updateBullets engine_invincible) = [ b ]
  /\ Bullet.isPlayerBullet b = false
  /\ rectsOverlap (Bullet.getBounds b) (Tank.getBounds p) = true
  /\ bullets (_checkCollisions (updateBullets engine_invincible) 1000) = [ b ]
  /\ bullets g' = [ b ]
  /\ Bullet.alive b = true
  /\ lives g' = 3%Z /\ player g' = Some p /\ explosions g' = [].
Proof.
  cbv zeta. repeat split; vm_compute; reflexivity.
Qed.

(** ** _spawnEnemies: an occupied spawn point *)

Lemma spawnBlocked_spec (g : GameEngine) (sp : Q * Q) :
  spawnBlocked g sp = true <-> spawnOccupied g sp.
Proof.
  unfold spawnBlocked, spawnOccupied. rewrite existsb_exists.
  split; intros (t & Hin & H).
  - apply andb_true_iff in H. exists t. tauto.
  - exists t. split; [exact Hin|]. apply andb_true_iff. tauto.
Qed.

Lemma spawnEnemies_gated (g : GameEngine) (now : Q) (r : Rand) :
  ~ spawnEligible g now -> _spawnEnemies g now r = (g, r).
Proof.
  intro Hn. unfold _spawnEnemies.
  destruct (ENEMIES_PER_LEVEL <=? totalEnemiesSpawned g)%Z eqn:E1;
    [reflexivity|].
  destruct (MAX_ENEMIES <=? length (enemies g))%nat eqn:E2; [reflexivity|].
  qcase (now - lastEnemySpawnTime g) ENEMY_SPAWN_INTERVAL E3; [reflexivity|].
  exfalso. apply Hn. apply Z.leb_gt in E1. apply Nat.leb_gt in E2.
  repeat split; assumption.
Qed.

Lemma spawnEnemies_open (g : GameEngine) (now : Q) (r : Rand) :
  spawnEligible g now ->
  _spawnEnemies g now r
  = let g1 := set_lastEnemySpawnTime g now in
    match spawnPoint g with
    | None => (g1, r)
    | Some sp =>
        if spawnBlocked g sp then (g1, r)
        else
          (set_totalEnemiesSpawned
             (set_enemies g1
                (enemies g
                 ++ [ Tank.set_aiDirectionTimer
                        (Tank.new (fst sp) (snd sp) DOWN false
                                  (fst (Math_random r))) now ]))
             (totalEnemiesSpawned g + 1)%Z,
           snd (Math_random r))
    end.
Proof.
  intros (H1 & H2 & H3). unfold _spawnEnemies.
  apply Z.leb_gt in H1. apply Nat.leb_gt in H2. apply Qltb_ge in H3.
  rewrite H1, H2, H3. reflexivity.
Qed.

(** C4, amended.  When the round-robin spawn point is occupied by an
    alive tank, [_spawnEnemies] adds no enemy and leaves
    [totalEnemiesSpawned] as it is, whatever the gates say.  With the
    gates open the attempt still stamps [lastEnemySpawnTime = now], and
    that is its only trace: the skipped spawn is put off by a full
    [ENEMY_SPAWN_INTERVAL] counted from the blocked attempt, the gates of
    the state it leaves passing again exactly when that much has elapsed
    since [now].  There is no other retry or backoff state: at any later
    tick at which the gates pass and the spawn point is free, the enemy is
    spawned there at once. *)
Theorem C4_spawn_blocked (g : GameEngine) (now : Q) (r : Rand) (sp : Q * Q) :
  spawnPoint g = Some sp ->
  spawnOccupied g sp ->
  let g' := fst (_spawnEnemies g now r) in
  enemies g' = enemies g
  /\ totalEnemiesSpawned g' = totalEnemiesSpawned g
  /\ snd (_spawnEnemies g now r) = r
  /\ (spawnEligible g now -> g' = set_lastEnemySpawnTime g now)
  /\ (~ spawnEligible g now -> g' = g)
  /\ (spawnEligible g now ->
      forall now2,
        spawnEligible g' now2 <-> ENEMY_SPAWN_INTERVAL <= now2 - now)
  /\ forall g2 now2 r2,
       totalEnemiesSpawned g2 = totalEnemiesSpawned g' ->
       spawnEligible g2 now2 ->
       ~ spawnOccupied g2 sp ->
       exists enemy,
         let g3 := fst (_spawnEnemies g2 now2 r2) in
         enemies g3 = enemies g2 ++ [ enemy ]
         /\ Tank.x enemy = fst sp /\ Tank.y enemy = snd sp
         /\ Tank.alive enemy = true /\ Tank.isPlayer enemy = false
         /\ totalEnemiesSpawned g3 = (totalEnemiesSpawned g + 1)%Z.
Proof.
  intros Hsp Hocc. cbv zeta.
  apply spawnBlocked_spec in Hocc.
  assert (Hcases :
            (spawnEligible g now
             /\ _spawnEnemies g now r = (set_lastEnemySpawnTime g now, r))
            \/ (~ spawnEligible g now
                /\ _spawnEnemies g now r = (g, r))).
  { destruct (ENEMIES_PER_LEVEL <=? totalEnemiesSpawned g)%Z eqn:E1.
    { right. assert (Hn : ~ spawnEligible g now).
      { intros (H1 & _). apply Z.leb_le in E1. lia. }
      split; [exact Hn | now apply spawnEnemies_gated]. }
    destruct (MAX_ENEMIES <=? length (enemies g))%nat eqn:E2.
    { right. assert (Hn : ~ spawnEligible g now).
      { intros (_ & H2 & _). apply Nat.leb_le in E2. lia. }
      split; [exact Hn | now apply spawnEnemies_gated]. }
    qcase (now - lastEnemySpawnTime g) ENEMY_SPAWN_INTERVAL E3.
    { right. assert (Hn : ~ spawnEligible g now).
      { intros (_ & _ & H3). apply (Qlt_not_le _ _ E3 H3). }
      split; [exact Hn | now apply spawnEnemies_gated]. }
    left. apply Z.leb_gt in E1. apply Nat.leb_gt in E2.
    assert (He : spawnEligible g now) by (repeat split; assumption).
    split; [exact He|]. rewrite (spawnEnemies_open g now r He).
    cbv zeta. now rewrite Hsp, Hocc. }
  assert (Htot : totalEnemiesSpawned (fst (_spawnEnemies g now r))
                 = totalEnemiesSpawned g).
  { destruct Hcases as [[_ ->]|[_ ->]]; reflexivity. }
  split; [destruct Hcases as [[_ ->]|[_ ->]]; reflexivity|].
  split; [exact Htot|].
  split; [destruct Hcases as [[_ ->]|[_ ->]]; reflexivity|].
  split; [intro He; destruct Hcases as [[_ ->]|[Hn _]];
          [reflexivity | contradiction]|].
  split; [intro Hn; destruct Hcases as [[He _]|[_ ->]];
          [contradiction | reflexivity]|].
  split.
  { intros He now2. destruct Hcases as [[_ ->]|[Hn _]]; [|contradiction].
    destruct He as (H1 & H2 & _). unfold spawnEligible.
    cbn [fst totalEnemiesSpawned enemies lastEnemySpawnTime
         set_lastEnemySpawnTime]. tauto. }
  intros g2 now2 r2 Ht He2 Hfree. rewrite Htot in Ht.
  assert (Hsp2 : spawnPoint g2 = Some sp).
  { unfold spawnPoint in *. now rewrite Ht. }
  assert (Hb2 : spawnBlocked g2 sp = false).
  { destruct (spawnBlocked g2 sp) eqn:E; [|reflexivity].
    exfalso. apply Hfree. now apply spawnBlocked_spec. }
  rewrite (spawnEnemies_open g2 now2 r2 He2). cbv zeta.
  rewrite Hsp2, Hb2. eexists. cbn [fst enemies totalEnemiesSpawned
                                       set_totalEnemiesSpawned set_enemies].
  split; [reflexivity|]. rewrite Ht. now repeat split.
Qed.

Lemma C4_spawn_blocked_witness :
  spawnPoint engine_blocked = Some (72, 72)
  /\ spawnEligible engine_blocked 3000
  /\ spawnOccupied engine_blocked (72, 72)
  /\ enemies (fst (_spawnEnemies engine_blocked 3000 rand_half))
     = enemies engine_blocked
  /\ totalEnemiesSpawned (fst (_spawnEnemies engine_blocked 3000 rand_half))
     = 3%Z
  /\ fst (_spawnEnemies engine_blocked 3000 rand_half)
     = set_lastEnemySpawnTime engine_blocked 3000.
Proof.
  assert (Hsp : spawnPoint engine_blocked = Some (72, 72))
    by (vm_compute; reflexivity).
  assert (Hocc : spawnOccupied engine_blocked (72, 72))
    by (apply spawnBlocked_spec; vm_compute; reflexivity).
  assert (He : spawnEligible engine_blocked 3000).
  { split; [|split].
    - vm_compute. reflexivity.
    - vm_compute. lia.
    - vm_compute. discriminate. }
  destruct (C4_spawn_blocked engine_blocked 3000 rand_half (72, 72) Hsp Hocc)
    as (H1 & H2 & _ & H4 & _ & _ & _).
  split; [exact Hsp|]. split; [exact He|]. split; [exact Hocc|].
  split; [exact H1|]. split; [exact H2|]. exact (H4 He).
Defined.

(** C4, as stated, fails: the skipped spawn is put off.  Three enemies
    have been spawned, the last at 0, and the one left alive is moving
    down off the first spawn point.  In the tick at 3000 the gates pass,
    the point is still occupied and nothing is spawned.  In the next
    tick, at 3016, the quota and the cap leave room, the last spawn is
    more than [ENEMY_SPAWN_INTERVAL] back and the point is free: yet
    nothing is spawned, because the blocked attempt stamped
    [lastEnemySpawnTime = 3000].  The enemy comes at 6000 only. *)
Lemma C4_counterexample :
  let first := update engine_leaving 3000 rand_half in
  let at_spawn1 :=
    fst (_updateEnemyAI (_handlePlayerInput engine_leaving 3000) 3000
                        rand_half) in
  let second := update (fst first) 3016 (snd first) in
  let at_spawn2 :=
    fst (_updateEnemyAI (_handlePlayerInput (fst first) 3016) 3016
                        (snd first)) in
  let third := update (fst second) 6000 (snd second) in
  (spawnGates at_spawn1 3000 = true
   /\ spawnPoint at_spawn1 = Some (72, 72)
   /\ spawnBlocked at_spawn1 (72, 72) = true
   /\ length (enemies (fst first)) = 1%nat
   /\ totalEnemiesSpawned (fst first) = 3%Z)
  /\ ((totalEnemiesSpawned at_spawn2 < ENEMIES_PER_LEVEL)%Z
      /\ (length (enemies at_spawn2) < MAX_ENEMIES)%nat
      /\ ENEMY_SPAWN_INTERVAL <= 3016 - lastEnemySpawnTime engine_leaving
      /\ spawnPoint at_spawn2 = Some (72, 72)
      /\ spawnBlocked at_spawn2 (72, 72) = false
      /\ length (enemies (fst second)) = 1%nat
      /\ totalEnemiesSpawned (fst second) = 3%Z)
  /\ (lastEnemySpawnTime (fst first) = 3000
      /\ length (enemies (fst third)) = 2%nat
      /\ totalEnemiesSpawned (fst third) = 4%Z).
Proof.
  cbv zeta. split; [|split].
  - split; [vm_compute; reflexivity|]. split; [vm_compute; reflexivity|].
    split; [vm_compute; reflexivity|]. split; vm_compute; reflexivity.
  - split; [vm_compute; reflexivity|]. split; [vm_compute; lia|].
    split; [vm_compute; discriminate|]. split; [vm_compute; reflexivity|].
    split; [vm_compute; reflexivity|]. split; vm_compute; reflexivity.
  - split; [vm_compute; reflexivity|]. split; vm_compute; reflexivity.
Qed.

(** ** Integer coordinates *)

Lemma integral_const (z : Z) : integral (z # 1).
Proof. apply (integral_inject z). Qed.

Lemma Qltb_ext (a b c d : Q) : (a < b <-> c < d) -> (a <? b) = (c <? d).
Proof.
  intro H. qcase a b E1; qcase c d E2; try reflexivity.
  - apply H in E1. exfalso. apply (Qlt_not_le _ _ E1 E2).
  - apply H in E2. exfalso. apply (Qlt_not_le _ _ E2 E1).
Qed.

(** On integer boxes the half-unit tolerance of [nextBounds] loses
    nothing: the shrunk box overlaps what the full box overlaps. *)
Lemma shrunk_overlap (nx ny s : Q) (b : Rect) :
  integral nx -> integral ny -> integral s ->
  integral (rx b) -> integral (ry b) -> integral (rw b) -> integral (rh b) ->
  rectsOverlap {| rx := nx + Tank.TOLERANCE; ry := ny + Tank.TOLERANCE;
                  rw := s - Tank.TOLERANCE * 2; rh := s - Tank.TOLERANCE * 2 |}
               b
  = rectsOverlap {| rx := nx; ry := ny; rw := s; rh := s |} b.
Proof.
  intros Hx Hy Hs Hbx Hby Hbw Hbh. unfold rectsOverlap, Tank.TOLERANCE.
  cbn [rx ry rw rh].
  pose proof (integral_lt_half nx (rx b + rw b) Hx
                (integral_plus _ _ Hbx Hbw)) as H1.
  pose proof (integral_lt_half (rx b) (nx + s) Hbx
                (integral_plus _ _ Hx Hs)) as H2.
  pose proof (integral_lt_half ny (ry b + rh b) Hy
                (integral_plus _ _ Hby Hbh)) as H3.
  pose proof (integral_lt_half (ry b) (ny + s) Hby
                (integral_plus _ _ Hy Hs)) as H4.
  rewrite (Qltb_ext (nx + 0.5) (rx b + rw b) nx (rx b + rw b) H1).
  rewrite (Qltb_ext (ny + 0.5) (ry b + rh b) ny (ry b + rh b) H3).
  rewrite (Qltb_ext (rx b) (nx + 0.5 + (s - 0.5 * 2)) (rx b) (nx + s)).
  2:{ rewrite <- H2. split; intro H; lra. }
  rewrite (Qltb_ext (ry b) (ny + 0.5 + (s - 0.5 * 2)) (ry b) (ny + s)).
  2:{ rewrite <- H4. split; intro H; lra. }
  reflexivity.
Qed.

Lemma turn_ok (this : Tank.t) (dir : DIR) :
  tank_ok this -> tank_ok (Tank.turn this dir).
Proof.
  intros (Hx & Hy & Hs & Hv). unfold tank_ok.
  destruct (turn_fields this dir) as (_ & -> & -> & _ & -> & ->).
  repeat split; try assumption.
  - destruct (_ && _); [apply snapToGrid_integral | assumption].
  - destruct (_ && _); [apply snapToGrid_integral | assumption].
Qed.

Lemma tentative_ok (this : Tank.t) (dir : DIR) :
  tank_ok this ->
  integral (fst (Tank.tentative this dir))
  /\ integral (snd (Tank.tentative this dir)).
Proof.
  intros (Hx & Hy & Hs & Hv). unfold Tank.tentative.
  assert (H0 : integral 0) by apply (integral_const 0).
  assert (HW : integral (DESIGN_WIDTH - Tank.size this))
    by (apply integral_minus; [apply (integral_const 1280) | assumption]).
  assert (HH : integral (DESIGN_HEIGHT - Tank.size this))
    by (apply integral_minus; [apply (integral_const 720) | assumption]).
  destruct dir; cbn [fst snd]; split;
    apply integral_max; try assumption; apply integral_min; try assumption;
    try (now apply integral_minus); now apply integral_plus.
Qed.

Lemma move_ok (this : Tank.t) (self : nat) (dir : DIR)
  (walls : list Wall.t) (tanks : list Tank.t) :
  tank_ok this -> tank_ok (Tank.move this self dir walls tanks).
Proof.
  intro Hok. destruct (Tank.alive this) eqn:Ha.
  - rewrite (move_alive this self dir walls tanks Ha).
    pose proof (turn_ok this dir Hok) as H1.
    destruct (Tank.blocked this self dir walls tanks); [exact H1|].
    destruct (tentative_ok _ dir H1) as [Hx Hy].
    destruct H1 as (_ & _ & Hs & Hv). now repeat split.
  - now rewrite (move_dead this self dir walls tanks Ha).
Qed.

Lemma fire_fst (this : Tank.t) (now : Q) :
  fst (Tank.fire this now) = this
  \/ fst (Tank.fire this now) = Tank.set_lastFireTime this now.
Proof.
  unfold Tank.fire.
  destruct (negb (Tank.alive this)); [now left|].
  destruct (_ <? _); [now left|]. right.
  now destruct (Tank.direction (Tank.set_lastFireTime this now)).
Qed.

Lemma fire_ok (this : Tank.t) (now : Q) :
  tank_ok this -> tank_ok (fst (Tank.fire this now)).
Proof.
  intro Hok. destruct (fire_fst this now) as [->| ->]; exact Hok.
Qed.

(** The heart of C1: on integer coordinates, a move that passes the two
    collision loops ends clear of every alive wall and every other alive
    tank. *)
Lemma move_sound (this : Tank.t) (self : nat) (dir : DIR)
  (walls : list Wall.t) (tanks : list Tank.t) :
  tank_ok this -> Forall wall_ok walls -> Forall tank_ok tanks ->
  Tank.alive this = true ->
  Tank.blocked this self dir walls tanks = false ->
  let this' := Tank.move this self dir walls tanks in
  (forall wall, In wall walls -> Wall.alive wall = true ->
     rectsOverlap (Tank.getBounds this') (Wall.getBounds wall) = false)
  /\ (forall j other, nth_error tanks j = Some other -> j <> self ->
        Tank.alive other = true ->
        rectsOverlap (Tank.getBounds this') (Tank.getBounds other) = false).
Proof.
  intros Hok Hws Hts Ha Hb. cbv zeta.
  rewrite (move_alive this self dir walls tanks Ha), Hb.
  pose proof (turn_ok this dir Hok) as H1.
  destruct (tentative_ok _ dir H1) as [Hx Hy].
  destruct H1 as (_ & _ & Hs & _).
  assert (Hnb : Tank.nextBounds (Tank.turn this dir) dir
                = {| rx := fst (Tank.tentative (Tank.turn this dir) dir)
                           + Tank.TOLERANCE;
                     ry := snd (Tank.tentative (Tank.turn this dir) dir)
                           + Tank.TOLERANCE;
                     rw := Tank.size (Tank.turn this dir)
                           - Tank.TOLERANCE * 2;
                     rh := Tank.size (Tank.turn this dir)
                           - Tank.TOLERANCE * 2 |}).
  { unfold Tank.nextBounds.
    now destruct (Tank.tentative (Tank.turn this dir) dir). }
  split.
  - intros w Hin Hal.
    destruct (rectsOverlap _ (Wall.getBounds w)) eqn:E; [|reflexivity].
    exfalso.
    assert (Hbl : Tank.blocked this self dir walls tanks = true).
    { apply blocked_spec. left. exists w. split; [exact Hin|].
      split; [exact Hal|]. rewrite Hnb.
      rewrite Forall_forall in Hws. destruct (Hws w Hin) as (Hwx & Hwy & Hwz).
      rewrite shrunk_overlap; assumption. }
    congruence.
  - intros j o Hj Hne Hal.
    destruct (rectsOverlap _ (Tank.getBounds o)) eqn:E; [|reflexivity].
    exfalso.
    assert (Hbl : Tank.blocked this self dir walls tanks = true).
    { apply blocked_spec. right. exists j, o. split; [exact Hj|].
      split; [exact Hne|]. split; [exact Hal|]. rewrite Hnb.
      rewrite Forall_forall in Hts.
      destruct (Hts o (nth_error_In _ _ Hj)) as (Hox & Hoy & Hoz & _).
      rewrite shrunk_overlap; assumption. }
    congruence.
Qed.

(** The integer coordinates are what makes the tolerance harmless: a tank
    a quarter of a unit off passes the collision loops and ends a quarter
    of a unit inside a wall. *)
Lemma tolerance_needs_integers :
  Tank.blocked tank_off_grid 0 UP [ wall_above ] [ tank_off_grid ] = false
  /\ rectsOverlap
       (Tank.getBounds
          (Tank.move tank_off_grid 0 UP [ wall_above ] [ tank_off_grid ]))
       (Wall.getBounds wall_above) = true.
Proof. split; vm_compute; reflexivity. Qed.

(** ** The integer invariant of the engine *)

Lemma cell_coord_ok (z : Z) : integral (inject_Z z * WALL_SIZE).
Proof.
  apply integral_mult; [apply integral_inject | apply (integral_const 36)].
Qed.

Lemma wall_new_ok (x y : Q) (ty : WALL_TYPE) :
  integral x -> integral y -> wall_ok (Wall.new x y ty).
Proof.
  intros Hx Hy. unfold wall_ok. cbn.
  split; [exact Hx|]. split; [exact Hy | apply (integral_const 36)].
Qed.

Lemma tank_new_ok (x y : Q) (d : DIR) (p : bool) (rnd : Q) :
  integral x -> integral y -> tank_ok (Tank.new x y d p rnd).
Proof.
  intros Hx Hy. unfold tank_ok. cbn.
  split; [exact Hx|]. split; [exact Hy|].
  split; [apply (integral_const 32)|].
  destruct p; apply (integral_const 2).
Qed.

Lemma playerSpawn_ok :
  integral (fst getPlayerSpawn) /\ integral (snd getPlayerSpawn).
Proof. split; apply cell_coord_ok. Qed.

Lemma enemySpawn_ok (sp : Q * Q) :
  In sp getEnemySpawnPoints -> integral (fst sp) /\ integral (snd sp).
Proof.
  intros [<-|[<-|[<-|[]]]]; split; cbn [fst snd];
    first [ apply cell_coord_ok | apply (cell_coord_ok 2) ].
Qed.

Lemma generateMap_ok (Math_sin : Q -> Q) (lvl : Z) :
  Forall wall_ok (generateMap Math_sin lvl).
Proof.
  unfold generateMap, borderWalls, gridWalls, steelExtraWalls.
  apply Forall_app; split; [apply Forall_app; split | apply Forall_app; split].
  - apply Forall_flat_map, Forall_forall. intros c _.
    repeat constructor; apply wall_new_ok;
      first [ apply cell_coord_ok | apply (integral_const 0) ].
  - apply Forall_flat_map, Forall_forall. intros r _.
    repeat constructor; apply wall_new_ok;
      first [ apply cell_coord_ok | apply (integral_const 0) ].
  - apply Forall_flat_map, Forall_forall. intros r _.
    apply Forall_flat_map, Forall_forall. intros c _.
    unfold gridCell, wallAt.
    repeat match goal with
           | |- Forall _ (if ?b then _ else _) => destruct b
           | |- Forall _ (let _ := _ in _) => cbv zeta
           end;
      repeat constructor; apply wall_new_ok; apply cell_coord_ok.
  - apply Forall_flat_map, Forall_forall. intros i _.
    unfold steelExtraCell, wallAt. cbv zeta.
    destruct (negb _); repeat constructor; apply wall_new_ok;
      apply cell_coord_ok.
Qed.

Lemma replaceAt_Forall {A : Type} (P : A -> Prop) (k : nat) (v : A)
  (l : list A) :
  P v -> Forall P l -> Forall P (replaceAt k v l).
Proof.
  intros Hv Hl. revert k. induction Hl as [|a l Ha Hl IH]; intro k.
  - destruct k; constructor.
  - destruct k; cbn [replaceAt]; constructor; auto.
Qed.

Lemma filter_Forall {A : Type} (P : A -> Prop) (f : A -> bool) (l : list A) :
  Forall P l -> Forall P (filter f l).
Proof.
  intro H. apply Forall_forall. intros a Ha. apply filter_In in Ha.
  rewrite Forall_forall in H. now apply H.
Qed.

Lemma pushBullet_fields (g : GameEngine) (ob : option Bullet.t) :
  player (pushBullet g ob) = player g
  /\ enemies (pushBullet g ob) = enemies g
  /\ walls (pushBullet g ob) = walls g.
Proof. destruct ob; now repeat split. Qed.

Lemma engine_ok_fields (g g' : GameEngine) :
  player g' = player g -> enemies g' = enemies g -> walls g' = walls g ->
  engine_ok g -> engine_ok g'.
Proof. unfold engine_ok. intros -> -> ->. tauto. Qed.

Lemma allTanks_ok (g : GameEngine) : engine_ok g -> Forall tank_ok (allTanks g).
Proof.
  intros (Hp & He & _). unfold allTanks.
  destruct (player g) as [p|]; [constructor; auto | exact He].
Qed.

Lemma handlePlayerInput_ok (g : GameEngine) (now : Q) :
  engine_ok g -> engine_ok (_handlePlayerInput g now).
Proof.
  intro Hok. pose proof Hok as (Hp & He & Hw). unfold _handlePlayerInput.
  destruct (player g) as [p|] eqn:Ep; [|exact Hok].
  destruct (negb (Tank.alive p)); [exact Hok|].
  set (p1 := if up (keys g) then _ else _).
  assert (H1 : tank_ok p1).
  { unfold p1.
    repeat match goal with
           | |- tank_ok (if ?b then _ else _) => destruct b
           end; try apply move_ok; now apply Hp. }
  destruct (fire (keys g)).
  - destruct (Tank.fire p1 now) as [p2 ob] eqn:Ef.
    assert (H2 : tank_ok p2).
    { replace p2 with (fst (Tank.fire p1 now)) by now rewrite Ef.
      now apply fire_ok. }
    destruct (pushBullet_fields (set_player (set_player g (Some p1)) (Some p2))
                                ob) as (E1 & E2 & E3).
    unfold engine_ok. rewrite E1, E2, E3. cbn [player enemies walls set_player].
    split; [intros q [= <-]; exact H2 | split; assumption].
  - unfold engine_ok. cbn [player enemies walls set_player].
    split; [intros q [= <-]; exact H1 | split; assumption].
Qed.

Lemma aiRedirect_ok (enemy : Tank.t) (now : Q) (r : Rand) :
  tank_ok enemy -> tank_ok (fst (aiRedirect enemy now r)).
Proof.
  intro H. unfold aiRedirect. destruct (_ <? _); exact H.
Qed.

Lemma enemyRedirect_ok (k : nat) (now : Q) (g : GameEngine) (r : Rand) :
  engine_ok g -> engine_ok (fst (enemyRedirect k now g r)).
Proof.
  intro Hok. pose proof Hok as (Hp & He & Hw). unfold enemyRedirect.
  destruct (nth_error (enemies g) k) as [enemy|] eqn:Ek; [|exact Hok].
  destruct (negb (Tank.alive enemy)); [exact Hok|].
  assert (H0 : tank_ok enemy).
  { rewrite Forall_forall in He. apply He. now apply nth_error_In with k. }
  pose proof (aiRedirect_ok enemy now r H0) as H1.
  destruct (aiRedirect enemy now r) as [e1 r1]. cbn [fst] in *.
  unfold engine_ok. cbn [player enemies walls set_enemies].
  split; [exact Hp|]. split; [now apply replaceAt_Forall | exact Hw].
Qed.

Lemma enemyAdvance_ok (k : nat) (now : Q) (g : GameEngine) (r : Rand) :
  engine_ok g -> engine_ok (fst (enemyAdvance k now g r)).
Proof.
  intro Hok. pose proof Hok as (Hp & He & Hw). unfold enemyAdvance.
  destruct (nth_error (enemies g) k) as [enemy|] eqn:Ek; [|exact Hok].
  destruct (negb (Tank.alive enemy)); [exact Hok|].
  assert (H1 : tank_ok enemy).
  { rewrite Forall_forall in He. apply He. now apply nth_error_In with k. }
  pose proof (move_ok enemy (enemyIndex g k) (Tank.direction enemy) (walls g)
                (allTanks g) H1) as H2.
  set (e2 := Tank.move enemy _ _ _ _) in *.
  destruct (Math_random r) as [w r2].
  assert (H3 : tank_ok (fst (if w <? 0.02 then Tank.fire e2 now
                             else (e2, None)))).
  { destruct (w <? 0.02); [now apply fire_ok | exact H2]. }
  destruct (if w <? 0.02 then Tank.fire e2 now else (e2, None)) as [e3 ob].
  cbn [fst] in *.
  destruct (pushBullet_fields (set_enemies g (replaceAt k e3 (enemies g))) ob)
    as (E1 & E2 & E3).
  unfold engine_ok. rewrite E1, E2, E3. cbn [player enemies walls set_enemies].
  split; [exact Hp|]. split; [now apply replaceAt_Forall | exact Hw].
Qed.

Lemma spawnEnemies_ok (g : GameEngine) (now : Q) (r : Rand) :
  engine_ok g -> engine_ok (fst (_spawnEnemies g now r)).
Proof.
  intro Hok. pose proof Hok as (Hp & He & Hw). unfold _spawnEnemies.
  destruct (_ <=? _)%Z; [exact Hok|].
  destruct (_ <=? _)%nat; [exact Hok|].
  destruct (_ <? _); [exact Hok|].
  destruct (spawnPoint (set_lastEnemySpawnTime g now)) as [sp|] eqn:Esp;
    [|exact Hok].
  destruct (spawnBlocked _ sp); [exact Hok|].
  destruct (Math_random r) as [u r1]. unfold engine_ok.
  cbn [fst player enemies walls set_enemies set_totalEnemiesSpawned
       set_lastEnemySpawnTime].
  split; [exact Hp|]. split; [|exact Hw].
  apply Forall_app. split; [exact He|]. constructor; [|constructor].
  unfold spawnPoint in Esp. apply nth_error_In in Esp.
  destruct (enemySpawn_ok sp Esp) as [Hx Hy].
  destruct (tank_new_ok (fst sp) (snd sp) DOWN false u Hx Hy)
    as (T1 & T2 & T3 & T4).
  unfold tank_ok. cbn. tauto.
Qed.

Lemma wallHit_ok (bb : Rect) (ws : list Wall.t) :
  Forall wall_ok ws ->
  forall hit ws', wallHit bb ws = Some (hit, ws') -> Forall wall_ok ws'.
Proof.
  induction 1 as [|w rest Hw Hrest IH]; intros hit ws'; cbn [wallHit].
  - discriminate.
  - destruct (_ && _).
    + intros [= <- <-]. constructor; [|exact Hrest].
      destruct (Wall.destructible w); exact Hw.
    + destruct (wallHit bb rest) as [[h r']|]; [|discriminate].
      intros [= <- <-]. constructor; [exact Hw|]. now apply (IH h).
Qed.

Lemma enemyHit_ok (bb : Rect) (es : list Tank.t) :
  Forall tank_ok es ->
  forall hit es', enemyHit bb es = Some (hit, es') -> Forall tank_ok es'.
Proof.
  induction 1 as [|e rest He Hrest IH]; intros hit es'; cbn [enemyHit].
  - discriminate.
  - destruct (_ && _).
    + intros [= <- <-]. constructor; [exact He | exact Hrest].
    + destruct (enemyHit bb rest) as [[h r']|]; [|discriminate].
      intros [= <- <-]. constructor; [exact He|]. now apply (IH h).
Qed.

Lemma checkBullet_ok (now : Q) (g : GameEngine) (bullet : Bullet.t) :
  engine_ok g -> engine_ok (fst (checkBullet now g bullet)).
Proof.
  intro Hok. unfold checkBullet.
  destruct (negb (Bullet.alive bullet)); [exact Hok|].
  assert (H1 : engine_ok (fst (bulletVsWalls g bullet))).
  { unfold bulletVsWalls.
    destruct (wallHit _ (walls g)) as [[w ws']|] eqn:E; [|exact Hok].
    destruct Hok as (Hp & He & Hw).
    pose proof (wallHit_ok _ _ Hw _ _ E) as Hw'.
    destruct (Wall.destructible w);
      (split; [exact Hp|]; split; [exact He | exact Hw']). }
  destruct (bulletVsWalls g bullet) as [g1 b1]. cbn [fst] in H1.
  destruct (negb (Bullet.alive b1)); [exact H1|].
  assert (H2 : engine_ok (fst (bulletVsEnemies g1 (Bullet.getBounds bullet)
                                               b1))).
  { unfold bulletVsEnemies. destruct (Bullet.isPlayerBullet b1); [|exact H1].
    destruct (enemyHit _ (enemies g1)) as [[e es']|] eqn:E; [|exact H1].
    destruct H1 as (Hp & He & Hw).
    pose proof (enemyHit_ok _ _ He _ _ E) as He'.
    split; [exact Hp|]. split; [exact He' | exact Hw]. }
  destruct (bulletVsEnemies g1 (Bullet.getBounds bullet) b1) as [g2 b2].
  cbn [fst] in H2. unfold bulletVsPlayer.
  destruct (negb (Bullet.isPlayerBullet b2)); [|exact H2].
  destruct (player g2) as [p|] eqn:Ep; [|exact H2].
  destruct (Tank.alive p); [|exact H2].
  destruct (_ && _); [|exact H2]. cbn [fst].
  destruct H2 as (Hp & He & Hw). specialize (Hp p Ep).
  destruct Hp as (Px & Py & Ps & Pv). destruct playerSpawn_ok as [Sx Sy].
  unfold playerHit. cbv zeta.
  destruct (_ <=? _)%Z; unfold engine_ok;
    cbn [player enemies walls set_player set_state set_lives _addExplosion
         set_explosions];
    (split; [intros q [= <-] | split; assumption]);
    unfold tank_ok; cbn; tauto.
Qed.

Lemma checkBullets_ok (now : Q) (bs : list Bullet.t) :
  forall g, engine_ok g -> engine_ok (fst (checkBullets now g bs)).
Proof.
  induction bs as [|b rest IH]; intros g Hok; [exact Hok|].
  cbn [checkBullets].
  pose proof (checkBullet_ok now g b Hok) as H1.
  destruct (checkBullet now g b) as [g1 b1]. cbn [fst] in H1.
  specialize (IH g1 H1). destruct (checkBullets now g1 rest) as [g2 rest'].
  exact IH.
Qed.

Lemma checkCollisions_ok (g : GameEngine) (now : Q) :
  engine_ok g -> engine_ok (_checkCollisions g now).
Proof.
  intro Hok. unfold _checkCollisions.
  pose proof (checkBullets_ok now (bullets g) g Hok) as H.
  destruct (checkBullets now g (bullets g)) as [g1 bs]. exact H.
Qed.

Lemma cleanup_ok (g : GameEngine) : engine_ok g -> engine_ok (cleanup g).
Proof.
  intros (Hp & He & Hw). unfold cleanup, engine_ok.
  cbn [player enemies walls set_bullets set_enemies set_walls set_explosions].
  split; [exact Hp|]. split; now apply filter_Forall.
Qed.

Section Reachability.

Variable Math_sin : Q -> Q.

Lemma startGame_ok (g : GameEngine) (lvl : Z) (t1 t2 : Q) (r : Rand) :
  engine_ok (fst (startGame Math_sin g lvl t1 t2 r)).
Proof.
  unfold startGame. destruct (Math_random r) as [u r1]. cbn [fst].
  destruct playerSpawn_ok as [Sx Sy].
  unfold engine_ok. cbn [player enemies walls]. split; [|split].
  - intros q [= <-].
    destruct (tank_new_ok (fst getPlayerSpawn) (snd getPlayerSpawn)
                          UP true u Sx Sy) as (T1 & T2 & T3 & T4).
    unfold tank_ok. cbn. tauto.
  - constructor.
  - apply generateMap_ok.
Qed.

(** In every state the engine passes through, tanks and walls sit on
    integer coordinates. *)
Lemma reachable_ok (g : GameEngine) : reachable Math_sin g -> engine_ok g.
Proof.
  induction 1 as [ | g lvl t1 t2 r _ _ | g _ IH | g k _ IH | g now _ IH
                 | g k now r _ IH | g k now r _ IH | g now r _ IH | g _ IH
                 | g now _ IH | g _ IH | g _ IH | g _ IH ].
  - split; [discriminate|]. split; constructor.
  - apply startGame_ok.
  - unfold togglePause. destruct (state g); exact IH.
  - exact IH.
  - now apply handlePlayerInput_ok.
  - now apply enemyRedirect_ok.
  - now apply enemyAdvance_ok.
  - now apply spawnEnemies_ok.
  - exact IH.
  - now apply checkCollisions_ok.
  - now apply cleanup_ok.
  - exact IH.
  - unfold checkLevelClear. destruct (_ <=? _)%Z; exact IH.
Qed.

(** Every stage of a tick, and the tick itself, stays among the reachable
    states. *)
Lemma updateEnemyAI_reachable (g : GameEngine) (now : Q) (r : Rand) :
  reachable Math_sin g -> reachable Math_sin (fst (_updateEnemyAI g now r)).
Proof.
  unfold _updateEnemyAI. generalize (seq 0 (length (enemies g))).
  intros ks. revert g r. induction ks as [|k ks IH]; intros g r Hg.
  - exact Hg.
  - cbn [fold_left fst snd]. unfold enemyStep.
    pose proof (reach_enemyRedirect _ g k now r Hg) as H1.
    destruct (enemyRedirect k now g r) as [g1 r1]. cbn [fst] in H1.
    pose proof (reach_enemyAdvance _ g1 k now r1 H1) as H2.
    destruct (enemyAdvance k now g1 r1) as [g2 r2]. cbn [fst] in H2.
    now apply IH.
Qed.

(** The tanks the engine moves are tanks of [allTanks], at the index the
    call passes: the player at 0, the [k]-th enemy at [enemyIndex]. *)
Lemma player_in_allTanks (g : GameEngine) (p : Tank.t) :
  player g = Some p -> nth_error (allTanks g) 0 = Some p.
Proof. intro H. unfold allTanks. now rewrite H. Qed.

Lemma enemy_in_allTanks (g : GameEngine) (k : nat) (enemy : Tank.t) :
  nth_error (enemies g) k = Some enemy ->
  nth_error (allTanks g) (enemyIndex g k) = Some enemy.
Proof.
  intro H. unfold allTanks, enemyIndex. now destruct (player g).
Qed.

Lemma update_reachable (g : GameEngine) (now : Q) (r : Rand) :
  reachable Math_sin g -> reachable Math_sin (fst (update g now r)).
Proof.
  intro Hg. unfold update.
  destruct (negb (GAME_STATE_eqb (state g) PLAYING)); [exact Hg|].
  pose proof (updateEnemyAI_reachable (_handlePlayerInput g now) now r
                (reach_handlePlayerInput _ g now Hg)) as H2.
  destruct (_updateEnemyAI (_handlePlayerInput g now) now r) as [g2 r2].
  cbn [fst] in H2.
  pose proof (reach_spawnEnemies _ g2 now r2 H2) as H3.
  destruct (_spawnEnemies g2 now r2) as [g3 r3]. cbn [fst] in *.
  apply reach_checkLevelClear, reach_updateExplosions, reach_cleanup,
    reach_checkCollisions, reach_updateBullets. exact H3.
Qed.

(** C1.  In every state the engine passes through, for every tank of the
    engine (the player at index 0 of [allTanks], the enemies after it) that
    is alive and every direction: if the tentative box of [move] passes the
    wall loop and the tank loop, then after the move the tank's bounding
    box overlaps no alive wall and no other alive tank.  The moves of a
    tick are of this form: [_handlePlayerInput] moves the player of a
    reachable state, [enemyAdvance] the [k]-th enemy of one. *)
Theorem C1_collision_soundness (g : GameEngine) (i : nat) (this : Tank.t)
  (dir : DIR) :
  reachable Math_sin g ->
  nth_error (allTanks g) i = Some this ->
  Tank.alive this = true ->
  Tank.blocked this i dir (walls g) (allTanks g) = false ->
  let this' := Tank.move this i dir (walls g) (allTanks g) in
  (forall wall, In wall (walls g) -> Wall.alive wall = true ->
     rectsOverlap (Tank.getBounds this') (Wall.getBounds wall) = false)
  /\ (forall j other, nth_error (allTanks g) j = Some other -> j <> i ->
        Tank.alive other = true ->
        rectsOverlap (Tank.getBounds this') (Tank.getBounds other) = false).
Proof.
  intros Hreach Hi Ha Hb.
  pose proof (reachable_ok g Hreach) as Hok.
  pose proof (allTanks_ok g Hok) as Hts.
  apply move_sound; try assumption.
  - rewrite Forall_forall in Hts. apply Hts. now apply nth_error_In with i.
  - now destruct Hok as (_ & _ & Hw).
Qed.

End Reachability.

Lemma C1_collision_soundness_witness :
  reachable Math_sin_level5 engine_started
  /\ nth_error (allTanks engine_started) 0 = Some player_started
  /\ Tank.blocked player_started 0 UP (walls engine_started)
                  (allTanks engine_started) = false
  /\ Tank.y (Tank.move player_started 0 UP (walls engine_started)
                       (allTanks engine_started)) == 610
  /\ forall wall, In wall (walls engine_started) -> Wall.alive wall = true ->
       rectsOverlap
         (Tank.getBounds (Tank.move player_started 0 UP (walls engine_started)
                                    (allTanks engine_started)))
         (Wall.getBounds wall) = false.
Proof.
  assert (Hr : reachable Math_sin_level5 engine_started)
    by (apply reach_startGame, reach_new).
  assert (Hn : nth_error (allTanks engine_started) 0 = Some player_started)
    by reflexivity.
  assert (Hb : Tank.blocked player_started 0 UP (walls engine_started)
                 (allTanks engine_started) = false)
    by (vm_compute; reflexivity).
  destruct (C1_collision_soundness Math_sin_level5 engine_started 0
              player_started UP Hr Hn eq_refl Hb) as [Hw _].
  split; [exact Hr|]. split; [exact Hn|]. split; [exact Hb|].
  split; [vm_compute; reflexivity | exact Hw].
Defined.

(* ================================================================== *)
(** * Further properties of the code *)

(** ** rectsOverlap *)

(** X1.  [rectsOverlap] does not depend on the order of its arguments, and
    it is false exactly when one box lies wholly to one side of the other;
    boxes that only share an edge do not overlap. *)
Theorem X1_rectsOverlap_separation (a b : Rect) :
  rectsOverlap a b = rectsOverlap b a
  /\ (rectsOverlap a b = false
      <-> rx b + rw b <= rx a \/ rx a + rw a <= rx b
          \/ ry b + rh b <= ry a \/ ry a + rh a <= ry b).
Proof.
  split.
  - unfold rectsOverlap.
    destruct (rx a <? rx b + rw b), (rx b <? rx a + rw a),
             (ry a <? ry b + rh b), (ry b <? ry a + rh a); reflexivity.
  - unfold rectsOverlap.
    qcase (rx a) (rx b + rw b) E1; qcase (rx b) (rx a + rw a) E2;
      qcase (ry a) (ry b + rh b) E3; qcase (ry b) (ry a + rh a) E4;
      cbn [andb]; split; intro H; try reflexivity; try discriminate;
      try tauto.
    exfalso. destruct H as [H|[H|[H|H]]].
    + apply (Qlt_not_le _ _ E1 H).
    + apply (Qlt_not_le _ _ E2 H).
    + apply (Qlt_not_le _ _ E3 H).
    + apply (Qlt_not_le _ _ E4 H).
Qed.

(** ** snapToGrid *)

Lemma Math_round_inject (k : Z) : Math_round (inject_Z k) = k.
Proof.
  unfold Math_round.
  pose proof (Qfloor_le (inject_Z k + 0.5)) as Hlo.
  pose proof (Qlt_floor (inject_Z k + 0.5)) as Hhi.
  set (f := Qfloor (inject_Z k + 0.5)) in *.
  rewrite inject_Z_plus in Hhi. change (inject_Z 1) with 1 in Hhi.
  assert (H1 : (f <= k)%Z).
  { destruct (Z_lt_le_dec k f) as [Hlt|Hle]; [|exact Hle]. exfalso.
    assert (Hk : (k + 1 <= f)%Z) by lia.
    rewrite Zle_Qle, inject_Z_plus in Hk. change (inject_Z 1) with 1 in Hk.
    lra. }
  assert (H2 : (k <= f)%Z).
  { destruct (Z_lt_le_dec f k) as [Hlt|Hle]; [|exact Hle]. exfalso.
    assert (Hk : (f + 1 <= k)%Z) by lia.
    rewrite Zle_Qle, inject_Z_plus in Hk. change (inject_Z 1) with 1 in Hk.
    lra. }
  lia.
Qed.

Lemma snapToGrid_grid (k : Z) :
  snapToGrid (inject_Z k * WALL_SIZE) == inject_Z k * WALL_SIZE.
Proof.
  unfold snapToGrid, WALL_SIZE.
  assert (E : inject_Z k * 36 / 36 == inject_Z k) by field.
  unfold Math_round. rewrite (Qfloor_comp _ _ (Qplus_comp _ _ E _ _ (Qeq_refl _))).
  fold (Math_round (inject_Z k)). now rewrite Math_round_inject.
Qed.

(** X2.  [snapToGrid] leaves the grid lines where they are, so snapping
    twice is snapping once; it moves a coordinate by at most half a cell;
    and it keeps the order of coordinates. *)
Theorem X2_snapToGrid_props (v w : Q) :
  (forall k : Z, snapToGrid (inject_Z k * WALL_SIZE) == inject_Z k * WALL_SIZE)
  /\ snapToGrid (snapToGrid v) == snapToGrid v
  /\ Qabs (snapToGrid v - v) <= WALL_SIZE / 2
  /\ (v <= w -> snapToGrid v <= snapToGrid w).
Proof.
  split; [exact snapToGrid_grid|]. split; [|split].
  - unfold snapToGrid at 2. apply snapToGrid_grid.
  - unfold snapToGrid, Math_round, WALL_SIZE.
    set (u := v / 36).
    assert (Hv : v == u * 36) by (unfold u; field).
    pose proof (Qfloor_le (u + 0.5)) as Hlo.
    pose proof (Qlt_floor (u + 0.5)) as Hhi.
    rewrite inject_Z_plus in Hhi. change (inject_Z 1) with 1 in Hhi.
    apply Qabs_Qle_condition.
    assert (E : 36 / 2 == 18) by reflexivity. rewrite E. split; lra.
  - intro Hle. unfold snapToGrid, Math_round, WALL_SIZE.
    assert (Hd : v / 36 + 0.5 <= w / 36 + 0.5).
    { set (a := v / 36). set (b := w / 36).
      assert (Ha : v == a * 36) by (unfold a; field).
      assert (Hb : w == b * 36) by (unfold b; field). lra. }
    apply Qfloor_resp_le in Hd. rewrite Zle_Qle in Hd.
    set (p := inject_Z (Qfloor (v / 36 + 0.5))) in *.
    set (q := inject_Z (Qfloor (w / 36 + 0.5))) in *. lra.
Qed.

(** ** Tank.move: the clamp *)

(** X3.  A committed move leaves an alive tank inside the design
    resolution, whatever its position was before, as long as the tank is
    no larger than the design resolution. *)
Theorem X3_move_inside_world (this : Tank.t) (self : nat) (dir : DIR)
  (walls : list Wall.t) (tanks : list Tank.t) :
  Tank.alive this = true ->
  Tank.size this <= DESIGN_HEIGHT ->
  Tank.blocked this self dir walls tanks = false ->
  let this' := Tank.move this self dir walls tanks in
  0 <= Tank.x this' /\ Tank.x this' <= DESIGN_WIDTH - Tank.size this'
  /\ 0 <= Tank.y this' /\ Tank.y this' <= DESIGN_HEIGHT - Tank.size this'.
Proof.
  intros Ha Hs Hb. cbv zeta.
  rewrite (move_alive this self dir walls tanks Ha), Hb.
  destruct (turn_fields this dir) as (_ & Hsz & _).
  cbn [Tank.x Tank.y Tank.size Tank.set_x Tank.set_y].
  unfold Tank.tentative. rewrite Hsz.
  assert (HW : 0 <= DESIGN_WIDTH - Tank.size this)
    by (unfold DESIGN_WIDTH, DESIGN_HEIGHT in *; lra).
  assert (HH : 0 <= DESIGN_HEIGHT - Tank.size this)
    by (unfold DESIGN_HEIGHT in *; lra).
  destruct dir; cbn [fst snd];
    (split; [apply Q.le_max_l|]);
    (split; [apply Q.max_lub; [assumption | apply Q.le_min_l]|]);
    (split; [apply Q.le_max_l|]);
    (apply Q.max_lub; [assumption | apply Q.le_min_l]).
Qed.

Lemma X3_move_inside_world_witness :
  Tank.size (Tank.set_y tank_off_grid (-5)) <= DESIGN_HEIGHT
  /\ Tank.blocked (Tank.set_y tank_off_grid (-5)) 0 UP [] [] = false
  /\ 0 <= Tank.y (Tank.move (Tank.set_y tank_off_grid (-5)) 0 UP [] []).
Proof.
  assert (Hs : Tank.size (Tank.set_y tank_off_grid (-5)) <= DESIGN_HEIGHT)
    by (vm_compute; discriminate).
  assert (Hb : Tank.blocked (Tank.set_y tank_off_grid (-5)) 0 UP [] [] = false)
    by reflexivity.
  destruct (X3_move_inside_world (Tank.set_y tank_off_grid (-5)) 0 UP [] []
              eq_refl Hs Hb) as (_ & _ & H0 & _).
  split; [exact Hs|]. split; [exact Hb | exact H0].
Defined.

(** ** Bullet.update: the flight *)

Lemma update_alive_inv (b : Bullet.t) :
  Bullet.alive (Bullet.update b) = true ->
  Bullet.alive b = true
  /\ Bullet.update b = Bullet.advance b
  /\ Bullet.outOfBounds (Bullet.advance b) = false.
Proof.
  unfold Bullet.update. destruct (Bullet.alive b) eqn:Ha; cbn [negb].
  - destruct (Bullet.outOfBounds (Bullet.advance b)); [discriminate|].
    now repeat split.
  - congruence.
Qed.

Lemma advance_fields (b : Bullet.t) :
  Bullet.x (Bullet.advance b)
  == Bullet.x b + dirX (Bullet.direction b) * Bullet.speed b
  /\ Bullet.y (Bullet.advance b)
     == Bullet.y b + dirY (Bullet.direction b) * Bullet.speed b
  /\ Bullet.direction (Bullet.advance b) = Bullet.direction b
  /\ Bullet.size (Bullet.advance b) = Bullet.size b
  /\ Bullet.speed (Bullet.advance b) = Bullet.speed b
  /\ Bullet.alive (Bullet.advance b) = Bullet.alive b.
Proof.
  unfold Bullet.advance.
  destruct (Bullet.direction b) eqn:D;
    cbn [Bullet.x Bullet.y Bullet.direction Bullet.size Bullet.speed
         Bullet.alive Bullet.set_pos dirX dirY];
    (split; [lra|]); (split; [lra|]); now repeat split.
Qed.

(** While it is alive a bullet flies in a straight line. *)
Lemma flight_track (b : Bullet.t) (n : nat) :
  Bullet.alive (Nat.iter n Bullet.update b) = true ->
  let b' := Nat.iter n Bullet.update b in
  Bullet.x b' == Bullet.x b + inject_Z (Z.of_nat n)
                              * (dirX (Bullet.direction b) * Bullet.speed b)
  /\ Bullet.y b' == Bullet.y b + inject_Z (Z.of_nat n)
                                 * (dirY (Bullet.direction b) * Bullet.speed b)
  /\ Bullet.direction b' = Bullet.direction b
  /\ Bullet.size b' = Bullet.size b
  /\ Bullet.speed b' = Bullet.speed b
  /\ ((0 < n)%nat -> Bullet.outOfBounds b' = false).
Proof.
  induction n as [|n IH]; intro Ha; cbv zeta.
  - change (Nat.iter 0 Bullet.update b) with b.
    change (inject_Z (Z.of_nat 0)) with 0.
    split; [ring|]. split; [ring|]. repeat split. intro H. inversion H.
  - change (Nat.iter (S n) Bullet.update b)
      with (Bullet.update (Nat.iter n Bullet.update b)) in *.
    destruct (update_alive_inv _ Ha) as (Ha' & Hu & Hob).
    destruct (IH Ha') as (Hx & Hy & Hd & Hs & Hv & _).
    rewrite Hu.
    destruct (advance_fields (Nat.iter n Bullet.update b))
      as (Ax & Ay & Ad & As & Av & _).
    rewrite Nat2Z.inj_succ. unfold Z.succ. rewrite inject_Z_plus.
    change (inject_Z 1) with 1.
    split; [rewrite Ax, Hx, Hd, Hv; ring|].
    split; [rewrite Ay, Hy, Hd, Hv; ring|].
    split; [congruence|]. split; [congruence|]. split; [congruence|].
    intros _. exact Hob.
Qed.

Lemma flightBound_spec (b : Bullet.t) (n : nat) :
  0 < Bullet.speed b -> (flightBound b <= n)%nat ->
  (0 < n)%nat
  /\ DESIGN_WIDTH + DESIGN_HEIGHT + Qabs (Bullet.size b)
     + Qabs (Bullet.x b) + Qabs (Bullet.y b)
     < inject_Z (Z.of_nat n) * Bullet.speed b.
Proof.
  intros Hv Hn. unfold flightBound in Hn.
  set (span := DESIGN_WIDTH + DESIGN_HEIGHT + Qabs (Bullet.size b)
               + Qabs (Bullet.x b) + Qabs (Bullet.y b)) in *.
  split; [lia|].
  set (c := Qceiling (span / Bullet.speed b)) in *.
  assert (Hc : span / Bullet.speed b <= inject_Z c) by apply Qle_ceiling.
  assert (Hcn : (c + 1 <= Z.of_nat n)%Z) by lia.
  rewrite Zle_Qle, inject_Z_plus in Hcn. change (inject_Z 1) with 1 in Hcn.
  assert (Hq : span / Bullet.speed b < inject_Z (Z.of_nat n)) by lra.
  apply (Qmult_lt_r _ _ _ Hv) in Hq.
  assert (E : span / Bullet.speed b * Bullet.speed b == span).
  { field. intro H0. rewrite H0 in Hv. now apply Qlt_irrefl in Hv. }
  rewrite E in Hq. exact Hq.
Qed.

(** X4.  No bullet flies for ever: a bullet with a positive speed is dead
    after [flightBound] updates, and stays dead. *)
Theorem X4_bullet_flight_ends (b : Bullet.t) (n : nat) :
  0 < Bullet.speed b -> (flightBound b <= n)%nat ->
  Bullet.alive (Nat.iter n Bullet.update b) = false.
Proof.
  intros Hv Hn.
  destruct (Bullet.alive (Nat.iter n Bullet.update b)) eqn:Ha; [|reflexivity].
  exfalso.
  destruct (flightBound_spec b n Hv Hn) as [Hpos Hfar].
  destruct (flight_track b n Ha) as (Hx & Hy & _ & Hs & _ & Hob).
  specialize (Hob Hpos).
  assert (Hin : ~ beyondBounds (Bullet.x (Nat.iter n Bullet.update b))
                   (Bullet.y (Nat.iter n Bullet.update b))
                   (Bullet.size (Nat.iter n Bullet.update b))).
  { intro H. apply outOfBounds_spec in H. congruence. }
  apply Hin. unfold beyondBounds. rewrite Hs, Hx, Hy.
  pose proof (Qle_Qabs (Bullet.size b)) as S1.
  pose proof (Qle_Qabs (Bullet.x b)) as Ax1.
  pose proof (Qle_Qabs (- Bullet.x b)) as Ax2. rewrite Qabs_opp in Ax2.
  pose proof (Qle_Qabs (Bullet.y b)) as Y1.
  pose proof (Qle_Qabs (- Bullet.y b)) as Y2. rewrite Qabs_opp in Y2.
  pose proof (Qabs_nonneg (Bullet.x b)) as Ax0.
  pose proof (Qabs_nonneg (Bullet.y b)) as Y0.
  pose proof (Qabs_nonneg (Bullet.size b)) as S0.
  unfold DESIGN_WIDTH, DESIGN_HEIGHT in *.
  set (t := inject_Z (Z.of_nat n)) in *.
  destruct (Bullet.direction b); cbn [dirX dirY].
  - right. right. left.
    assert (E : t * (-1 * Bullet.speed b) == - (t * Bullet.speed b)) by ring.
    rewrite E. lra.
  - right. right. right.
    assert (E : t * (1 * Bullet.speed b) == t * Bullet.speed b) by ring.
    rewrite E. lra.
  - left.
    assert (E : t * (-1 * Bullet.speed b) == - (t * Bullet.speed b)) by ring.
    rewrite E. lra.
  - right. left.
    assert (E : t * (1 * Bullet.speed b) == t * Bullet.speed b) by ring.
    rewrite E. lra.
Qed.

Lemma X4_bullet_flight_ends_witness :
  0 < Bullet.speed bullet_sample
  /\ (flightBound bullet_sample <= 600)%nat
  /\ Bullet.alive (Nat.iter 600 Bullet.update bullet_sample) = false.
Proof.
  assert (Hv : 0 < Bullet.speed bullet_sample) by reflexivity.
  assert (Hn : (flightBound bullet_sample <= 600)%nat)
    by (apply Nat.leb_le; vm_compute; reflexivity).
  split; [exact Hv|]. split; [exact Hn|].
  exact (X4_bullet_flight_ends bullet_sample 600 Hv Hn).
Defined.

(** X5.  As long as it is alive a bullet flies in a straight line along
    its direction, one [speed] per update, with its direction, size and
    speed unchanged; and an alive bullet that has been updated at least
    once is within the design resolution widened by its size. *)
Theorem X5_bullet_flight_track (b : Bullet.t) (n : nat) :
  Bullet.alive (Nat.iter n Bullet.update b) = true ->
  let b' := Nat.iter n Bullet.update b in
  Bullet.x b' == Bullet.x b + inject_Z (Z.of_nat n)
                              * (dirX (Bullet.direction b) * Bullet.speed b)
  /\ Bullet.y b' == Bullet.y b + inject_Z (Z.of_nat n)
                                 * (dirY (Bullet.direction b) * Bullet.speed b)
  /\ Bullet.direction b' = Bullet.direction b
  /\ Bullet.size b' = Bullet.size b
  /\ Bullet.speed b' = Bullet.speed b
  /\ ((0 < n)%nat ->
      - Bullet.size b <= Bullet.x b'
      /\ Bullet.x b' <= DESIGN_WIDTH + Bullet.size b
      /\ - Bullet.size b <= Bullet.y b'
      /\ Bullet.y b' <= DESIGN_HEIGHT + Bullet.size b).
Proof.
  intro Ha. cbv zeta.
  destruct (flight_track b n Ha) as (Hx & Hy & Hd & Hs & Hv & Hob).
  do 5 (split; [assumption|]).
  intro Hpos. specialize (Hob Hpos). unfold Bullet.outOfBounds in Hob.
  rewrite Hs in Hob.
  repeat (apply orb_false_iff in Hob; destruct Hob as [Hob ?]).
  repeat match goal with
         | H : Qltb _ _ = false |- _ => apply Qltb_ge in H
         end.
  now repeat split.
Qed.

Lemma X5_bullet_flight_track_witness :
  Bullet.alive (Nat.iter 2 Bullet.update bullet_sample) = true
  /\ Bullet.x (Nat.iter 2 Bullet.update bullet_sample)
     == 1269 + 2 * (1 * 6).
Proof.
  split; [reflexivity|].
  destruct (X5_bullet_flight_track bullet_sample 2 eq_refl) as (Hx & _).
  exact Hx.
Defined.

(** ** generateMap: where the walls are *)

Lemma COLS_value : COLS = 35%Z.
Proof. reflexivity. Qed.

Lemma ROWS_value : ROWS = 20%Z.
Proof. reflexivity. Qed.

Lemma isReserved_spec (c r : Z) :
  isReserved c r = true
  <-> ((Z.abs (c - 17) <= 1 /\ Z.abs (r - 17) <= 1)
       \/ (Z.abs (c - 2) <= 1 /\ Z.abs (r - 2) <= 1)
       \/ (Z.abs (c - 17) <= 1 /\ Z.abs (r - 2) <= 1)
       \/ (Z.abs (c - 32) <= 1 /\ Z.abs (r - 2) <= 1))%Z.
Proof.
  unfold isReserved, playerSpawnCol, playerSpawnRow, enemySpawnPositions.
  rewrite COLS_value, ROWS_value.
  change (35 / 2)%Z with 17%Z. change (20 - 3)%Z with 17%Z.
  change (35 - 3)%Z with 32%Z.
  cbn [existsb fst snd].
  rewrite !orb_true_iff, !andb_true_iff, !Z.leb_le. 
  split; intro H.
  - destruct H as [H|[H|[H|[H|H]]]]; try tauto. discriminate.
  - tauto.
Qed.

Lemma wallAt_cell (c r : Z) (ty : WALL_TYPE) :
  wallInCell (wallAt c r ty) c r
  /\ Wall.alive (wallAt c r ty) = true
  /\ Wall.type (wallAt c r ty) = ty
  /\ Wall.destructible (wallAt c r ty)
     = match ty with BRICK => true | STEEL => false end.
Proof. unfold wallInCell, wallAt. cbn. now repeat split. Qed.

(** What holds of every wall the generator makes, cell [(c, r)] being the
    wall's. *)
Lemma generateMap_wall (Math_sin : Q -> Q) (lvl : Z) (w : Wall.t) :
  In w (generateMap Math_sin lvl) ->
  exists c r,
    (0 <= c < COLS)%Z /\ (0 <= r < ROWS)%Z
    /\ wallInCell w c r
    /\ Wall.alive w = true
    /\ Wall.destructible w
       = match Wall.type w with BRICK => true | STEEL => false end
    /\ isReserved c r = false
    /\ (Wall.type w = BRICK ->
        (innerStartC <= c < innerEndC)%Z /\ (innerStartR <= r < innerEndR)%Z).
Proof.
  assert (Hnr : forall c r, (c < 1 \/ 33 < c \/ r < 1 \/ 18 < r)%Z ->
                            isReserved c r = false).
  { intros c r H. destruct (isReserved c r) eqn:E; [|reflexivity].
    apply isReserved_spec in E. lia. }
  unfold generateMap, borderWalls. rewrite !in_app_iff.
  intros [[H|H]|[H|H]].
  - apply in_flat_map in H. destruct H as (c & Hc & Hw).
    apply range_In in Hc. rewrite COLS_value, ROWS_value in *.
    destruct Hw as [<-|[<-|[]]].
    + exists c, 0%Z. unfold wallInCell.
      cbn [Wall.x Wall.y Wall.size Wall.alive Wall.type Wall.destructible
           Wall.new].
      split; [lia|]. split; [lia|].
      split; [split; [|split]; reflexivity|].
      split; [reflexivity|]. split; [reflexivity|].
      split; [apply Hnr; lia | discriminate].
    + exists c, 19%Z. unfold wallInCell.
      cbn [Wall.x Wall.y Wall.size Wall.alive Wall.type Wall.destructible
           Wall.new].
      split; [lia|]. split; [lia|].
      split; [split; [|split]; reflexivity|].
      split; [reflexivity|]. split; [reflexivity|].
      split; [apply Hnr; lia | discriminate].
  - apply in_flat_map in H. destruct H as (r & Hr & Hw).
    apply range_In in Hr. rewrite COLS_value, ROWS_value in *.
    destruct Hw as [<-|[<-|[]]].
    + exists 0%Z, r. unfold wallInCell.
      cbn [Wall.x Wall.y Wall.size Wall.alive Wall.type Wall.destructible
           Wall.new].
      split; [lia|]. split; [lia|].
      split; [split; [|split]; reflexivity|].
      split; [reflexivity|]. split; [reflexivity|].
      split; [apply Hnr; lia | discriminate].
    + exists 34%Z, r. unfold wallInCell.
      cbn [Wall.x Wall.y Wall.size Wall.alive Wall.type Wall.destructible
           Wall.new].
      split; [lia|]. split; [lia|].
      split; [split; [|split]; reflexivity|].
      split; [reflexivity|]. split; [reflexivity|].
      split; [apply Hnr; lia | discriminate].
  - unfold gridWalls in H. apply in_flat_map in H.
    destruct H as (r & Hr & H). apply in_flat_map in H.
    destruct H as (c & Hc & Hw). apply range_In in Hr, Hc.
    unfold innerStartC, innerEndC, innerStartR, innerEndR in *.
    rewrite COLS_value, ROWS_value in *.
    unfold gridCell in Hw. cbv zeta in Hw.
    destruct (isReserved c r) eqn:Eres; [contradiction|].
    assert (Hcell : forall ty, w = wallAt c r ty ->
              exists c0 r0,
                (0 <= c0 < 35)%Z /\ (0 <= r0 < 20)%Z /\ wallInCell w c0 r0
                /\ Wall.alive w = true
                /\ Wall.destructible w
                   = match Wall.type w with BRICK => true | STEEL => false end
                /\ isReserved c0 r0 = false
                /\ (Wall.type w = BRICK ->
                    (2 <= c0 < 35 - 2)%Z /\ (2 <= r0 < 20 - 2)%Z)).
    { intros ty ->. exists c, r.
      destruct (wallAt_cell c r ty) as (H1 & H2 & H3 & H4).
      rewrite H3. repeat split; try assumption; lia. }
    repeat match type of Hw with
           | In _ (if ?b then _ else _) => destruct b
           end;
      try contradiction;
      destruct Hw as [Hw|[]]; symmetry in Hw; eapply Hcell; exact Hw.
  - unfold steelExtraWalls in H. apply in_flat_map in H.
    destruct H as (i & _ & Hw). unfold steelExtraCell in Hw. cbv zeta in Hw.
    destruct (isReserved _ _) eqn:Eres; cbn [negb] in Hw; [contradiction|].
    destruct Hw as [<-|[]].
    assert (Hc : (2 <= steelExtraCol Math_sin lvl i < 33)%Z).
    { unfold steelExtraCol, innerStartC, innerEndC. rewrite COLS_value.
      pose proof (Z.rem_bound_pos
                    (pseudoRandom Math_sin (i * 31 + lvl * 7)) (35 - 2 - 2)
                    (Z.abs_nonneg _) eq_refl). lia. }
    assert (Hr : (2 <= steelExtraRow Math_sin lvl i < 18)%Z).
    { unfold steelExtraRow, innerStartR, innerEndR. rewrite ROWS_value.
      pose proof (Z.rem_bound_pos
                    (pseudoRandom Math_sin (i * 37 + lvl * 11)) (20 - 2 - 2)
                    (Z.abs_nonneg _) eq_refl). lia. }
    exists (steelExtraCol Math_sin lvl i), (steelExtraRow Math_sin lvl i).
    destruct (wallAt_cell (steelExtraCol Math_sin lvl i)
                          (steelExtraRow Math_sin lvl i) STEEL)
      as (H1 & H2 & H3 & H4).
    rewrite COLS_value, ROWS_value, H3.
    repeat split; try assumption; try lia; discriminate.
Qed.

(** X6.  Every wall [generateMap] returns, at any level and whatever the
    pseudo-random values, is alive, fills one cell of the 35 by 20 grid,
    is destructible exactly when it is BRICK, and lies outside the
    reserved zones; BRICK walls lie in the interior only. *)
Theorem X6_generateMap_walls (Math_sin : Q -> Q) (lvl : Z) (w : Wall.t) :
  In w (generateMap Math_sin lvl) ->
  exists c r,
    (0 <= c < 35)%Z /\ (0 <= r < 20)%Z
    /\ wallInCell w c r
    /\ Wall.alive w = true
    /\ Wall.destructible w
       = match Wall.type w with BRICK => true | STEEL => false end
    /\ isReserved c r = false
    /\ (Wall.type w = BRICK -> (2 <= c < 33)%Z /\ (2 <= r < 18)%Z).
Proof.
  intro H. destruct (generateMap_wall Math_sin lvl w H)
    as (c & r & Hc & Hr & Hcell & Ha & Hd & Hres & Hb).
  unfold innerStartC, innerEndC, innerStartR, innerEndR in Hb.
  rewrite COLS_value, ROWS_value in *.
  exists c, r. repeat (split; [assumption|]). exact Hb.
Qed.

Lemma X6_generateMap_walls_witness :
  In (wallAt 5 0 STEEL) (generateMap Math_sin_level5 5)
  /\ exists c r, wallInCell (wallAt 5 0 STEEL) c r /\ isReserved c r = false.
Proof.
  assert (H : In (wallAt 5 0 STEEL) (generateMap Math_sin_level5 5)).
  { unfold generateMap, borderWalls. apply in_or_app. left.
    apply in_or_app. left. apply in_flat_map. exists 5%Z.
    split; [apply range_In; rewrite COLS_value; lia | now left]. }
  split; [exact H|].
  destruct (X6_generateMap_walls Math_sin_level5 5 _ H)
    as (c & r & _ & _ & Hcell & _ & _ & Hres & _).
  now exists c, r.
Defined.

Lemma wallInCell_unique (w : Wall.t) (c r c' r' : Z) :
  wallInCell w c r -> wallInCell w c' r' -> c = c' /\ r = r'.
Proof.
  unfold wallInCell, WALL_SIZE. intros (Hx & Hy & _) (Hx' & Hy' & _).
  rewrite Hx in Hx'. rewrite Hy in Hy'.
  assert (Ec : inject_Z c == inject_Z c') by lra.
  assert (Er : inject_Z r == inject_Z r') by lra.
  split; apply inject_Z_injective; assumption.
Qed.

(** X7.  The outermost ring of the grid is walled all round with STEEL:
    every border cell holds an alive STEEL wall, and no wall in a border
    cell is BRICK. *)
Theorem X7_border_is_steel (Math_sin : Q -> Q) (lvl c r : Z) :
  (0 <= c < COLS)%Z -> (0 <= r < ROWS)%Z -> onBorder c r ->
  (exists w, In w (generateMap Math_sin lvl) /\ wallInCell w c r
             /\ Wall.type w = STEEL /\ Wall.alive w = true)
  /\ (forall w, In w (generateMap Math_sin lvl) -> wallInCell w c r ->
                Wall.type w = STEEL).
Proof.
  intros Hc Hr Hb. split.
  - assert (Hcell0 : forall x y, x == inject_Z c * WALL_SIZE ->
                                 y == inject_Z r * WALL_SIZE ->
                                 wallInCell (Wall.new x y STEEL) c r).
    { intros x y Hx Hy. now repeat split. }
    unfold generateMap, borderWalls.
    destruct (Z.eq_dec r 0) as [->|Hr0].
    { exists (Wall.new (inject_Z c * WALL_SIZE) 0 STEEL).
      split; [|split; [apply Hcell0; reflexivity | now split]].
      apply in_or_app. left. apply in_or_app. left.
      apply in_flat_map. exists c. split; [now apply range_In | now left]. }
    destruct (Z.eq_dec r (ROWS - 1)) as [->|Hr1].
    { exists (Wall.new (inject_Z c * WALL_SIZE)
                       (inject_Z (ROWS - 1) * WALL_SIZE) STEEL).
      split; [|split; [apply Hcell0; reflexivity | now split]].
      apply in_or_app. left. apply in_or_app. left.
      apply in_flat_map. exists c.
      split; [now apply range_In | right; now left]. }
    assert (Hrr : (1 <= r < ROWS - 1)%Z) by lia.
    destruct Hb as [Hb|[Hb|[Hb|Hb]]]; try contradiction; subst c.
    + exists (Wall.new 0 (inject_Z r * WALL_SIZE) STEEL).
      split; [|split; [apply Hcell0; reflexivity | now split]].
      apply in_or_app. left. apply in_or_app. right.
      apply in_flat_map. exists r. split; [now apply range_In | now left].
    + exists (Wall.new (inject_Z (COLS - 1) * WALL_SIZE)
                       (inject_Z r * WALL_SIZE) STEEL).
      split; [|split; [apply Hcell0; reflexivity | now split]].
      apply in_or_app. left. apply in_or_app. right.
      apply in_flat_map. exists r.
      split; [now apply range_In | right; now left].
  - intros w Hin Hcell.
    destruct (generateMap_wall Math_sin lvl w Hin)
      as (c' & r' & _ & _ & Hcell' & _ & _ & _ & Hbrick).
    destruct (wallInCell_unique w c r c' r' Hcell Hcell') as [<- <-].
    destruct (Wall.type w); [|reflexivity]. exfalso.
    specialize (Hbrick eq_refl).
    unfold innerStartC, innerEndC, innerStartR, innerEndR, onBorder in *.
    lia.
Qed.

Lemma X7_border_is_steel_witness :
  (0 <= 34 < COLS)%Z /\ (0 <= 7 < ROWS)%Z /\ onBorder 34 7
  /\ exists w, In w (generateMap Math_sin_level5 5) /\ wallInCell w 34 7
               /\ Wall.type w = STEEL.
Proof.
  assert (Hc : (0 <= 34 < COLS)%Z) by (rewrite COLS_value; lia).
  assert (Hr : (0 <= 7 < ROWS)%Z) by (rewrite ROWS_value; lia).
  assert (Hb : onBorder 34 7) by (right; left; reflexivity).
  destruct (X7_border_is_steel Math_sin_level5 5 34 7 Hc Hr Hb)
    as [(w & Hin & Hcell & Hty & _) _].
  split; [exact Hc|]. split; [exact Hr|]. split; [exact Hb|].
  exists w. split; [exact Hin|]. split; [exact Hcell | exact Hty].
Defined.

(** A box inside a box that overlaps nothing overlaps nothing. *)
Lemma rectsOverlap_inside (a a' b : Rect) :
  rx a' <= rx a -> rx a + rw a <= rx a' + rw a' ->
  ry a' <= ry a -> ry a + rh a <= ry a' + rh a' ->
  rectsOverlap a' b = false -> rectsOverlap a b = false.
Proof.
  intros H1 H2 H3 H4 Hno.
  destruct (rectsOverlap a b) eqn:E; [|reflexivity].
  apply rectsOverlap_spec in E. destruct E as (E1 & E2 & E3 & E4).
  assert (Hyes : rectsOverlap a' b = true)
    by (apply rectsOverlap_spec; repeat split; lra).
  congruence.
Qed.

Lemma spawn_cells (sp : Q * Q) :
  In sp (getPlayerSpawn :: getEnemySpawnPoints) ->
  exists sc sr,
    fst sp == inject_Z sc * WALL_SIZE /\ snd sp == inject_Z sr * WALL_SIZE
    /\ forall c r, (Z.abs (c - sc) <= 1)%Z -> (Z.abs (r - sr) <= 1)%Z ->
                   isReserved c r = true.
Proof.
  intros [<-|[<-|[<-|[<-|[]]]]].
  - exists 17%Z, 17%Z. split; [reflexivity|]. split; [reflexivity|].
    intros c r Hc Hr. apply isReserved_spec. lia.
  - exists 2%Z, 2%Z. split; [reflexivity|]. split; [reflexivity|].
    intros c r Hc Hr. apply isReserved_spec. lia.
  - exists 17%Z, 2%Z. split; [reflexivity|]. split; [reflexivity|].
    intros c r Hc Hr. apply isReserved_spec. lia.
  - exists 32%Z, 2%Z. split; [reflexivity|]. split; [reflexivity|].
    intros c r Hc Hr. apply isReserved_spec. lia.
Qed.

(** A wall in a cell that is not reserved stays out of the three by three
    zone of every spawn point. *)
Lemma zone_clear_of_cell (w : Wall.t) (c r : Z) (sp : Q * Q) :
  wallInCell w c r -> isReserved c r = false ->
  In sp (getPlayerSpawn :: getEnemySpawnPoints) ->
  rectsOverlap (spawnZone sp) (Wall.getBounds w) = false.
Proof.
  intros (Hx & Hy & Hs) Hres Hsp.
  destruct (spawn_cells sp Hsp) as (sc & sr & Hsx & Hsy & Hzone).
  destruct (rectsOverlap (spawnZone sp) (Wall.getBounds w)) eqn:E;
    [|reflexivity].
  exfalso. apply rectsOverlap_spec in E.
  unfold spawnZone, Wall.getBounds in E. cbn [rx ry rw rh] in E.
  rewrite Hs in E. unfold WALL_SIZE in *.
  destruct E as (E1 & E2 & E3 & E4).
  assert (Hc1 : (sc < c + 2)%Z).
  { rewrite Zlt_Qlt, inject_Z_plus. change (inject_Z 2) with 2. lra. }
  assert (Hc2 : (c < sc + 2)%Z).
  { rewrite Zlt_Qlt, inject_Z_plus. change (inject_Z 2) with 2. lra. }
  assert (Hr1 : (sr < r + 2)%Z).
  { rewrite Zlt_Qlt, inject_Z_plus. change (inject_Z 2) with 2. lra. }
  assert (Hr2 : (r < sr + 2)%Z).
  { rewrite Zlt_Qlt, inject_Z_plus. change (inject_Z 2) with 2. lra. }
  rewrite (Hzone c r) in Hres; [discriminate | lia | lia].
Qed.

(** X8.  The three by three cells around the player's spawn point and
    around each enemy spawn point are free of walls at every level, so
    neither the 36 by 36 box [_spawnEnemies] tests at an enemy spawn point
    nor a tank standing on a spawn point overlaps a wall of the map. *)
Theorem X8_spawn_zones_clear (Math_sin : Q -> Q) (lvl : Z) (w : Wall.t)
  (sp : Q * Q) :
  In w (generateMap Math_sin lvl) ->
  In sp (getPlayerSpawn :: getEnemySpawnPoints) ->
  rectsOverlap (spawnZone sp) (Wall.getBounds w) = false
  /\ rectsOverlap {| rx := fst sp; ry := snd sp; rw := 36; rh := 36 |}
                  (Wall.getBounds w) = false
  /\ forall d p rnd,
       rectsOverlap (Tank.getBounds (Tank.new (fst sp) (snd sp) d p rnd))
                    (Wall.getBounds w) = false.
Proof.
  intros Hw Hsp.
  destruct (generateMap_wall Math_sin lvl w Hw)
    as (c & r & _ & _ & Hcell & _ & _ & Hres & _).
  pose proof (zone_clear_of_cell w c r sp Hcell Hres Hsp) as Hz.
  split; [exact Hz|]. split.
  - apply (rectsOverlap_inside _ (spawnZone sp)); [| | | |exact Hz];
      unfold spawnZone, WALL_SIZE; cbn [rx ry rw rh]; lra.
  - intros d p rnd.
    apply (rectsOverlap_inside _ (spawnZone sp)); [| | | |exact Hz];
      unfold spawnZone, WALL_SIZE, Tank.getBounds, TANK_SIZE;
      cbn [rx ry rw rh Tank.x Tank.y Tank.size Tank.new]; unfold TANK_SIZE;
      lra.
Qed.

Lemma X8_spawn_zones_clear_witness :
  In (wallAt 5 0 STEEL) (generateMap Math_sin_level5 5)
  /\ In getPlayerSpawn (getPlayerSpawn :: getEnemySpawnPoints)
  /\ rectsOverlap (spawnZone getPlayerSpawn)
                  (Wall.getBounds (wallAt 5 0 STEEL)) = false.
Proof.
  assert (H : In (wallAt 5 0 STEEL) (generateMap Math_sin_level5 5)).
  { unfold generateMap, borderWalls. apply in_or_app. left.
    apply in_or_app. left. apply in_flat_map. exists 5%Z.
    split; [apply range_In; rewrite COLS_value; lia | now left]. }
  assert (Hs : In getPlayerSpawn (getPlayerSpawn :: getEnemySpawnPoints))
    by now left.
  destruct (X8_spawn_zones_clear Math_sin_level5 5 _ getPlayerSpawn H Hs)
    as [Hz _].
  split; [exact H|]. split; [exact Hs | exact Hz].
Defined.

(** ** GameEngine: the commands *)

(** X9.  [togglePause] changes nothing but the state, undoes itself, and
    does nothing outside PLAYING and PAUSED; while the game is paused
    [update] leaves the engine and the random stream untouched, so pausing
    for any number of frames and resuming gives back the engine as it
    was. *)
Theorem X9_togglePause (g : GameEngine) :
  togglePause (togglePause g) = g
  /\ (state g <> PLAYING -> state g <> PAUSED -> togglePause g = g)
  /\ togglePause g = set_state g (state (togglePause g))
  /\ (state g = PLAYING ->
      forall now r,
        update (togglePause g) now r = (togglePause g, r)
        /\ togglePause (fst (update (togglePause g) now r)) = g).
Proof.
  destruct g as [st sc li le ed ts pl en bu wa la ke ex].
  unfold togglePause. cbn [state].
  split; [destruct st; reflexivity|].
  split; [intros H1 H2; destruct st; congruence|].
  split; [destruct st; reflexivity|].
  intros -> now r. split; reflexivity.
Qed.

Lemma startGame_fields (Math_sin : Q -> Q) (g : GameEngine) (lvl : Z)
  (t1 t2 : Q) (r : Rand) :
  let g' := fst (startGame Math_sin g lvl t1 t2 r) in
  state g' = PLAYING /\ level g' = lvl
  /\ score g' = (if (lvl =? 1)%Z then 0%Z else score g)
  /\ lives g' = (if (lvl =? 1)%Z then PLAYER_MAX_LIVES else lives g)
  /\ enemiesDestroyed g' = 0%Z /\ totalEnemiesSpawned g' = 0%Z
  /\ enemies g' = [] /\ bullets g' = [] /\ explosions g' = []
  /\ walls g' = generateMap Math_sin lvl
  /\ lastEnemySpawnTime g' = t2 /\ keys g' = keys g
  /\ player g'
     = Some (Tank.set_invincibleUntil
               (Tank.new (fst getPlayerSpawn) (snd getPlayerSpawn) UP true
                         (fst (Math_random r)))
               (t1 + 2000)).
Proof.
  unfold startGame. destruct (Math_random r) as [u r1]. cbn.
  now repeat split.
Qed.

(** X10.  [nextLevel], from any level but 0, starts level [level + 1] with
    the score and the lives carried over; the level's counters, enemies,
    bullets and explosions are cleared, the walls are those of the new
    level, and the player is a new tank on its spawn point, alive, facing
    up, invincible exactly until 2000 after the first clock read.
    [startGame(1)] does the same but resets the score to 0 and the lives
    to 3. *)
Theorem X10_nextLevel_carries_over (Math_sin : Q -> Q) (g : GameEngine)
  (t1 t2 : Q) (r : Rand) :
  level g <> 0%Z ->
  let g' := fst (nextLevel Math_sin g t1 t2 r) in
  let g1 := fst (startGame Math_sin g 1 t1 t2 r) in
  (state g' = PLAYING /\ level g' = (level g + 1)%Z
   /\ score g' = score g /\ lives g' = lives g
   /\ enemiesDestroyed g' = 0%Z /\ totalEnemiesSpawned g' = 0%Z
   /\ enemies g' = [] /\ bullets g' = [] /\ explosions g' = []
   /\ walls g' = generateMap Math_sin (level g + 1)
   /\ exists p, player g' = Some p
                /\ Tank.x p = fst getPlayerSpawn
                /\ Tank.y p = snd getPlayerSpawn
                /\ Tank.direction p = UP /\ Tank.alive p = true
                /\ Tank.isPlayer p = true
                /\ forall t, Tank.isInvincible p t = true <-> t < t1 + 2000)
  /\ (score g1 = 0%Z /\ lives g1 = PLAYER_MAX_LIVES /\ level g1 = 1%Z
      /\ state g1 = PLAYING).
Proof.
  intro Hl. cbv zeta. unfold nextLevel.
  destruct (startGame_fields Math_sin g (level g + 1) t1 t2 r)
    as (H1 & H2 & H3 & H4 & H5 & H6 & H7 & H8 & H9 & H10 & _ & _ & H13).
  destruct (startGame_fields Math_sin g 1 t1 t2 r)
    as (K1 & K2 & K3 & K4 & _).
  cbv zeta in *.
  assert (E : (level g + 1 =? 1)%Z = false) by (apply Z.eqb_neq; lia).
  rewrite E in H3, H4.
  split.
  - do 10 (split; [assumption|]).
    eexists. split; [exact H13|]. cbn.
    do 5 (split; [reflexivity|]).
    intro t. unfold Tank.isInvincible. cbn. apply Qltb_lt.
  - now repeat split.
Qed.

Lemma X10_nextLevel_carries_over_witness :
  level engine_level2 <> 0%Z
  /\ score (fst (nextLevel Math_sin_level5 engine_level2 0 0 rand_half))
     = 700%Z
  /\ lives (fst (nextLevel Math_sin_level5 engine_level2 0 0 rand_half))
     = 2%Z.
Proof.
  assert (Hl : level engine_level2 <> 0%Z) by discriminate.
  destruct (X10_nextLevel_carries_over Math_sin_level5 engine_level2 0 0
              rand_half Hl) as [(_ & _ & Hs & Hv & _) _].
  split; [exact Hl|]. split; [exact Hs | exact Hv].
Defined.

(** ** GameEngine: what each stage of a tick leaves alone *)

Lemma move_keeps_alive (this : Tank.t) (self : nat) (dir : DIR)
  (walls : list Wall.t) (tanks : list Tank.t) :
  Tank.alive (Tank.move this self dir walls tanks) = Tank.alive this.
Proof.
  destruct (Tank.alive this) eqn:Ha.
  - rewrite (move_alive this self dir walls tanks Ha).
    destruct (turn_fields this dir) as (_ & _ & _ & Hal & _).
    destruct (Tank.blocked this self dir walls tanks); cbn; congruence.
  - rewrite (move_dead this self dir walls tanks Ha). exact Ha.
Qed.

Lemma fire_keeps_alive (this : Tank.t) (now : Q) :
  Tank.alive (fst (Tank.fire this now)) = Tank.alive this.
Proof. destruct (fire_fst this now) as [->| ->]; reflexivity. Qed.

Lemma aiRedirect_keeps_alive (enemy : Tank.t) (now : Q) (r : Rand) :
  Tank.alive (fst (aiRedirect enemy now r)) = Tank.alive enemy.
Proof. unfold aiRedirect. destruct (_ <? _); reflexivity. Qed.

Lemma replaceAt_map_alive (k : nat) (e e' : Tank.t) (es : list Tank.t) :
  nth_error es k = Some e -> Tank.alive e' = Tank.alive e ->
  map Tank.alive (replaceAt k e' es) = map Tank.alive es.
Proof.
  revert k. induction es as [|a es IH]; intros k Hk Ha.
  - now destruct k.
  - destruct k as [|k]; cbn [replaceAt map nth_error] in *.
    + injection Hk as ->. now rewrite Ha.
    + f_equal. now apply IH.
Qed.

Lemma map_alive_count (es es' : list Tank.t) :
  map Tank.alive es' = map Tank.alive es ->
  aliveCount es' = aliveCount es /\ length es' = length es.
Proof.
  revert es'. induction es as [|a es IH]; intros [|a' es'] H;
    try discriminate; [now split|].
  cbn [map] in H. injection H as Ha Hes. destruct (IH es' Hes) as [Hc Hl].
  unfold aliveCount in *. cbn [filter length]. rewrite Ha.
  destruct (Tank.alive a); cbn [length]; split; congruence.
Qed.

Lemma same_tally_refl (g : GameEngine) : same_tally g g.
Proof. now repeat split. Qed.

Lemma same_tally_trans (g1 g2 g3 : GameEngine) :
  same_tally g1 g2 -> same_tally g2 g3 -> same_tally g1 g3.
Proof.
  unfold same_tally. intros (A1 & A2 & A3 & A4 & A5 & A6 & A7)
                            (B1 & B2 & B3 & B4 & B5 & B6 & B7).
  repeat split; congruence.
Qed.

Lemma pushBullet_same (g : GameEngine) (ob : option Bullet.t) :
  same_tally g (pushBullet g ob)
  /\ totalEnemiesSpawned (pushBullet g ob) = totalEnemiesSpawned g
  /\ player (pushBullet g ob) = player g
  /\ enemies (pushBullet g ob) = enemies g.
Proof. destruct ob; now repeat split. Qed.

Lemma handlePlayerInput_same (g : GameEngine) (now : Q) :
  same_tally g (_handlePlayerInput g now)
  /\ totalEnemiesSpawned (_handlePlayerInput g now) = totalEnemiesSpawned g
  /\ enemies (_handlePlayerInput g now) = enemies g.
Proof.
  unfold _handlePlayerInput.
  destruct (player g) as [p|]; [|now repeat split].
  destruct (negb (Tank.alive p)); [now repeat split|].
  destruct (fire (keys g)); [|now repeat split].
  destruct (Tank.fire _ now) as [p2 ob].
  destruct ob; now repeat split.
Qed.

Lemma enemyRedirect_same (k : nat) (now : Q) (g : GameEngine) (r : Rand) :
  same_tally g (fst (enemyRedirect k now g r))
  /\ totalEnemiesSpawned (fst (enemyRedirect k now g r))
     = totalEnemiesSpawned g
  /\ player (fst (enemyRedirect k now g r)) = player g
  /\ bullets (fst (enemyRedirect k now g r)) = bullets g.
Proof.
  unfold enemyRedirect.
  destruct (nth_error (enemies g) k) as [enemy|] eqn:Ek; [|now repeat split].
  destruct (negb (Tank.alive enemy)); [now repeat split|].
  pose proof (aiRedirect_keeps_alive enemy now r) as Ha.
  destruct (aiRedirect enemy now r) as [e1 r1]. cbn [fst] in *.
  unfold same_tally.
  cbn [state score lives level enemiesDestroyed walls enemies
       totalEnemiesSpawned player bullets set_enemies].
  rewrite (replaceAt_map_alive k enemy e1 (enemies g) Ek Ha).
  now repeat split.
Qed.

Lemma enemyAdvance_same (k : nat) (now : Q) (g : GameEngine) (r : Rand) :
  same_tally g (fst (enemyAdvance k now g r))
  /\ totalEnemiesSpawned (fst (enemyAdvance k now g r))
     = totalEnemiesSpawned g
  /\ player (fst (enemyAdvance k now g r)) = player g
  /\ exists fired, bullets (fst (enemyAdvance k now g r))
                   = bullets g ++ fired.
Proof.
  unfold enemyAdvance.
  destruct (nth_error (enemies g) k) as [enemy|] eqn:Ek;
    [|split; [apply same_tally_refl|]; split; [reflexivity|];
      split; [reflexivity|]; exists []; now rewrite app_nil_r].
  destruct (negb (Tank.alive enemy));
    [split; [apply same_tally_refl|]; split; [reflexivity|];
     split; [reflexivity|]; exists []; now rewrite app_nil_r|].
  pose proof (move_keeps_alive enemy (enemyIndex g k) (Tank.direction enemy)
                (walls g) (allTanks g)) as Hm.
  set (e2 := Tank.move enemy _ _ _ _) in *.
  destruct (Math_random r) as [w r2].
  assert (H3 : Tank.alive (fst (if w <? 0.02 then Tank.fire e2 now
                                else (e2, None))) = Tank.alive enemy).
  { destruct (w <? 0.02); [rewrite fire_keeps_alive|]; exact Hm. }
  destruct (if w <? 0.02 then Tank.fire e2 now else (e2, None)) as [e3 ob].
  cbn [fst] in *.
  pose proof (replaceAt_map_alive k enemy e3 (enemies g) Ek H3) as Hmap.
  destruct ob as [bullet|]; unfold same_tally, pushBullet;
    cbn [state score lives level enemiesDestroyed walls enemies bullets
         totalEnemiesSpawned player set_enemies set_bullets];
    rewrite Hmap.
  - repeat split. now exists [ bullet ].
  - repeat split. exists []. now rewrite app_nil_r.
Qed.

Lemma enemyStep_same (k : nat) (now : Q) (g : GameEngine) (r : Rand) :
  same_tally g (fst (enemyStep k now g r))
  /\ totalEnemiesSpawned (fst (enemyStep k now g r)) = totalEnemiesSpawned g
  /\ player (fst (enemyStep k now g r)) = player g
  /\ exists fired, bullets (fst (enemyStep k now g r)) = bullets g ++ fired.
Proof.
  unfold enemyStep.
  destruct (enemyRedirect_same k now g r) as (A1 & A2 & A3 & A4).
  destruct (enemyRedirect k now g r) as [g1 r1]. cbn [fst] in *.
  destruct (enemyAdvance_same k now g1 r1) as (B1 & B2 & B3 & f1 & B4).
  split; [eapply same_tally_trans; eassumption|].
  split; [now rewrite B2, A2|]. split; [now rewrite B3, A3|].
  exists f1. now rewrite B4, A4.
Qed.

Lemma updateEnemyAI_same (g : GameEngine) (now : Q) (r : Rand) :
  same_tally g (fst (_updateEnemyAI g now r))
  /\ totalEnemiesSpawned (fst (_updateEnemyAI g now r))
     = totalEnemiesSpawned g
  /\ player (fst (_updateEnemyAI g now r)) = player g
  /\ exists fired, bullets (fst (_updateEnemyAI g now r))
                   = bullets g ++ fired.
Proof.
  unfold _updateEnemyAI. generalize (seq 0 (length (enemies g))).
  intro ks. revert g r. induction ks as [|k ks IH]; intros g r.
  - cbn [fold_left fst].
    split; [apply same_tally_refl|]. split; [reflexivity|].
    split; [reflexivity|]. exists []. now rewrite app_nil_r.
  - cbn [fold_left fst snd].
    destruct (enemyStep_same k now g r) as (A1 & A2 & A3 & f1 & A4).
    destruct (enemyStep k now g r) as [g1 r1]. cbn [fst] in *.
    destruct (IH g1 r1) as (K1 & K2 & K3 & f2 & K4).
    split; [eapply same_tally_trans; eassumption|].
    split; [now rewrite K2, A2|]. split; [now rewrite K3, A3|].
    exists (f1 ++ f2). rewrite K4, A4. now rewrite app_assoc.
Qed.

(** ** GameEngine: the tally of a level *)

Lemma aliveCount_app (a b : list Tank.t) :
  aliveCount (a ++ b) = (aliveCount a + aliveCount b)%nat.
Proof. unfold aliveCount. now rewrite filter_app, length_app. Qed.

Lemma aliveCount_filter (es : list Tank.t) :
  aliveCount (filter Tank.alive es) = aliveCount es
  /\ (length (filter Tank.alive es) <= length es)%nat.
Proof.
  split; [|apply filter_length_le].
  unfold aliveCount. induction es as [|e es IH]; [reflexivity|].
  cbn [filter]. destruct (Tank.alive e) eqn:E; cbn [filter]; rewrite ?E;
    cbn [length]; congruence.
Qed.

Lemma enemyHit_count (bb : Rect) (es : list Tank.t) :
  forall hit es', enemyHit bb es = Some (hit, es') ->
    aliveCount es = S (aliveCount es') /\ length es' = length es
    /\ Tank.alive hit = true /\ In hit es
    /\ rectsOverlap bb (Tank.getBounds hit) = true.
Proof.
  induction es as [|e rest IH]; intros hit es'; cbn [enemyHit];
    [discriminate|].
  destruct (Tank.alive e && rectsOverlap bb (Tank.getBounds e)) eqn:E.
  - intros [= <- <-]. apply andb_true_iff in E. destruct E as [Ea Eo].
    unfold aliveCount. cbn [filter Tank.alive Tank.set_alive length].
    rewrite Ea. cbn [length]. repeat split; try assumption. now left.
  - destruct (enemyHit bb rest) as [[h r']|]; [|discriminate].
    intros [= <- <-]. destruct (IH h r' eq_refl) as (Hc & Hl & Ha & Hi & Ho).
    unfold aliveCount in *. cbn [filter length].
    destruct (Tank.alive e); cbn [length];
      (split; [lia|]); (split; [lia|]);
      (split; [assumption|]); (split; [now right | assumption]).
Qed.

Lemma pass_tally_refl (g : GameEngine) : pass_tally g g.
Proof. unfold pass_tally. repeat split; lia. Qed.

Lemma pass_tally_trans (g1 g2 g3 : GameEngine) :
  pass_tally g1 g2 -> pass_tally g2 g3 -> pass_tally g1 g3.
Proof.
  unfold pass_tally. intros (A1 & A2 & A3 & A4 & A5 & A6 & A7)
                            (B1 & B2 & B3 & B4 & B5 & B6 & B7).
  repeat split; lia.
Qed.

Lemma bulletVsWalls_pass (g : GameEngine) (bullet : Bullet.t) :
  pass_tally g (fst (bulletVsWalls g bullet)).
Proof.
  unfold bulletVsWalls.
  destruct (wallHit _ (walls g)) as [[w ws']|]; [|apply pass_tally_refl].
  destruct (Wall.destructible w); unfold pass_tally;
    cbn [fst totalEnemiesSpawned level enemies enemiesDestroyed score lives
         _addExplosion set_explosions set_walls];
    repeat split; lia.
Qed.

Lemma bulletVsEnemies_pass (g : GameEngine) (bb : Rect) (bullet : Bullet.t) :
  pass_tally g (fst (bulletVsEnemies g bb bullet)).
Proof.
  unfold bulletVsEnemies.
  destruct (Bullet.isPlayerBullet bullet); [|apply pass_tally_refl].
  destruct (enemyHit bb (enemies g)) as [[e es']|] eqn:E;
    [|apply pass_tally_refl].
  destruct (enemyHit_count bb (enemies g) e es' E) as (Hc & Hl & _).
  unfold pass_tally.
  cbn [fst totalEnemiesSpawned level enemies enemiesDestroyed score lives
       _addExplosion set_explosions set_enemiesDestroyed set_score
       set_enemies].
  repeat split; lia.
Qed.

Lemma bulletVsPlayer_pass (g : GameEngine) (bb : Rect) (bullet : Bullet.t)
  (now : Q) :
  pass_tally g (fst (bulletVsPlayer g bb bullet now)).
Proof.
  unfold bulletVsPlayer.
  destruct (negb (Bullet.isPlayerBullet bullet)); [|apply pass_tally_refl].
  destruct (player g) as [p|]; [|apply pass_tally_refl].
  destruct (Tank.alive p); [|apply pass_tally_refl].
  destruct (_ && _); [|apply pass_tally_refl].
  cbn [fst]. unfold playerHit. cbv zeta.
  destruct (_ <=? _)%Z; unfold pass_tally;
    cbn [totalEnemiesSpawned level enemies enemiesDestroyed score lives
         _addExplosion set_explosions set_lives set_player set_state];
    repeat split; lia.
Qed.

Lemma checkBullet_pass (now : Q) (g : GameEngine) (bullet : Bullet.t) :
  pass_tally g (fst (checkBullet now g bullet)).
Proof.
  unfold checkBullet.
  destruct (negb (Bullet.alive bullet)); [apply pass_tally_refl|].
  pose proof (bulletVsWalls_pass g bullet) as H1.
  destruct (bulletVsWalls g bullet) as [g1 b1]. cbn [fst] in H1.
  destruct (negb (Bullet.alive b1)); [exact H1|].
  pose proof (bulletVsEnemies_pass g1 (Bullet.getBounds bullet) b1) as H2.
  destruct (bulletVsEnemies g1 (Bullet.getBounds bullet) b1) as [g2 b2].
  cbn [fst] in H2.
  pose proof (bulletVsPlayer_pass g2 (Bullet.getBounds bullet) b2 now) as H3.
  eapply pass_tally_trans; [|exact H3].
  eapply pass_tally_trans; eassumption.
Qed.

Lemma checkBullets_pass (now : Q) (bs : list Bullet.t) :
  forall g, pass_tally g (fst (checkBullets now g bs)).
Proof.
  induction bs as [|b rest IH]; intro g; [apply pass_tally_refl|].
  cbn [checkBullets].
  pose proof (checkBullet_pass now g b) as H1.
  destruct (checkBullet now g b) as [g1 b1]. cbn [fst] in H1.
  specialize (IH g1). destruct (checkBullets now g1 rest) as [g2 rest'].
  cbn [fst] in *. eapply pass_tally_trans; eassumption.
Qed.

Lemma checkCollisions_pass (g : GameEngine) (now : Q) :
  pass_tally g (_checkCollisions g now).
Proof.
  unfold _checkCollisions.
  pose proof (checkBullets_pass now (bullets g) g) as H.
  destruct (checkBullets now g (bullets g)) as [g1 bs]. exact H.
Qed.

Lemma tally_ok_same (g g' : GameEngine) :
  same_tally g g' -> totalEnemiesSpawned g' = totalEnemiesSpawned g ->
  tally_ok g -> tally_ok g'.
Proof.
  intros (_ & _ & Hl & _ & Hd & _ & Hm) Ht (T1 & T2 & T3 & T4 & T5).
  destruct (map_alive_count _ _ Hm) as [Hc Hlen].
  unfold tally_ok. rewrite Hl, Hd, Ht, Hc, Hlen. now repeat split.
Qed.

Lemma tally_ok_pass (g g' : GameEngine) :
  pass_tally g g' -> tally_ok g -> tally_ok g'.
Proof.
  intros (A1 & A2 & A3 & A4 & A5 & A6 & A7) (T1 & T2 & T3 & T4 & T5).
  unfold tally_ok. repeat split; lia.
Qed.

Lemma spawnEnemies_tally (g : GameEngine) (now : Q) (r : Rand) :
  tally_ok g -> tally_ok (fst (_spawnEnemies g now r)).
Proof.
  intros Hok. pose proof Hok as (T1 & T2 & T3 & T4 & T5).
  unfold _spawnEnemies.
  destruct (ENEMIES_PER_LEVEL <=? totalEnemiesSpawned g)%Z eqn:E1;
    [exact Hok|].
  destruct (MAX_ENEMIES <=? length (enemies g))%nat eqn:E2; [exact Hok|].
  destruct (_ <? _); [exact Hok|].
  destruct (spawnPoint (set_lastEnemySpawnTime g now)) as [sp|];
    [|exact Hok].
  destruct (spawnBlocked _ sp); [exact Hok|].
  destruct (Math_random r) as [u r1]. apply Z.leb_gt in E1.
  apply Nat.leb_gt in E2. unfold tally_ok.
  cbn [fst enemiesDestroyed enemies totalEnemiesSpawned lives
       set_totalEnemiesSpawned set_enemies set_lastEnemySpawnTime].
  rewrite aliveCount_app, length_app.
  unfold aliveCount at 2. cbn [filter Tank.alive Tank.new
                                Tank.set_aiDirectionTimer length].
  repeat split; lia.
Qed.

Lemma cleanup_tally (g : GameEngine) : tally_ok g -> tally_ok (cleanup g).
Proof.
  intros (T1 & T2 & T3 & T4 & T5).
  destruct (aliveCount_filter (enemies g)) as [Hc Hl].
  unfold tally_ok, cleanup.
  cbn [enemiesDestroyed enemies totalEnemiesSpawned lives set_bullets
       set_enemies set_walls set_explosions].
  rewrite Hc. repeat split; lia.
Qed.

Section Tally.

Variable Math_sin : Q -> Q.

Lemma reachable_tally (g : GameEngine) :
  reachable Math_sin g -> tally_ok g.
Proof.
  induction 1 as [ | g lvl t1 t2 r _ IH | g _ IH | g k _ IH | g now _ IH
                 | g k now r _ IH | g k now r _ IH | g now r _ IH | g _ IH
                 | g now _ IH | g _ IH | g _ IH | g _ IH ].
  - unfold tally_ok. cbn.
    unfold ENEMIES_PER_LEVEL, MAX_ENEMIES, PLAYER_MAX_LIVES.
    split; [|split; [|split; [|split]]]; lia.
  - destruct (startGame_fields Math_sin g lvl t1 t2 r)
      as (_ & _ & _ & Hl & Hd & Ht & He & _).
    cbv zeta in *. unfold tally_ok. rewrite Hl, Hd, Ht, He.
    destruct IH as (_ & _ & _ & _ & T5).
    destruct (lvl =? 1)%Z; cbn;
      unfold ENEMIES_PER_LEVEL, MAX_ENEMIES, PLAYER_MAX_LIVES in *;
      (split; [|split; [|split; [|split]]]); lia.
  - unfold togglePause. destruct (state g); exact IH.
  - exact IH.
  - destruct (handlePlayerInput_same g now) as (A & B & _).
    exact (tally_ok_same _ _ A B IH).
  - destruct (enemyRedirect_same k now g r) as (A & B & _).
    exact (tally_ok_same _ _ A B IH).
  - destruct (enemyAdvance_same k now g r) as (A & B & _).
    exact (tally_ok_same _ _ A B IH).
  - now apply spawnEnemies_tally.
  - exact IH.
  - exact (tally_ok_pass _ _ (checkCollisions_pass g now) IH).
  - now apply cleanup_tally.
  - exact IH.
  - unfold checkLevelClear. destruct (_ <=? _)%Z; exact IH.
Qed.

(** X11.  In every state the engine passes through, each enemy spawned
    this level is either alive in the enemy list or counted in
    [enemiesDestroyed]; never more than [ENEMIES_PER_LEVEL] are spawned nor
    more than [MAX_ENEMIES] on the field; and the lives never exceed
    [PLAYER_MAX_LIVES]. *)
Theorem X11_level_tally (g : GameEngine) :
  reachable Math_sin g ->
  (enemiesDestroyed g + Z.of_nat (aliveCount (enemies g))
   = totalEnemiesSpawned g)%Z
  /\ (0 <= enemiesDestroyed g <= totalEnemiesSpawned g)%Z
  /\ (totalEnemiesSpawned g <= ENEMIES_PER_LEVEL)%Z
  /\ (length (enemies g) <= MAX_ENEMIES)%nat
  /\ (lives g <= PLAYER_MAX_LIVES)%Z.
Proof.
  intro H. destruct (reachable_tally g H) as (T1 & T2 & T3 & T4 & T5).
  repeat split; try assumption; lia.
Qed.

(** X12.  What [_notifyStateChange] reports in any state the engine
    passes through: the engine's state, score, lives and level as they
    are, and as the number of enemies left [ENEMIES_PER_LEVEL] less the
    kills; that number is between 0 and [ENEMIES_PER_LEVEL], it is 0
    exactly when the quota is destroyed, and the lives reported are at
    most [PLAYER_MAX_LIVES]. *)
Theorem X12_notified_info (g : GameEngine) :
  reachable Math_sin g ->
  let info := _notifyStateChange g in
  (0 <= info_enemiesLeft info <= ENEMIES_PER_LEVEL)%Z
  /\ (info_enemiesLeft info = 0%Z
      <-> enemiesDestroyed g = ENEMIES_PER_LEVEL)
  /\ info_enemiesLeft info = (ENEMIES_PER_LEVEL - enemiesDestroyed g)%Z
  /\ info_lives info = lives g
  /\ (info_lives info <= PLAYER_MAX_LIVES)%Z
  /\ info_state info = state g /\ info_score info = score g
  /\ info_level info = level g.
Proof.
  intro H. destruct (reachable_tally g H) as (T1 & T2 & T3 & T4 & T5).
  cbv zeta. unfold _notifyStateChange.
  cbn [info_enemiesLeft info_lives info_state info_score info_level].
  split; [unfold ENEMIES_PER_LEVEL in *; lia|].
  split; [unfold ENEMIES_PER_LEVEL in *; split; lia|].
  split; [reflexivity|]. split; [reflexivity|]. split; [exact T5|].
  split; [reflexivity|]. split; reflexivity.
Qed.

End Tally.

Lemma X11_level_tally_witness :
  reachable Math_sin_level5 engine_started
  /\ (lives engine_started <= PLAYER_MAX_LIVES)%Z
  /\ (totalEnemiesSpawned engine_started <= ENEMIES_PER_LEVEL)%Z.
Proof.
  assert (Hr : reachable Math_sin_level5 engine_started)
    by (apply reach_startGame, reach_new).
  destruct (X11_level_tally Math_sin_level5 engine_started Hr)
    as (_ & _ & H3 & _ & H5).
  split; [exact Hr|]. split; [exact H5 | exact H3].
Defined.

Lemma X12_notified_info_witness :
  reachable Math_sin_level5 engine_started
  /\ (0 <= info_enemiesLeft (_notifyStateChange engine_started)
      <= ENEMIES_PER_LEVEL)%Z.
Proof.
  assert (Hr : reachable Math_sin_level5 engine_started)
    by (apply reach_startGame, reach_new).
  destruct (X12_notified_info Math_sin_level5 engine_started Hr) as (H1 & _).
  split; [exact Hr | exact H1].
Defined.

(** ** _checkCollisions: the player *)

Lemma respawned_invincible (p : Tank.t) (now : Q) :
  Tank.isInvincible (respawned p now) now = true
  /\ Tank.alive (respawned p now) = Tank.alive p.
Proof.
  split; [|reflexivity]. unfold Tank.isInvincible, respawned. cbn.
  apply Qltb_lt. lra.
Qed.

Lemma checkBullet_player (now : Q) (g : GameEngine) (bullet : Bullet.t) :
  playerOutcome g (fst (checkBullet now g bullet)) now.
Proof.
  unfold checkBullet.
  destruct (negb (Bullet.alive bullet)); [left; now repeat split|].
  pose proof (bulletVsWalls_frame g bullet) as Hw. cbv zeta in Hw.
  destruct (bulletVsWalls g bullet) as [g1 b1]. cbn [fst] in Hw.
  destruct Hw as (Hl & Hp & Hs & _).
  destruct (negb (Bullet.alive b1)); [left; now repeat split|].
  assert (He : let g2 := fst (bulletVsEnemies g1 (Bullet.getBounds bullet) b1)
               in lives g2 = lives g1 /\ player g2 = player g1
                  /\ state g2 = state g1).
  { unfold bulletVsEnemies.
    destruct (Bullet.isPlayerBullet b1); [|now repeat split].
    destruct (enemyHit _ (enemies g1)) as [[e es']|]; now repeat split. }
  cbv zeta in He.
  destruct (bulletVsEnemies g1 (Bullet.getBounds bullet) b1) as [g2 b2].
  cbn [fst] in He. destruct He as (Hl2 & Hp2 & Hs2).
  unfold bulletVsPlayer.
  destruct (negb (Bullet.isPlayerBullet b2));
    [|left; cbn [fst]; repeat split; congruence].
  destruct (player g2) as [p|] eqn:Ep;
    [|left; cbn [fst]; repeat split; congruence].
  destruct (Tank.alive p) eqn:Ea;
    [|left; cbn [fst]; repeat split; congruence].
  destruct (negb (Tank.isInvincible p now)) eqn:Ei; cbn [andb];
    [|left; cbn [fst]; repeat split; congruence].
  destruct (rectsOverlap _ (Tank.getBounds p));
    [|left; cbn [fst]; repeat split; congruence].
  apply negb_true_iff in Ei. right. cbn [fst].
  assert (Epg : player g = Some p) by congruence.
  unfold playerHit. cbv zeta.
  cbn [lives set_lives _addExplosion set_explosions].
  destruct (lives g2 - 1 <=? 0)%Z eqn:El;
    cbn [lives state player set_state set_player set_lives _addExplosion
         set_explosions].
  - split; [lia|]. exists p. repeat (split; [assumption|]). left.
    apply Z.leb_le in El. now repeat split.
  - split; [lia|]. exists p. repeat (split; [assumption|]). right.
    apply Z.leb_gt in El. split; [lia|]. split; [congruence | reflexivity].
Qed.

Lemma checkBullet_dead_player (now : Q) (g : GameEngine) (bullet : Bullet.t)
  (p : Tank.t) :
  player g = Some p -> Tank.alive p = false ->
  let g1 := fst (checkBullet now g bullet) in
  lives g1 = lives g /\ player g1 = Some p /\ state g1 = state g.
Proof.
  intros Hp Ha.
  destruct (checkBullet_player now g bullet) as [(H1 & H2 & H3)|(_ & q & Hq & Hqa & _)].
  - cbv zeta. now rewrite H1, H2, H3.
  - congruence.
Qed.

Lemma checkBullets_dead_player (now : Q) (p : Tank.t) (bs : list Bullet.t) :
  Tank.alive p = false ->
  forall g, player g = Some p ->
    let g1 := fst (checkBullets now g bs) in
    lives g1 = lives g /\ player g1 = Some p /\ state g1 = state g.
Proof.
  intro Ha. induction bs as [|b rest IH]; intros g Hp; [now repeat split|].
  cbn [checkBullets].
  pose proof (checkBullet_dead_player now g b p Hp Ha) as H1.
  cbv zeta in H1. destruct (checkBullet now g b) as [g1 b1].
  cbn [fst] in H1. destruct H1 as (Hl & Hp1 & Hs).
  specialize (IH g1 Hp1). cbv zeta in IH.
  destruct (checkBullets now g1 rest) as [g2 rest']. cbn [fst] in *.
  destruct IH as (Hl2 & Hp2 & Hs2). rewrite Hl2, Hl, Hs2, Hs.
  now repeat split.
Qed.

Lemma checkBullets_player (now : Q) (bs : list Bullet.t) :
  forall g, playerOutcome g (fst (checkBullets now g bs)) now.
Proof.
  induction bs as [|b rest IH]; intro g; [left; now repeat split|].
  cbn [checkBullets].
  pose proof (checkBullet_player now g b) as H1.
  destruct (checkBullet now g b) as [g1 b1]. cbn [fst] in H1.
  pose proof (IH g1) as H2.
  pose proof (checkBullets_dead_player now) as Hdead.
  pose proof (checkBullets_invincible now) as Hinv.
  destruct (checkBullets now g1 rest) as [g2 rest'] eqn:E2. cbn [fst] in *.
  destruct H1 as [(Hl & Hp & Hs)|(Hl & p & Hp & Ha & Hi & Hcase)].
  - destruct H2 as [(Hl2 & Hp2 & Hs2)|(Hl2 & q & Hq & Hqa & Hqi & Hc2)].
    + left. repeat split; congruence.
    + right. split; [lia|]. exists q. rewrite <- Hp, <- Hs.
      repeat (split; [assumption|]). exact Hc2.
  - right.
    assert (Hkeep : lives g2 = lives g1 /\ player g2 = player g1
                    /\ state g2 = state g1).
    { destruct Hcase as [(_ & _ & Hp1)|(_ & _ & Hp1)].
      - specialize (Hdead (Tank.set_alive p false) rest eq_refl g1 Hp1).
        rewrite E2 in Hdead. cbn [fst] in Hdead.
        destruct Hdead as (A & B & C). rewrite A, B, C, Hp1. now repeat split.
      - destruct (respawned_invincible p now) as [Ri Ra]. rewrite Ha in Ra.
        specialize (Hinv (respawned p now) rest Ra Ri g1 Hp1).
        rewrite E2 in Hinv. cbn [fst] in Hinv.
        destruct Hinv as (A & B & C). rewrite A, B, C, Hp1. now repeat split. }
    destruct Hkeep as (K1 & K2 & K3). rewrite K1, K2, K3.
    split; [exact Hl|]. exists p. repeat (split; [assumption|]). exact Hcase.
Qed.

Lemma checkCollisions_player (g : GameEngine) (now : Q) :
  playerOutcome g (_checkCollisions g now) now.
Proof.
  unfold _checkCollisions.
  pose proof (checkBullets_player now (bullets g) g) as H.
  destruct (checkBullets now g (bullets g)) as [g1 bs]. exact H.
Qed.

(** X13.  One collision pass takes at most one life, however many enemy
    bullets are on the player: either lives, player and state are
    untouched, or the player, alive and not invincible, is hit exactly
    once.  A hit that leaves no life ends the game with the player dead; a
    hit that leaves one puts the player back on its spawn point, facing
    up, invincible exactly until 2000 after the tick, the state
    unchanged. *)
Theorem X13_one_hit_per_pass (g : GameEngine) (now : Q) :
  let g' := _checkCollisions g now in
  (lives g' = lives g /\ player g' = player g /\ state g' = state g)
  \/ (lives g' = (lives g - 1)%Z
      /\ exists p,
           player g = Some p /\ Tank.alive p = true
           /\ Tank.isInvincible p now = false
           /\ (((lives g' <= 0)%Z /\ state g' = GAME_OVER
                /\ player g' = Some (Tank.set_alive p false))
               \/ ((0 < lives g')%Z /\ state g' = state g
                   /\ exists p',
                        player g' = Some p'
                        /\ Tank.x p' = fst getPlayerSpawn
                        /\ Tank.y p' = snd getPlayerSpawn
                        /\ Tank.direction p' = UP
                        /\ Tank.alive p' = true
                        /\ forall t, Tank.isInvincible p' t = true
                                     <-> t < now + 2000))).
Proof.
  cbv zeta.
  destruct (checkCollisions_player g now)
    as [H|(Hl & p & Hp & Ha & Hi & [Hc|(Hpos & Hs & Hp')])].
  - now left.
  - right. split; [exact Hl|]. exists p. repeat (split; [assumption|]).
    now left.
  - right. split; [exact Hl|]. exists p. repeat (split; [assumption|]).
    right. split; [exact Hpos|]. split; [exact Hs|].
    exists (respawned p now). split; [exact Hp'|].
    do 3 (split; [reflexivity|]). split; [exact Ha|].
    intro t. unfold Tank.isInvincible, respawned. cbn. apply Qltb_lt.
Qed.

(** X14.  Friendly fire is excluded by the owner flag alone: whatever a
    player bullet overlaps, the iteration that handles it leaves lives,
    player and state as they were; whatever an enemy bullet overlaps, the
    iteration leaves the enemies, the score and the kill counter as they
    were. *)
Theorem X14_no_friendly_fire (now : Q) (g : GameEngine) (bullet : Bullet.t) :
  let g1 := fst (checkBullet now g bullet) in
  (Bullet.isPlayerBullet bullet = true ->
     lives g1 = lives g /\ player g1 = player g /\ state g1 = state g)
  /\ (Bullet.isPlayerBullet bullet = false ->
      enemies g1 = enemies g /\ score g1 = score g
      /\ enemiesDestroyed g1 = enemiesDestroyed g).
Proof.
  cbv zeta. unfold checkBullet.
  destruct (negb (Bullet.alive bullet)); [now repeat split|].
  assert (Hw : let s := bulletVsWalls g bullet in
               lives (fst s) = lives g /\ player (fst s) = player g
               /\ state (fst s) = state g /\ enemies (fst s) = enemies g
               /\ score (fst s) = score g
               /\ enemiesDestroyed (fst s) = enemiesDestroyed g
               /\ Bullet.isPlayerBullet (snd s)
                  = Bullet.isPlayerBullet bullet).
  { unfold bulletVsWalls.
    destruct (wallHit _ (walls g)) as [[w ws']|]; [|now repeat split].
    destruct (Wall.destructible w); now repeat split. }
  cbv zeta in Hw. destruct (bulletVsWalls g bullet) as [g1 b1].
  cbn [fst snd] in Hw. destruct Hw as (W1 & W2 & W3 & W4 & W5 & W6 & W7).
  destruct (negb (Bullet.alive b1)); cbn [fst]; [now repeat split|].
  unfold bulletVsEnemies, bulletVsPlayer. rewrite <- W7.
  destruct (Bullet.isPlayerBullet b1) eqn:Eb.
  - split; [intros _|discriminate].
    destruct (enemyHit _ (enemies g1)) as [[e es']|];
      cbn [Bullet.isPlayerBullet Bullet.set_alive]; rewrite Eb;
      cbn [negb fst lives player state _addExplosion set_explosions
           set_enemiesDestroyed set_score set_enemies];
      now repeat split.
  - split; [discriminate|intros _]. rewrite Eb. cbn [negb].
    destruct (player g1) as [p|]; [|now repeat split].
    destruct (Tank.alive p); [|now repeat split].
    destruct (_ && _); [|now repeat split].
    cbn [fst]. unfold playerHit. cbv zeta.
    destruct (_ <=? _)%Z;
      cbn [enemies score enemiesDestroyed set_state set_player set_lives
           _addExplosion set_explosions];
      now repeat split.
Qed.

(** ** _checkCollisions: the walls *)

Lemma wallFate_refl (ws : list Wall.t) : Forall2 wallFate ws ws.
Proof. induction ws; constructor; [now left | assumption]. Qed.

Lemma wallFate_trans (ws1 ws2 ws3 : list Wall.t) :
  Forall2 wallFate ws1 ws2 -> Forall2 wallFate ws2 ws3 ->
  Forall2 wallFate ws1 ws3.
Proof.
  intro H. revert ws3. induction H as [|a b l1 l2 Hab _ IH]; intros ws3 H3.
  - inversion H3. constructor.
  - inversion H3 as [|b' c l2' l3 Hbc Hrest]; subst. constructor.
    + destruct Hab as [->|(-> & Ha & Hd)]; [exact Hbc|].
      destruct Hbc as [->|(-> & Ha' & _)].
      * right. now repeat split.
      * cbn in Ha'. discriminate.
    + now apply IH.
Qed.

Lemma wallHit_fate (bb : Rect) (ws : list Wall.t) :
  forall hit ws', wallHit bb ws = Some (hit, ws') ->
    Forall2 wallFate ws ws' /\ In hit ws /\ Wall.alive hit = true
    /\ rectsOverlap bb (Wall.getBounds hit) = true.
Proof.
  induction ws as [|w rest IH]; intros hit ws'; cbn [wallHit];
    [discriminate|].
  destruct (Wall.alive w && rectsOverlap bb (Wall.getBounds w)) eqn:E.
  - intros [= <- <-]. apply andb_true_iff in E. destruct E as [Ea Eo].
    split; [|split; [now left | now split]].
    constructor; [|apply wallFate_refl].
    destruct (Wall.destructible w) eqn:Ed; [right; now repeat split|now left].
  - destruct (wallHit bb rest) as [[h r']|]; [|discriminate].
    intros [= <- <-]. destruct (IH h r' eq_refl) as (H1 & H2 & H3 & H4).
    split; [constructor; [now left | exact H1]|].
    split; [now right | now split].
Qed.

Lemma checkBullet_walls (now : Q) (g : GameEngine) (bullet : Bullet.t) :
  Forall2 wallFate (walls g) (walls (fst (checkBullet now g bullet))).
Proof.
  unfold checkBullet.
  destruct (negb (Bullet.alive bullet)); [apply wallFate_refl|].
  assert (H1 : Forall2 wallFate (walls g)
                 (walls (fst (bulletVsWalls g bullet)))).
  { unfold bulletVsWalls.
    destruct (wallHit _ (walls g)) as [[w ws']|] eqn:E;
      [|apply wallFate_refl].
    destruct (wallHit_fate _ _ _ _ E) as [Hf _].
    destruct (Wall.destructible w); exact Hf. }
  destruct (bulletVsWalls g bullet) as [g1 b1]. cbn [fst] in H1.
  destruct (negb (Bullet.alive b1)); [exact H1|].
  assert (H2 : walls (fst (bulletVsEnemies g1 (Bullet.getBounds bullet) b1))
               = walls g1).
  { unfold bulletVsEnemies. destruct (Bullet.isPlayerBullet b1);
      [|reflexivity].
    destruct (enemyHit _ (enemies g1)) as [[e es']|]; reflexivity. }
  destruct (bulletVsEnemies g1 (Bullet.getBounds bullet) b1) as [g2 b2].
  cbn [fst] in H2.
  assert (H3 : walls (fst (bulletVsPlayer g2 (Bullet.getBounds bullet) b2 now))
               = walls g2).
  { unfold bulletVsPlayer. destruct (negb _); [|reflexivity].
    destruct (player g2) as [p|]; [|reflexivity].
    destruct (Tank.alive p); [|reflexivity].
    destruct (_ && _); [|reflexivity].
    cbn [fst]. unfold playerHit. cbv zeta.
    destruct (_ <=? _)%Z; reflexivity. }
  rewrite H3, H2. exact H1.
Qed.

Lemma checkBullets_walls (now : Q) (bs : list Bullet.t) :
  forall g, Forall2 wallFate (walls g) (walls (fst (checkBullets now g bs))).
Proof.
  induction bs as [|b rest IH]; intro g; [apply wallFate_refl|].
  cbn [checkBullets].
  pose proof (checkBullet_walls now g b) as H1.
  destruct (checkBullet now g b) as [g1 b1]. cbn [fst] in H1.
  specialize (IH g1). destruct (checkBullets now g1 rest) as [g2 rest'].
  cbn [fst] in *. eapply wallFate_trans; eassumption.
Qed.

Lemma checkCollisions_walls (g : GameEngine) (now : Q) :
  Forall2 wallFate (walls g) (walls (_checkCollisions g now)).
Proof.
  unfold _checkCollisions.
  pose proof (checkBullets_walls now (bullets g) g) as H.
  destruct (checkBullets now g (bullets g)) as [g1 bs]. exact H.
Qed.

(** X15.  The collision pass never adds, removes, moves or retypes a
    wall: wall by wall, in list order, it either leaves the wall as it was
    or clears the alive flag of a wall that was alive and destructible.
    So a STEEL-like wall (not destructible) comes out as it went in, and
    a dead wall stays dead. *)
Theorem X15_walls_under_fire (g : GameEngine) (now : Q) :
  let g' := _checkCollisions g now in
  Forall2 wallFate (walls g) (walls g')
  /\ length (walls g') = length (walls g)
  /\ forall i w, nth_error (walls g) i = Some w ->
       exists w', nth_error (walls g') i = Some w'
                  /\ Wall.x w' = Wall.x w /\ Wall.y w' = Wall.y w
                  /\ Wall.size w' = Wall.size w /\ Wall.type w' = Wall.type w
                  /\ (Wall.destructible w = false -> w' = w)
                  /\ (Wall.alive w = false -> w' = w).
Proof.
  cbv zeta. pose proof (checkCollisions_walls g now) as H.
  split; [exact H|]. split; [symmetry; exact (Forall2_length H)|].
  generalize dependent (walls (_checkCollisions g now)).
  induction (walls g) as [|a l IH]; intros l' H i w Hi.
  - now destruct i.
  - inversion H as [|a0 b l0 l1 Hab Hrest]; subst.
    destruct i as [|i]; cbn [nth_error] in *.
    + injection Hi as <-. exists b. split; [reflexivity|].
      destruct Hab as [->|(-> & Ha & Hd)]; cbn.
      * now repeat split.
      * repeat split; try reflexivity; congruence.
    + now apply IH.
Qed.

(** ** update: one tick *)

Lemma update_playing (g : GameEngine) (now : Q) (r : Rand) :
  state g = PLAYING ->
  update g now r
  = (checkLevelClear
       (updateExplosions
          (cleanup
             (_checkCollisions
                (updateBullets
                   (fst (_spawnEnemies
                           (fst (_updateEnemyAI (_handlePlayerInput g now)
                                                now r))
                           now
                           (snd (_updateEnemyAI (_handlePlayerInput g now)
                                                now r)))))
                now))),
     snd (_spawnEnemies
            (fst (_updateEnemyAI (_handlePlayerInput g now) now r)) now
            (snd (_updateEnemyAI (_handlePlayerInput g now) now r)))).
Proof.
  intro Hs. unfold update. rewrite Hs. cbn [GAME_STATE_eqb negb].
  destruct (_updateEnemyAI (_handlePlayerInput g now) now r) as [g2 r2].
  cbn [fst snd]. destruct (_spawnEnemies g2 now r2) as [g3 r3].
  reflexivity.
Qed.

(** What [_spawnEnemies] does: nothing to the tally, the walls, the player
    or the bullets; and either no enemy, or one new enemy at the end of
    the list. *)
Lemma spawnEnemies_frame (g : GameEngine) (now : Q) (r : Rand) :
  let g' := fst (_spawnEnemies g now r) in
  state g' = state g /\ score g' = score g /\ lives g' = lives g
  /\ level g' = level g /\ enemiesDestroyed g' = enemiesDestroyed g
  /\ walls g' = walls g /\ player g' = player g /\ bullets g' = bullets g
  /\ ((totalEnemiesSpawned g' = totalEnemiesSpawned g
       /\ enemies g' = enemies g)
      \/ (totalEnemiesSpawned g' = (totalEnemiesSpawned g + 1)%Z
          /\ spawnEligible g now
          /\ exists sp u,
               spawnPoint g = Some sp /\ spawnBlocked g sp = false
               /\ enemies g'
                  = enemies g
                    ++ [ Tank.set_aiDirectionTimer
                           (Tank.new (fst sp) (snd sp) DOWN false u) now ])).
Proof.
  cbv zeta. unfold _spawnEnemies.
  destruct (ENEMIES_PER_LEVEL <=? totalEnemiesSpawned g)%Z eqn:E1;
    [cbn [fst]; repeat split; now left|].
  destruct (MAX_ENEMIES <=? length (enemies g))%nat eqn:E2;
    [cbn [fst]; repeat split; now left|].
  qcase (now - lastEnemySpawnTime g) ENEMY_SPAWN_INTERVAL E3;
    [cbn [fst]; repeat split; now left|].
  change (spawnPoint (set_lastEnemySpawnTime g now)) with (spawnPoint g).
  destruct (spawnPoint g) as [sp|] eqn:Esp;
    [|cbn [fst]; repeat split; now left].
  change (spawnBlocked (set_lastEnemySpawnTime g now) sp)
    with (spawnBlocked g sp).
  destruct (spawnBlocked g sp) eqn:Eb; [cbn [fst]; repeat split; now left|].
  destruct (Math_random r) as [u r1]. cbn [fst].
  do 8 (split; [reflexivity|]). right. split; [reflexivity|].
  apply Z.leb_gt in E1. apply Nat.leb_gt in E2.
  split; [repeat split; assumption|].
  exists sp, u. now repeat split.
Qed.

(** The ledger of one tick, stage by stage. *)
Lemma tick_ledger (g : GameEngine) (now : Q) (r : Rand) :
  state g = PLAYING ->
  let g' := fst (update g now r) in
  level g' = level g
  /\ (enemiesDestroyed g <= enemiesDestroyed g')%Z
  /\ (score g' = score g + 100 * (enemiesDestroyed g' - enemiesDestroyed g))%Z
  /\ (lives g - 1 <= lives g' <= lives g)%Z
  /\ (totalEnemiesSpawned g <= totalEnemiesSpawned g'
      <= totalEnemiesSpawned g + 1)%Z
  /\ (state g' = LEVEL_CLEAR
      <-> (ENEMIES_PER_LEVEL <= enemiesDestroyed g')%Z)
  /\ (state g' = PLAYING \/ state g' = GAME_OVER \/ state g' = LEVEL_CLEAR)
  /\ (state g' = GAME_OVER -> (lives g' <= 0)%Z /\ lives g' = (lives g - 1)%Z).
Proof.
  intro Hs. cbv zeta. rewrite (update_playing g now r Hs). cbn [fst].
  destruct (handlePlayerInput_same g now)
    as ((A1 & A2 & A3 & A4 & A5 & _) & A6 & _).
  set (g1 := _handlePlayerInput g now) in *.
  destruct (updateEnemyAI_same g1 now r)
    as ((B1 & B2 & B3 & B4 & B5 & _) & B6 & _).
  set (s2 := _updateEnemyAI g1 now r) in *.
  destruct (spawnEnemies_frame (fst s2) now (snd s2))
    as (K1 & K2 & K3 & K4 & K5 & _ & _ & _ & K6).
  cbv zeta in *.
  set (g3 := fst (_spawnEnemies (fst s2) now (snd s2))) in *.
  assert (Ct : (totalEnemiesSpawned (fst s2) <= totalEnemiesSpawned g3
                <= totalEnemiesSpawned (fst s2) + 1)%Z).
  { destruct K6 as [(E & _)|(E & _)]; lia. }
  clear K6.
  pose proof (checkCollisions_pass (updateBullets g3) now)
    as (D1 & D2 & _ & _ & D5 & D6 & D7).
  pose proof (checkCollisions_player (updateBullets g3) now) as D8.
  unfold playerOutcome in D8.
  set (g5 := _checkCollisions (updateBullets g3) now) in *.
  change (totalEnemiesSpawned (updateBullets g3))
    with (totalEnemiesSpawned g3) in *.
  change (level (updateBullets g3)) with (level g3) in *.
  change (enemiesDestroyed (updateBullets g3)) with (enemiesDestroyed g3) in *.
  change (score (updateBullets g3)) with (score g3) in *.
  change (lives (updateBullets g3)) with (lives g3) in *.
  change (state (updateBullets g3)) with (state g3) in *.
  change (player (updateBullets g3)) with (player g3) in *.
  clearbody g5 g3 s2 g1.
  assert (Hst : state g3 = PLAYING) by congruence.
  assert (Hout : (state g5 = PLAYING /\ (lives g3 - 1 <= lives g5)%Z)
                 \/ (state g5 = GAME_OVER /\ (lives g5 <= 0)%Z
                     /\ lives g5 = (lives g3 - 1)%Z)).
  { destruct D8 as [(L & _ & S)|(L & p & _ & _ & _ & [(Z0 & S & _)|(Z0 & S & _)])].
    - left. split; [congruence | lia].
    - right. now repeat split.
    - left. split; [congruence | lia]. }
  unfold checkLevelClear.
  change (enemiesDestroyed (updateExplosions (cleanup g5)))
    with (enemiesDestroyed g5).
  destruct (ENEMIES_PER_LEVEL <=? enemiesDestroyed g5)%Z eqn:El;
    cbn [level enemiesDestroyed score lives totalEnemiesSpawned state
         set_state updateExplosions cleanup set_explosions set_walls
         set_enemies set_bullets].
  - apply Z.leb_le in El.
    split; [congruence|]. split; [lia|]. split; [lia|]. split; [lia|].
    split; [lia|]. split; [tauto|]. split; [tauto|]. discriminate.
  - apply Z.leb_gt in El.
    split; [congruence|]. split; [lia|]. split; [lia|]. split; [lia|].
    split; [lia|].
    destruct Hout as [(S & L)|(S & L0 & L1)]; rewrite S.
    + split; [split; [discriminate | lia]|]. split; [tauto|]. discriminate.
    + split; [split; [discriminate | lia]|]. split; [tauto|].
      intros _. split; lia.
Qed.

(** X16.  One tick of a running game keeps the level, never lowers the
    kill counter, pays exactly 100 points per kill, takes at most one life
    and spawns at most one enemy; it ends in LEVEL_CLEAR exactly when the
    kill counter has reached [ENEMIES_PER_LEVEL], otherwise in PLAYING or,
    after a hit that left no life, in GAME_OVER. *)
Theorem X16_tick_ledger (g : GameEngine) (now : Q) (r : Rand) :
  state g = PLAYING ->
  let g' := fst (update g now r) in
  level g' = level g
  /\ (enemiesDestroyed g <= enemiesDestroyed g')%Z
  /\ (score g' = score g + 100 * (enemiesDestroyed g' - enemiesDestroyed g))%Z
  /\ (lives g - 1 <= lives g' <= lives g)%Z
  /\ (totalEnemiesSpawned g <= totalEnemiesSpawned g'
      <= totalEnemiesSpawned g + 1)%Z
  /\ (state g' = LEVEL_CLEAR
      <-> (ENEMIES_PER_LEVEL <= enemiesDestroyed g')%Z)
  /\ (state g' = PLAYING \/ state g' = GAME_OVER \/ state g' = LEVEL_CLEAR)
  /\ (state g' = GAME_OVER -> (lives g' <= 0)%Z /\ lives g' = (lives g - 1)%Z).
Proof. exact (tick_ledger g now r). Qed.

Lemma X16_tick_ledger_witness :
  state engine_invincible = PLAYING
  /\ level (fst (update engine_invincible 1000 rand_half))
     = level engine_invincible
  /\ (lives engine_invincible - 1
      <= lives (fst (update engine_invincible 1000 rand_half))
      <= lives engine_invincible)%Z.
Proof.
  destruct (X16_tick_ledger engine_invincible 1000 rand_half eq_refl)
    as (Hl & _ & _ & Hv & _).
  split; [reflexivity|]. split; [exact Hl | exact Hv].
Defined.

(** ** update: what a tick keeps *)

Lemma Forall2_In_l {A B : Type} (R : A -> B -> Prop) (l : list A)
  (l' : list B) (a : A) :
  Forall2 R l l' -> In a l -> exists b, In b l' /\ R a b.
Proof.
  induction 1 as [|x y l l' Hxy _ IH]; [intros []|].
  intros [<-|Hin].
  - exists y. split; [now left | exact Hxy].
  - destruct (IH Hin) as (b & Hb & Hr). exists b. split; [now right | exact Hr].
Qed.

Lemma Forall2_In_r {A B : Type} (R : A -> B -> Prop) (l : list A)
  (l' : list B) (b : B) :
  Forall2 R l l' -> In b l' -> exists a, In a l /\ R a b.
Proof.
  induction 1 as [|x y l l' Hxy _ IH]; [intros []|].
  intros [<-|Hin].
  - exists x. split; [now left | exact Hxy].
  - destruct (IH Hin) as (a & Ha & Hr). exists a. split; [now right | exact Hr].
Qed.

Lemma checkLevelClear_fields (g : GameEngine) :
  walls (checkLevelClear g) = walls g
  /\ enemies (checkLevelClear g) = enemies g
  /\ bullets (checkLevelClear g) = bullets g
  /\ player (checkLevelClear g) = player g.
Proof. unfold checkLevelClear. destruct (_ <=? _)%Z; now repeat split. Qed.

(** The lists of a tick: what is left is what the collision pass left
    alive, and the walls the pass saw are the walls of the start. *)
Lemma tick_lists (g : GameEngine) (now : Q) (r : Rand) :
  state g = PLAYING ->
  exists g5,
    walls (fst (update g now r)) = filter Wall.alive (walls g5)
    /\ enemies (fst (update g now r)) = filter Tank.alive (enemies g5)
    /\ bullets (fst (update g now r)) = filter Bullet.alive (bullets g5)
    /\ Forall2 wallFate (walls g) (walls g5).
Proof.
  intro Hs. rewrite (update_playing g now r Hs). cbn [fst].
  destruct (handlePlayerInput_same g now) as ((_ & _ & _ & _ & _ & A & _) & _).
  set (g1 := _handlePlayerInput g now) in *.
  destruct (updateEnemyAI_same g1 now r) as ((_ & _ & _ & _ & _ & B & _) & _).
  set (s2 := _updateEnemyAI g1 now r) in *.
  destruct (spawnEnemies_frame (fst s2) now (snd s2))
    as (_ & _ & _ & _ & _ & C & _).
  cbv zeta in C.
  set (g3 := fst (_spawnEnemies (fst s2) now (snd s2))) in *.
  pose proof (checkCollisions_walls (updateBullets g3) now) as D.
  change (walls (updateBullets g3)) with (walls g3) in D.
  set (g5 := _checkCollisions (updateBullets g3) now) in *.
  clearbody g5 g3 s2 g1.
  exists g5.
  destruct (checkLevelClear_fields (updateExplosions (cleanup g5)))
    as (-> & -> & -> & _).
  split; [reflexivity|]. split; [reflexivity|]. split; [reflexivity|].
  rewrite <- A, <- B, <- C. exact D.
Qed.

(** X17.  After a tick of a running game nothing dead is kept: every
    bullet, enemy and wall in the lists is alive.  The tick adds no wall
    and changes none: every wall left was there, as it is, before the
    tick; and a wall that was alive and not destructible is still
    there. *)
Theorem X17_tick_sweeps (g : GameEngine) (now : Q) (r : Rand) :
  state g = PLAYING ->
  let g' := fst (update g now r) in
  (forall b, In b (bullets g') -> Bullet.alive b = true)
  /\ (forall e, In e (enemies g') -> Tank.alive e = true)
  /\ (forall w, In w (walls g') -> Wall.alive w = true /\ In w (walls g))
  /\ (forall w, In w (walls g) -> Wall.alive w = true ->
                Wall.destructible w = false -> In w (walls g')).
Proof.
  intro Hs. cbv zeta.
  destruct (tick_lists g now r Hs) as (g5 & -> & -> & -> & Hf).
  split; [intros b Hb; now apply filter_In in Hb|].
  split; [intros e He; now apply filter_In in He|].
  split.
  - intros w Hw. apply filter_In in Hw. destruct Hw as [Hin Ha].
    split; [exact Ha|].
    destruct (Forall2_In_r _ _ _ _ Hf Hin) as (w0 & Hin0 & [->|(-> & _)]);
      [exact Hin0|].
    cbn in Ha. discriminate.
  - intros w Hin Ha Hd.
    destruct (Forall2_In_l _ _ _ _ Hf Hin) as (w' & Hin' & [->|(_ & _ & Hd')]);
      [|congruence].
    apply filter_In. now split.
Qed.

Lemma X17_tick_sweeps_witness :
  state engine_invincible = PLAYING
  /\ forall w, In w (walls (fst (update engine_invincible 1000 rand_half))) ->
               Wall.alive w = true.
Proof.
  destruct (X17_tick_sweeps engine_invincible 1000 rand_half eq_refl)
    as (_ & _ & Hw & _).
  split; [reflexivity|]. intros w Hin. now destruct (Hw w Hin).
Defined.

(** ** _checkCollisions: the enemies *)

Lemma enemyFate_refl (es : list Tank.t) : Forall2 enemyFate es es.
Proof. induction es; constructor; [now left | assumption]. Qed.

Lemma enemyFate_trans (es1 es2 es3 : list Tank.t) :
  Forall2 enemyFate es1 es2 -> Forall2 enemyFate es2 es3 ->
  Forall2 enemyFate es1 es3.
Proof.
  intro H. revert es3. induction H as [|a b l1 l2 Hab _ IH]; intros es3 H3.
  - inversion H3. constructor.
  - inversion H3 as [|b' c l2' l3 Hbc Hrest]; subst. constructor.
    + destruct Hab as [->|(-> & Ha)]; [exact Hbc|].
      destruct Hbc as [->|(-> & Ha')].
      * right. now split.
      * cbn in Ha'. discriminate.
    + now apply IH.
Qed.

Lemma enemyHit_fate (bb : Rect) (es : list Tank.t) :
  forall hit es', enemyHit bb es = Some (hit, es') ->
    Forall2 enemyFate es es' /\ In hit es /\ Tank.alive hit = true
    /\ rectsOverlap bb (Tank.getBounds hit) = true.
Proof.
  induction es as [|e rest IH]; intros hit es'; cbn [enemyHit];
    [discriminate|].
  destruct (Tank.alive e && rectsOverlap bb (Tank.getBounds e)) eqn:E.
  - intros [= <- <-]. apply andb_true_iff in E. destruct E as [Ea Eo].
    split; [|split; [now left | now split]].
    constructor; [right; now split | apply enemyFate_refl].
  - destruct (enemyHit bb rest) as [[h r']|]; [|discriminate].
    intros [= <- <-]. destruct (IH h r' eq_refl) as (H1 & H2 & H3 & H4).
    split; [constructor; [now left | exact H1]|].
    split; [now right | now split].
Qed.

Lemma checkBullet_enemies (now : Q) (g : GameEngine) (bullet : Bullet.t) :
  Forall2 enemyFate (enemies g) (enemies (fst (checkBullet now g bullet))).
Proof.
  unfold checkBullet.
  destruct (negb (Bullet.alive bullet)); [apply enemyFate_refl|].
  assert (H1 : enemies (fst (bulletVsWalls g bullet)) = enemies g).
  { unfold bulletVsWalls.
    destruct (wallHit _ (walls g)) as [[w ws']|]; [|reflexivity].
    destruct (Wall.destructible w); reflexivity. }
  destruct (bulletVsWalls g bullet) as [g1 b1]. cbn [fst] in H1.
  destruct (negb (Bullet.alive b1));
    [cbn [fst]; rewrite H1; apply enemyFate_refl|].
  assert (H2 : Forall2 enemyFate (enemies g1)
                 (enemies (fst (bulletVsEnemies g1 (Bullet.getBounds bullet)
                                                b1)))).
  { unfold bulletVsEnemies. destruct (Bullet.isPlayerBullet b1);
      [|apply enemyFate_refl].
    destruct (enemyHit _ (enemies g1)) as [[e es']|] eqn:E;
      [|apply enemyFate_refl].
    destruct (enemyHit_fate _ _ _ _ E) as [Hf _]. exact Hf. }
  destruct (bulletVsEnemies g1 (Bullet.getBounds bullet) b1) as [g2 b2].
  cbn [fst] in H2.
  assert (H3 : enemies (fst (bulletVsPlayer g2 (Bullet.getBounds bullet) b2
                                            now))
               = enemies g2).
  { unfold bulletVsPlayer. destruct (negb _); [|reflexivity].
    destruct (player g2) as [p|]; [|reflexivity].
    destruct (Tank.alive p); [|reflexivity].
    destruct (_ && _); [|reflexivity].
    cbn [fst]. unfold playerHit. cbv zeta.
    destruct (_ <=? _)%Z; reflexivity. }
  rewrite H3, <- H1. exact H2.
Qed.

Lemma checkBullets_enemies (now : Q) (bs : list Bullet.t) :
  forall g,
    Forall2 enemyFate (enemies g) (enemies (fst (checkBullets now g bs))).
Proof.
  induction bs as [|b rest IH]; intro g; [apply enemyFate_refl|].
  cbn [checkBullets].
  pose proof (checkBullet_enemies now g b) as H1.
  destruct (checkBullet now g b) as [g1 b1]. cbn [fst] in H1.
  specialize (IH g1). destruct (checkBullets now g1 rest) as [g2 rest'].
  cbn [fst] in *. eapply enemyFate_trans; eassumption.
Qed.

Lemma checkCollisions_enemies (g : GameEngine) (now : Q) :
  Forall2 enemyFate (enemies g) (enemies (_checkCollisions g now)).
Proof.
  unfold _checkCollisions.
  pose proof (checkBullets_enemies now (bullets g) g) as H.
  destruct (checkBullets now g (bullets g)) as [g1 bs]. exact H.
Qed.

(** X18.  The collision pass never adds, removes, moves or turns an
    enemy: enemy by enemy, in list order, it either leaves the enemy as it
    was or clears the alive flag of an enemy that was alive; a dead enemy
    stays as it is.  The enemies that died in the pass are exactly the
    ones the kill counter gained. *)
Theorem X18_enemies_under_fire (g : GameEngine) (now : Q) :
  let g' := _checkCollisions g now in
  Forall2 enemyFate (enemies g) (enemies g')
  /\ (forall i e, nth_error (enemies g) i = Some e ->
        exists e', nth_error (enemies g') i = Some e'
                   /\ Tank.x e' = Tank.x e /\ Tank.y e' = Tank.y e
                   /\ Tank.direction e' = Tank.direction e
                   /\ Tank.isPlayer e' = Tank.isPlayer e
                   /\ (Tank.alive e = false -> e' = e))
  /\ (Z.of_nat (aliveCount (enemies g)) - Z.of_nat (aliveCount (enemies g'))
      = enemiesDestroyed g' - enemiesDestroyed g)%Z.
Proof.
  cbv zeta. pose proof (checkCollisions_enemies g now) as H.
  destruct (checkCollisions_pass g now) as (_ & _ & _ & Hc & _).
  split; [exact H|]. split; [|lia]. clear Hc.
  generalize dependent (enemies (_checkCollisions g now)).
  induction (enemies g) as [|a l IH]; intros l' H i e Hi.
  - now destruct i.
  - inversion H as [|a0 b l0 l1 Hab Hrest]; subst.
    destruct i as [|i]; cbn [nth_error] in *.
    + injection Hi as <-. exists b. split; [reflexivity|].
      destruct Hab as [->|(-> & Ha)]; cbn.
      * now repeat split.
      * repeat split; try reflexivity; congruence.
    + now apply IH.
Qed.

(** ** GameEngine: the cast of a level *)

Lemma move_role (side : bool) (this : Tank.t) (self : nat) (dir : DIR)
  (walls : list Wall.t) (tanks : list Tank.t) :
  role side this -> role side (Tank.move this self dir walls tanks).
Proof.
  intros [H1 H2]. unfold role.
  destruct (Tank.alive this) eqn:Ha.
  - rewrite (move_alive this self dir walls tanks Ha).
    assert (Ht : Tank.isPlayer (Tank.turn this dir) = Tank.isPlayer this
                 /\ Tank.size (Tank.turn this dir) = Tank.size this).
    { unfold Tank.turn.
      destruct (isVertical (Tank.direction this)), (isVertical dir); cbn;
        now split. }
    destruct Ht as [T1 T2].
    destruct (Tank.blocked this self dir walls tanks);
      cbn [Tank.isPlayer Tank.size Tank.set_x Tank.set_y]; split; congruence.
  - rewrite (move_dead this self dir walls tanks Ha). now split.
Qed.

Lemma fire_role (side : bool) (this : Tank.t) (now : Q) :
  role side this -> role side (fst (Tank.fire this now)).
Proof.
  intro H. destruct (fire_fst this now) as [->| ->]; exact H.
Qed.

(** The bullet [fire] returns is alive and carries the side of the
    tank. *)
Lemma fire_bullet (this : Tank.t) (now : Q) (b : Bullet.t) :
  snd (Tank.fire this now) = Some b ->
  Bullet.isPlayerBullet b = Tank.isPlayer this /\ Bullet.alive b = true.
Proof.
  unfold Tank.fire. destruct (negb (Tank.alive this)); [discriminate|].
  destruct (_ <? _); [discriminate|]. cbv zeta.
  destruct (Tank.direction (Tank.set_lastFireTime this now));
    cbn [snd]; intros [= <-]; now split.
Qed.

Lemma aiRedirect_role (side : bool) (enemy : Tank.t) (now : Q) (r : Rand) :
  role side enemy -> role side (fst (aiRedirect enemy now r)).
Proof.
  intro H. unfold aiRedirect. destruct (_ <? _); exact H.
Qed.

Lemma cast_ok_fields (g g' : GameEngine) :
  player g' = player g -> enemies g' = enemies g -> walls g' = walls g ->
  cast_ok g -> cast_ok g'.
Proof. unfold cast_ok, walls_clear. intros -> -> ->. tauto. Qed.

Lemma handlePlayerInput_cast (g : GameEngine) (now : Q) :
  cast_ok g -> cast_ok (_handlePlayerInput g now).
Proof.
  intro Hok. pose proof Hok as (Hp & He & Hw). unfold _handlePlayerInput.
  destruct (player g) as [p|] eqn:Ep; [|exact Hok].
  destruct (negb (Tank.alive p)); [exact Hok|].
  set (p1 := if up (keys g) then _ else _).
  assert (H1 : role true p1).
  { unfold p1.
    repeat match goal with
           | |- role true (if ?b then _ else _) => destruct b
           end; try apply move_role; now apply Hp. }
  destruct (fire (keys g)).
  - destruct (Tank.fire p1 now) as [p2 ob] eqn:Ef.
    assert (H2 : role true p2).
    { replace p2 with (fst (Tank.fire p1 now)) by now rewrite Ef.
      now apply fire_role. }
    destruct (pushBullet_fields (set_player (set_player g (Some p1)) (Some p2))
                                ob) as (E1 & E2 & E3).
    unfold cast_ok, walls_clear. rewrite E1, E2, E3.
    cbn [player enemies walls set_player].
    split; [intros q [= <-]; exact H2 | split; assumption].
  - unfold cast_ok, walls_clear. cbn [player enemies walls set_player].
    split; [intros q [= <-]; exact H1 | split; assumption].
Qed.

Lemma enemyRedirect_cast (k : nat) (now : Q) (g : GameEngine) (r : Rand) :
  cast_ok g -> cast_ok (fst (enemyRedirect k now g r)).
Proof.
  intro Hok. pose proof Hok as (Hp & He & Hw). unfold enemyRedirect.
  destruct (nth_error (enemies g) k) as [enemy|] eqn:Ek; [|exact Hok].
  destruct (negb (Tank.alive enemy)); [exact Hok|].
  assert (H0 : role false enemy).
  { rewrite Forall_forall in He. apply He. now apply nth_error_In with k. }
  pose proof (aiRedirect_role false enemy now r H0) as H1.
  destruct (aiRedirect enemy now r) as [e1 r1]. cbn [fst] in *.
  unfold cast_ok, walls_clear. cbn [player enemies walls set_enemies].
  split; [exact Hp|]. split; [now apply replaceAt_Forall | exact Hw].
Qed.

Lemma enemyAdvance_cast (k : nat) (now : Q) (g : GameEngine) (r : Rand) :
  cast_ok g -> cast_ok (fst (enemyAdvance k now g r)).
Proof.
  intro Hok. pose proof Hok as (Hp & He & Hw). unfold enemyAdvance.
  destruct (nth_error (enemies g) k) as [enemy|] eqn:Ek; [|exact Hok].
  destruct (negb (Tank.alive enemy)); [exact Hok|].
  assert (H1 : role false enemy).
  { rewrite Forall_forall in He. apply He. now apply nth_error_In with k. }
  pose proof (move_role false enemy (enemyIndex g k) (Tank.direction enemy)
                (walls g) (allTanks g) H1) as H2.
  set (e2 := Tank.move enemy _ _ _ _) in *.
  destruct (Math_random r) as [w r2].
  assert (H3 : role false (fst (if w <? 0.02 then Tank.fire e2 now
                                else (e2, None)))).
  { destruct (w <? 0.02); [now apply fire_role | exact H2]. }
  destruct (if w <? 0.02 then Tank.fire e2 now else (e2, None)) as [e3 ob].
  cbn [fst] in *.
  destruct (pushBullet_fields (set_enemies g (replaceAt k e3 (enemies g))) ob)
    as (E1 & E2 & E3).
  unfold cast_ok, walls_clear. rewrite E1, E2, E3.
  cbn [player enemies walls set_enemies].
  split; [exact Hp|]. split; [now apply replaceAt_Forall | exact Hw].
Qed.

Lemma spawnEnemies_cast (g : GameEngine) (now : Q) (r : Rand) :
  cast_ok g -> cast_ok (fst (_spawnEnemies g now r)).
Proof.
  intros (Hp & He & Hw).
  destruct (spawnEnemies_frame g now r)
    as (_ & _ & _ & _ & _ & Ew & Ep & _ & Hs).
  cbv zeta in *. unfold cast_ok, walls_clear. rewrite Ew, Ep.
  split; [exact Hp|]. split; [|exact Hw].
  destruct Hs as [(_ & ->)|(_ & _ & sp & u & _ & _ & ->)]; [exact He|].
  apply Forall_app. split; [exact He|].
  constructor; [|constructor]. now split.
Qed.

Lemma wallFate_clear (ws ws' : list Wall.t) :
  Forall2 wallFate ws ws' ->
  Forall (fun w => exists c r, wallInCell w c r /\ isReserved c r = false) ws ->
  Forall (fun w => exists c r, wallInCell w c r /\ isReserved c r = false) ws'.
Proof.
  induction 1 as [|a b l l' Hab _ IH]; intro H; [constructor|].
  inversion H as [|a0 l0 Ha Hl]; subst. constructor; [|now apply IH].
  destruct Hab as [->|(-> & _)]; exact Ha.
Qed.

Lemma enemyFate_role (es es' : list Tank.t) :
  Forall2 enemyFate es es' ->
  Forall (role false) es -> Forall (role false) es'.
Proof.
  induction 1 as [|a b l l' Hab _ IH]; intro H; [constructor|].
  inversion H as [|a0 l0 Ha Hl]; subst. constructor; [|now apply IH].
  destruct Hab as [->|(-> & _)]; exact Ha.
Qed.

Lemma checkCollisions_cast (g : GameEngine) (now : Q) :
  cast_ok g -> cast_ok (_checkCollisions g now).
Proof.
  intros (Hp & He & Hw). unfold cast_ok, walls_clear. split; [|split].
  - intros q Hq.
    destruct (checkCollisions_player g now)
      as [(_ & E & _)|(_ & p & Ep & _ & _ & [(_ & _ & E)|(_ & _ & E)])].
    + apply Hp. congruence.
    + rewrite E in Hq. injection Hq as <-. exact (Hp p Ep).
    + rewrite E in Hq. injection Hq as <-. exact (Hp p Ep).
  - exact (enemyFate_role _ _ (checkCollisions_enemies g now) He).
  - exact (wallFate_clear _ _ (checkCollisions_walls g now) Hw).
Qed.

Lemma cleanup_cast (g : GameEngine) : cast_ok g -> cast_ok (cleanup g).
Proof.
  intros (Hp & He & Hw). unfold cleanup, cast_ok, walls_clear.
  cbn [player enemies walls set_bullets set_enemies set_walls set_explosions].
  split; [exact Hp|]. split; now apply filter_Forall.
Qed.

(** A tank of the constructor's size standing on a spawn point overlaps
    nothing that keeps off the three by three cells around the point, and
    nothing that keeps off the 36-box on the point. *)
Lemma on_spawn_clear (t : Tank.t) (sp : Q * Q) (b : Rect) :
  Tank.x t = fst sp -> Tank.y t = snd sp -> Tank.size t = TANK_SIZE ->
  (rectsOverlap (spawnZone sp) b = false
   \/ rectsOverlap {| rx := fst sp; ry := snd sp; rw := 36; rh := 36 |} b
      = false) ->
  rectsOverlap (Tank.getBounds t) b = false.
Proof.
  intros Hx Hy Hs [H|H].
  - apply (rectsOverlap_inside _ (spawnZone sp)); [| | | |exact H];
      unfold spawnZone, Tank.getBounds; cbn [rx ry rw rh];
      rewrite ?Hx, ?Hy, ?Hs; unfold WALL_SIZE, TANK_SIZE; lra.
  - apply (rectsOverlap_inside _ {| rx := fst sp; ry := snd sp;
                                    rw := 36; rh := 36 |});
      [| | | |exact H];
      unfold Tank.getBounds; cbn [rx ry rw rh];
      rewrite ?Hx, ?Hy, ?Hs; unfold TANK_SIZE; lra.
Qed.

Lemma engine_under_fire_cast : cast_ok engine_under_fire.
Proof.
  split; [|split].
  - intros p [= <-]. now split.
  - constructor.
  - constructor; [|constructor]. exists 5%Z, 0%Z.
    split; [apply wallAt_cell | reflexivity].
Qed.

(** X19.  When [_spawnEnemies] adds an enemy to a level whose cast is in
    order, it adds one, at the end of the list: an alive enemy tank facing
    down on the spawn point whose turn it is, its direction timer started,
    overlapping no wall of the map and no alive tank, player included. *)
Theorem X19_spawn_in_the_clear (g : GameEngine) (now : Q) (r : Rand) :
  cast_ok g ->
  totalEnemiesSpawned (fst (_spawnEnemies g now r)) <> totalEnemiesSpawned g ->
  exists sp e,
    spawnPoint g = Some sp /\ In sp getEnemySpawnPoints
    /\ enemies (fst (_spawnEnemies g now r)) = enemies g ++ [ e ]
    /\ totalEnemiesSpawned (fst (_spawnEnemies g now r))
       = (totalEnemiesSpawned g + 1)%Z
    /\ Tank.x e = fst sp /\ Tank.y e = snd sp
    /\ Tank.direction e = DOWN /\ Tank.alive e = true
    /\ Tank.isPlayer e = false /\ Tank.aiDirectionTimer e = now
    /\ (forall w, In w (walls (fst (_spawnEnemies g now r))) ->
          rectsOverlap (Tank.getBounds e) (Wall.getBounds w) = false)
    /\ (forall t, In t (allTanks g) -> Tank.alive t = true ->
          rectsOverlap (Tank.getBounds e) (Tank.getBounds t) = false).
Proof.
  intros (Hp & He & Hw) Hne.
  destruct (spawnEnemies_frame g now r)
    as (_ & _ & _ & _ & _ & Ew & _ & _ & Hs).
  cbv zeta in *.
  destruct Hs as [(E & _)|(Et & _ & sp & u & Esp & Eb & Ee)];
    [contradiction|].
  assert (Hin : In sp getEnemySpawnPoints)
    by (unfold spawnPoint in Esp; now apply nth_error_In in Esp).
  exists sp, (Tank.set_aiDirectionTimer (Tank.new (fst sp) (snd sp) DOWN
                                                  false u) now).
  split; [exact Esp|]. split; [exact Hin|]. split; [exact Ee|].
  split; [exact Et|]. do 6 (split; [reflexivity|]). split.
  - intros w Hin'. rewrite Ew in Hin'. unfold walls_clear in Hw.
    rewrite Forall_forall in Hw. destruct (Hw w Hin') as (c & r0 & Hc & Hr).
    apply (on_spawn_clear _ sp); try reflexivity. left.
    apply (zone_clear_of_cell w c r0 sp Hc Hr). now right.
  - intros t Ht Ha.
    apply (on_spawn_clear _ sp); try reflexivity. right.
    destruct (rectsOverlap _ (Tank.getBounds t)) eqn:Eo; [|reflexivity].
    exfalso.
    assert (Hb : spawnBlocked g sp = true).
    { unfold spawnBlocked. apply existsb_exists. exists t. split.
      - unfold spawnBlockers. unfold allTanks in Ht. apply in_or_app.
        destruct (player g) as [p|]; [|now left].
        destruct Ht as [<-|Ht]; [right; now left | now left].
      - cbv zeta. now rewrite Ha, Eo. }
    congruence.
Qed.

Lemma X19_spawn_in_the_clear_witness :
  cast_ok engine_under_fire
  /\ totalEnemiesSpawned (fst (_spawnEnemies engine_under_fire 3000 rand_half))
     <> totalEnemiesSpawned engine_under_fire
  /\ exists sp e,
       spawnPoint engine_under_fire = Some sp
       /\ enemies (fst (_spawnEnemies engine_under_fire 3000 rand_half))
          = enemies engine_under_fire ++ [ e ].
Proof.
  pose proof engine_under_fire_cast as Hc.
  assert (Hn : totalEnemiesSpawned
                 (fst (_spawnEnemies engine_under_fire 3000 rand_half))
               <> totalEnemiesSpawned engine_under_fire)
    by (vm_compute; discriminate).
  destruct (X19_spawn_in_the_clear engine_under_fire 3000 rand_half Hc Hn)
    as (sp & e & Hsp & _ & He & _).
  split; [exact Hc|]. split; [exact Hn|]. now exists sp, e.
Defined.

(** X20.  When the collision pass costs the player a life and leaves one,
    in a level whose cast is in order, the player is put back where it
    overlaps no wall of the map. *)
Theorem X20_respawn_in_the_clear (g : GameEngine) (now : Q) :
  cast_ok g ->
  lives (_checkCollisions g now) <> lives g ->
  (0 < lives (_checkCollisions g now))%Z ->
  exists p',
    player (_checkCollisions g now) = Some p'
    /\ Tank.alive p' = true /\ Tank.isPlayer p' = true
    /\ forall w, In w (walls (_checkCollisions g now)) ->
         rectsOverlap (Tank.getBounds p') (Wall.getBounds w) = false.
Proof.
  intros Hok Hne Hpos. pose proof Hok as (Hp & _).
  destruct (checkCollisions_cast g now Hok) as (_ & _ & Hw').
  destruct (checkCollisions_player g now)
    as [(E & _)|(_ & p & Ep & Ha & _ & [(Hle & _)|(_ & _ & E)])];
    [contradiction | lia |].
  destruct (Hp p Ep) as [Hside Hsize].
  exists (respawned p now). split; [exact E|]. split; [exact Ha|].
  split; [exact Hside|].
  intros w Hin. unfold walls_clear in Hw'. rewrite Forall_forall in Hw'.
  destruct (Hw' w Hin) as (c & r0 & Hc & Hr).
  apply (on_spawn_clear _ getPlayerSpawn); [reflexivity | reflexivity | |].
  - exact Hsize.
  - left. apply (zone_clear_of_cell w c r0 getPlayerSpawn Hc Hr). now left.
Qed.

Lemma X20_respawn_in_the_clear_witness :
  cast_ok engine_under_fire
  /\ lives (_checkCollisions engine_under_fire 3000)
     <> lives engine_under_fire
  /\ (0 < lives (_checkCollisions engine_under_fire 3000))%Z
  /\ exists p', player (_checkCollisions engine_under_fire 3000) = Some p'
                /\ Tank.alive p' = true.
Proof.
  pose proof engine_under_fire_cast as Hc.
  assert (Hn : lives (_checkCollisions engine_under_fire 3000)
               <> lives engine_under_fire) by (vm_compute; discriminate).
  assert (Hp : (0 < lives (_checkCollisions engine_under_fire 3000))%Z)
    by (vm_compute; reflexivity).
  destruct (X20_respawn_in_the_clear engine_under_fire 3000 Hc Hn Hp)
    as (p' & E & Ha & _).
  split; [exact Hc|]. split; [exact Hn|]. split; [exact Hp|].
  now exists p'.
Defined.

Section Cast.

Variable Math_sin : Q -> Q.

Lemma startGame_cast (g : GameEngine) (lvl : Z) (t1 t2 : Q) (r : Rand) :
  cast_ok (fst (startGame Math_sin g lvl t1 t2 r)).
Proof.
  unfold startGame. destruct (Math_random r) as [u r1]. cbn [fst].
  unfold cast_ok, walls_clear. cbn [player enemies walls]. split; [|split].
  - intros q [= <-]. now split.
  - constructor.
  - apply Forall_forall. intros w Hin.
    destruct (generateMap_wall Math_sin lvl w Hin)
      as (c & r0 & _ & _ & Hc & _ & _ & Hr & _).
    now exists c, r0.
Qed.

Lemma reachable_cast (g : GameEngine) : reachable Math_sin g -> cast_ok g.
Proof.
  induction 1 as [ | g lvl t1 t2 r _ _ | g _ IH | g k _ IH | g now _ IH
                 | g k now r _ IH | g k now r _ IH | g now r _ IH | g _ IH
                 | g now _ IH | g _ IH | g _ IH | g _ IH ].
  - split; [discriminate|]. split; constructor.
  - apply startGame_cast.
  - unfold togglePause. destruct (state g); exact IH.
  - exact IH.
  - now apply handlePlayerInput_cast.
  - now apply enemyRedirect_cast.
  - now apply enemyAdvance_cast.
  - now apply spawnEnemies_cast.
  - exact IH.
  - now apply checkCollisions_cast.
  - now apply cleanup_cast.
  - exact IH.
  - unfold checkLevelClear. destruct (_ <=? _)%Z; exact IH.
Qed.

(** X21.  In every state the engine passes through the cast is in order
    ([cast_ok], which the properties of spawning, respawning and firing
    assume): the player is a player's tank and every enemy an enemy tank,
    all of the constructor's size; every wall fills a cell of the grid
    outside the reserved zones, so that no wall reaches into the three by
    three cells around the player's spawn point or an enemy spawn
    point. *)
Theorem X21_cast_invariant (g : GameEngine) :
  reachable Math_sin g ->
  cast_ok g
  /\ (forall p, player g = Some p ->
        Tank.isPlayer p = true /\ Tank.size p = TANK_SIZE)
  /\ (forall e, In e (enemies g) ->
        Tank.isPlayer e = false /\ Tank.size e = TANK_SIZE)
  /\ (forall w, In w (walls g) ->
        (exists c r, wallInCell w c r /\ isReserved c r = false)
        /\ forall sp, In sp (getPlayerSpawn :: getEnemySpawnPoints) ->
             rectsOverlap (spawnZone sp) (Wall.getBounds w) = false).
Proof.
  intro Hr. pose proof (reachable_cast g Hr) as Hok.
  split; [exact Hok|]. destruct Hok as (Hp & He & Hw).
  split; [exact Hp|]. split.
  - rewrite Forall_forall in He. exact He.
  - unfold walls_clear in Hw. rewrite Forall_forall in Hw.
    intros w Hin. destruct (Hw w Hin) as (c & r0 & Hc & Hres).
    split; [now exists c, r0|].
    intros sp Hsp. exact (zone_clear_of_cell w c r0 sp Hc Hres Hsp).
Qed.

End Cast.

Lemma X21_cast_invariant_witness :
  reachable Math_sin_level5 engine_started
  /\ forall p, player engine_started = Some p -> Tank.isPlayer p = true.
Proof.
  assert (Hr : reachable Math_sin_level5 engine_started)
    by (apply reach_startGame, reach_new).
  destruct (X21_cast_invariant Math_sin_level5 engine_started Hr)
    as (_ & Hp & _).
  split; [exact Hr|]. intros p E. now destruct (Hp p E).
Defined.

(** ** Who fires what *)

Lemma handlePlayerInput_fired (g : GameEngine) (now : Q) :
  cast_ok g ->
  exists fired,
    bullets (_handlePlayerInput g now) = bullets g ++ fired
    /\ (length fired <= 1)%nat
    /\ (fired <> [] -> fire (keys g) = true)
    /\ forall b, In b fired ->
         Bullet.isPlayerBullet b = true /\ Bullet.alive b = true.
Proof.
  intros (Hp & _). unfold _handlePlayerInput.
  assert (Hnone : forall bs : list Bullet.t,
             exists fired : list Bullet.t,
               bs = bs ++ fired /\ (length fired <= 1)%nat
               /\ (fired <> [] -> fire (keys g) = true)
               /\ forall b, In b fired ->
                    Bullet.isPlayerBullet b = true /\ Bullet.alive b = true).
  { intro bs. exists []. rewrite app_nil_r. split; [reflexivity|].
    split; [cbn; lia|]. split; [congruence | intros b []]. }
  destruct (player g) as [p|] eqn:Ep; [|apply Hnone].
  destruct (negb (Tank.alive p)); [apply Hnone|].
  set (p1 := if up (keys g) then _ else _).
  assert (H1 : role true p1).
  { unfold p1.
    repeat match goal with
           | |- role true (if ?b then _ else _) => destruct b
           end; try apply move_role; now apply Hp. }
  destruct (fire (keys g)) eqn:Ef; [|apply Hnone].
  pose proof (fire_bullet p1 now) as Hb.
  destruct (Tank.fire p1 now) as [p2 [b|]]; cbn [snd] in Hb;
    [|apply Hnone].
  exists [ b ]. split; [reflexivity|]. split; [cbn; lia|].
  split; [reflexivity|].
  intros b' [<-|[]]. destruct (Hb b eq_refl) as [Hs Ha].
  split; [|exact Ha]. rewrite Hs. now destruct H1.
Qed.

Lemma enemyAdvance_fired (k : nat) (now : Q) (g : GameEngine) (r : Rand) :
  cast_ok g ->
  exists fired,
    bullets (fst (enemyAdvance k now g r)) = bullets g ++ fired
    /\ (length fired <= 1)%nat
    /\ forall b, In b fired ->
         Bullet.isPlayerBullet b = false /\ Bullet.alive b = true.
Proof.
  intros (_ & He & _). unfold enemyAdvance.
  assert (Hnone : forall bs : list Bullet.t,
             exists fired : list Bullet.t,
               bs = bs ++ fired /\ (length fired <= 1)%nat
               /\ forall b, In b fired ->
                    Bullet.isPlayerBullet b = false /\ Bullet.alive b = true).
  { intro bs. exists []. rewrite app_nil_r. split; [reflexivity|].
    split; [cbn; lia | intros b []]. }
  destruct (nth_error (enemies g) k) as [enemy|] eqn:Ek; [|apply Hnone].
  destruct (negb (Tank.alive enemy)); [apply Hnone|].
  assert (H1 : role false enemy).
  { rewrite Forall_forall in He. apply He. now apply nth_error_In with k. }
  pose proof (move_role false enemy (enemyIndex g k) (Tank.direction enemy)
                (walls g) (allTanks g) H1) as H2.
  set (e2 := Tank.move enemy _ _ _ _) in *.
  destruct (Math_random r) as [w r2].
  destruct (w <? 0.02); [|cbn [fst pushBullet bullets set_enemies];
                          apply Hnone].
  pose proof (fire_bullet e2 now) as Hb.
  destruct (Tank.fire e2 now) as [e3 [b|]]; cbn [snd] in Hb;
    cbn [fst pushBullet bullets set_enemies set_bullets]; [|apply Hnone].
  exists [ b ]. split; [reflexivity|]. split; [cbn; lia|].
  intros b' [<-|[]]. destruct (Hb b eq_refl) as [Hs Ha].
  split; [|exact Ha]. rewrite Hs. now destruct H2.
Qed.

Lemma enemyStep_fired (k : nat) (now : Q) (g : GameEngine) (r : Rand) :
  cast_ok g ->
  cast_ok (fst (enemyStep k now g r))
  /\ exists fired,
       bullets (fst (enemyStep k now g r)) = bullets g ++ fired
       /\ (length fired <= 1)%nat
       /\ forall b, In b fired ->
            Bullet.isPlayerBullet b = false /\ Bullet.alive b = true.
Proof.
  intro Hok. unfold enemyStep.
  pose proof (enemyRedirect_cast k now g r Hok) as H1.
  destruct (enemyRedirect_same k now g r) as (_ & _ & _ & Eb).
  destruct (enemyRedirect k now g r) as [g1 r1]. cbn [fst] in *.
  split; [now apply enemyAdvance_cast|].
  destruct (enemyAdvance_fired k now g1 r1 H1) as (fired & E & Hl & Hs).
  exists fired. rewrite E, Eb. split; [reflexivity|]. split; assumption.
Qed.

Lemma enemySteps_fired (now : Q) (ks : list nat) :
  forall g r, cast_ok g ->
    exists fired,
      bullets (fst (fold_left
                      (fun (s : GameEngine * Rand) k =>
                         enemyStep k now (fst s) (snd s)) ks (g, r)))
      = bullets g ++ fired
      /\ (length fired <= length ks)%nat
      /\ forall b, In b fired ->
           Bullet.isPlayerBullet b = false /\ Bullet.alive b = true.
Proof.
  induction ks as [|k ks IH]; intros g r Hok.
  - exists []. cbn [fold_left fst]. rewrite app_nil_r.
    split; [reflexivity|]. split; [cbn; lia | intros b []].
  - cbn [fold_left fst snd].
    destruct (enemyStep_fired k now g r Hok) as (H1 & f1 & E1 & L1 & S1).
    destruct (enemyStep k now g r) as [g1 r1]. cbn [fst] in *.
    destruct (IH g1 r1 H1) as (f2 & E2 & L2 & S2).
    exists (f1 ++ f2). rewrite E2, E1, app_assoc. split; [reflexivity|].
    split; [rewrite length_app; cbn [length]; lia|].
    intros b Hb. apply in_app_or in Hb. destruct Hb; auto.
Qed.

(** X22.  In a level whose cast is in order the two sides fire under
    their own flag: [_handlePlayerInput] appends at most one bullet, an
    alive player bullet, and none unless the fire key is down;
    [_updateEnemyAI] appends at most one bullet per enemy, each an alive
    enemy bullet.  Neither removes or changes a bullet in flight. *)
Theorem X22_bullet_sides (g : GameEngine) (now : Q) (r : Rand) :
  cast_ok g ->
  (exists fired,
     bullets (_handlePlayerInput g now) = bullets g ++ fired
     /\ (length fired <= 1)%nat
     /\ (fired <> [] -> fire (keys g) = true)
     /\ forall b, In b fired ->
          Bullet.isPlayerBullet b = true /\ Bullet.alive b = true)
  /\ (exists fired,
        bullets (fst (_updateEnemyAI g now r)) = bullets g ++ fired
        /\ (length fired <= length (enemies g))%nat
        /\ forall b, In b fired ->
             Bullet.isPlayerBullet b = false /\ Bullet.alive b = true).
Proof.
  intro Hok. split; [now apply handlePlayerInput_fired|].
  unfold _updateEnemyAI.
  destruct (enemySteps_fired now (seq 0 (length (enemies g))) g r Hok)
    as (fired & E & L & S).
  exists fired. rewrite length_seq in L. split; [exact E|].
  split; assumption.
Qed.

Lemma X22_bullet_sides_witness :
  cast_ok engine_under_fire
  /\ exists fired,
       bullets (_handlePlayerInput engine_under_fire 3000)
       = bullets engine_under_fire ++ fired
       /\ (length fired <= 1)%nat.
Proof.
  pose proof engine_under_fire_cast as Hc.
  destruct (X22_bullet_sides engine_under_fire 3000 rand_half Hc)
    as ((fired & E & L & _) & _).
  split; [exact Hc|]. now exists fired.
Defined.

(** ** _handlePlayerInput and the input handlers *)

(** [_handlePlayerInput] reads the four direction flags only through
    [chosenDirection]. *)
Lemma handlePlayerInput_chosen (g : GameEngine) (now : Q) :
  _handlePlayerInput g now
  = match player g with
    | None => g
    | Some p =>
        if negb (Tank.alive p) then g
        else
          let p1 :=
            match chosenDirection (keys g) with
            | Some d => Tank.move p 0 d (walls g) (allTanks g)
            | None => p
            end in
          let g1 := set_player g (Some p1) in
          if fire (keys g) then
            let '(p2, ob) := Tank.fire p1 now in
            pushBullet (set_player g1 (Some p2)) ob
          else g1
    end.
Proof.
  unfold _handlePlayerInput, chosenDirection.
  destruct (player g) as [p|]; [|reflexivity].
  destruct (negb (Tank.alive p)); [reflexivity|].
  destruct (up (keys g)); [reflexivity|].
  destruct (down (keys g)); [reflexivity|].
  destruct (left (keys g)); [reflexivity|].
  destruct (right (keys g)); reflexivity.
Qed.

Lemma fire_keeps_place (this : Tank.t) (now : Q) :
  Tank.direction (fst (Tank.fire this now)) = Tank.direction this
  /\ Tank.x (fst (Tank.fire this now)) = Tank.x this
  /\ Tank.y (fst (Tank.fire this now)) = Tank.y this.
Proof. destruct (fire_fst this now) as [->| ->]; now repeat split. Qed.

Lemma move_faces (this : Tank.t) (self : nat) (dir : DIR)
  (walls : list Wall.t) (tanks : list Tank.t) :
  Tank.alive this = true ->
  Tank.direction (Tank.move this self dir walls tanks) = dir.
Proof.
  intro Ha. rewrite (move_alive this self dir walls tanks Ha).
  destruct (turn_fields this dir) as (Hd & _).
  destruct (Tank.blocked this self dir walls tanks);
    cbn [Tank.direction Tank.set_x Tank.set_y]; exact Hd.
Qed.

Lemma handlePlayerInput_player (g : GameEngine) (now : Q) (p : Tank.t) :
  player g = Some p -> Tank.alive p = true ->
  exists p',
    player (_handlePlayerInput g now) = Some p'
    /\ match chosenDirection (keys g) with
       | Some d =>
           Tank.direction p' = d
           /\ Tank.x p' = Tank.x (Tank.move p 0 d (walls g) (allTanks g))
           /\ Tank.y p' = Tank.y (Tank.move p 0 d (walls g) (allTanks g))
       | None =>
           Tank.direction p' = Tank.direction p
           /\ Tank.x p' = Tank.x p /\ Tank.y p' = Tank.y p
       end.
Proof.
  intros Ep Ha. rewrite handlePlayerInput_chosen, Ep, Ha. cbn [negb].
  cbv zeta.
  set (p1 := match chosenDirection (keys g) with
             | Some d => Tank.move p 0 d (walls g) (allTanks g)
             | None => p
             end).
  assert (H1 : match chosenDirection (keys g) with
               | Some d =>
                   Tank.direction p1 = d
                   /\ Tank.x p1
                      = Tank.x (Tank.move p 0 d (walls g) (allTanks g))
                   /\ Tank.y p1
                      = Tank.y (Tank.move p 0 d (walls g) (allTanks g))
               | None =>
                   Tank.direction p1 = Tank.direction p
                   /\ Tank.x p1 = Tank.x p /\ Tank.y p1 = Tank.y p
               end).
  { unfold p1. destruct (chosenDirection (keys g)) as [d|].
    - split; [now apply move_faces | now split].
    - now repeat split. }
  clearbody p1.
  destruct (fire (keys g)).
  - destruct (fire_keeps_place p1 now) as (F1 & F2 & F3).
    destruct (Tank.fire p1 now) as [p2 ob]. cbn [fst] in *.
    exists p2. split; [now destruct ob|].
    destruct (chosenDirection (keys g)); rewrite F1, F2, F3; exact H1.
  - exists p1. split; [reflexivity | exact H1].
Qed.

(** X23.  An alive player tank is driven by one direction at a time: of
    the flags held, [_handlePlayerInput] acts on the first in the order
    up, down, left, right, and the tank ends facing that way, moved or
    blocked as [move] decides; with no flag held it keeps its place and
    heading.  Two key states with the same first flag and the same fire
    flag give the same player and the same bullets. *)
Theorem X23_input_priority (g : GameEngine) (now : Q) (p : Tank.t) :
  player g = Some p -> Tank.alive p = true ->
  (exists p',
     player (_handlePlayerInput g now) = Some p'
     /\ match chosenDirection (keys g) with
        | Some d =>
            Tank.direction p' = d
            /\ Tank.x p' = Tank.x (Tank.move p 0 d (walls g) (allTanks g))
            /\ Tank.y p' = Tank.y (Tank.move p 0 d (walls g) (allTanks g))
        | None =>
            Tank.direction p' = Tank.direction p
            /\ Tank.x p' = Tank.x p /\ Tank.y p' = Tank.y p
        end)
  /\ (forall k2,
        chosenDirection k2 = chosenDirection (keys g) ->
        fire k2 = fire (keys g) ->
        player (_handlePlayerInput (set_keys g k2) now)
        = player (_handlePlayerInput g now)
        /\ bullets (_handlePlayerInput (set_keys g k2) now)
           = bullets (_handlePlayerInput g now)).
Proof.
  intros Ep Ha. split; [now apply handlePlayerInput_player|].
  intros k2 Hc Hf. rewrite !handlePlayerInput_chosen.
  cbn [player keys walls set_keys]. rewrite Ep, Ha, Hc, Hf. cbn [negb].
  change (allTanks (set_keys g k2)) with (allTanks g). cbv zeta.
  destruct (fire (keys g)); [|now split].
  destruct (Tank.fire _ now) as [p2 ob]. destruct ob; now split.
Qed.

Lemma X23_input_priority_witness :
  player engine_under_fire
  = Some (Tank.set_invincibleUntil (Tank.new 612 612 UP true 0) 2000)
  /\ exists p',
       player (_handlePlayerInput
                 (set_keys engine_under_fire
                           (mkKeys false true true false false)) 3000)
       = Some p'
       /\ Tank.direction p' = DOWN.
Proof.
  split; [reflexivity|].
  destruct (X23_input_priority
              (set_keys engine_under_fire (mkKeys false true true false false))
              3000 _ eq_refl eq_refl) as ((p' & E & Hd & _) & _).
  now exists p'.
Defined.

(** X24.  The virtual pad and the keyboard drive the same tank.  After
    [setDirection(dir)], whatever was held before, an alive player tank
    faces [dir] at the next [_handlePlayerInput], and after
    [setDirection(null)] it keeps its place and heading; the pad leaves
    everything but the four direction flags alone.  On the keyboard a key
    released is a flag cleared, whether or not it was pressed; releasing
    never pauses; and the up key, once down, decides the direction
    whatever else is held. *)
Theorem X24_pad_and_keyboard (g : GameEngine) (now : Q) (p : Tank.t) :
  player g = Some p -> Tank.alive p = true ->
  (forall d, exists p',
       player (_handlePlayerInput (setDirection g (Some d)) now) = Some p'
       /\ Tank.direction p' = dirOfName d)
  /\ (exists p',
        player (_handlePlayerInput (setDirection g None) now) = Some p'
        /\ Tank.direction p' = Tank.direction p
        /\ Tank.x p' = Tank.x p /\ Tank.y p' = Tank.y p)
  /\ (forall dir, fire (keys (setDirection g dir)) = fire (keys g)
                  /\ set_keys (setDirection g dir) (keys g) = g)
  /\ (forall s, keyName s <> key_pause ->
                handleKeyUp (handleKeyDown g s) s = handleKeyUp g s)
  /\ (forall s, state (handleKeyUp g s) = state g)
  /\ (forall s, keyName s = key_up ->
                chosenDirection (keys (handleKeyDown g s)) = Some UP).
Proof.
  intros Ep Ha. split; [|split; [|split; [|split; [|split]]]].
  - intro d.
    destruct (handlePlayerInput_player (setDirection g (Some d)) now p)
      as (p' & E & H); [exact Ep | exact Ha |].
    exists p'. split; [exact E|].
    destruct d; cbn in H; now destruct H.
  - destruct (handlePlayerInput_player (setDirection g None) now p)
      as (p' & E & H); [exact Ep | exact Ha |].
    exists p'. split; [exact E|]. exact H.
  - intro dir. split; [now destruct dir as [[]|]|].
    destruct g. now destruct dir as [[]|].
  - intros s Hs. unfold handleKeyUp, handleKeyDown.
    destruct (keyName s); try reflexivity. contradiction.
  - intro s. unfold handleKeyUp. now destruct (keyName s).
  - intros s Hs. unfold handleKeyDown. now rewrite Hs.
Qed.

Lemma X24_pad_and_keyboard_witness :
  player engine_under_fire
  = Some (Tank.set_invincibleUntil (Tank.new 612 612 UP true 0) 2000)
  /\ exists p',
       player (_handlePlayerInput
                 (setDirection engine_under_fire (Some dir_left)) 3000)
       = Some p'
       /\ Tank.direction p' = LEFT.
Proof.
  split; [reflexivity|].
  destruct (X24_pad_and_keyboard engine_under_fire 3000 _ eq_refl eq_refl)
    as (H & _).
  destruct (H dir_left) as (p' & E & Hd). now exists p'.
Defined.

(** ** _checkCollisions: one bullet, one hit *)

Lemma addExplosion_length (g : GameEngine) (x y m : Q) (c : string) :
  length (explosions (_addExplosion g x y m c)) = S (length (explosions g)).
Proof.
  unfold _addExplosion. cbn [explosions set_explosions].
  rewrite length_app. cbn [length]. lia.
Qed.

(** X25.  An alive bullet hits at most one thing in its iteration of the
    collision loop, and the walls come first: a bullet on an alive wall
    dies there and harms no tank, even one it overlaps too.  A bullet
    that comes out alive has changed nothing and was on no alive wall; a
    bullet that comes out dead is the same bullet with its alive flag
    cleared, and left exactly one explosion. *)
Theorem X25_bullet_hits_once (now : Q) (g : GameEngine) (bullet : Bullet.t) :
  Bullet.alive bullet = true ->
  let g1 := fst (checkBullet now g bullet) in
  let b1 := snd (checkBullet now g bullet) in
  (overlapsWall (Bullet.getBounds bullet) (walls g) ->
     Bullet.alive b1 = false
     /\ enemies g1 = enemies g /\ player g1 = player g
     /\ lives g1 = lives g /\ score g1 = score g /\ state g1 = state g)
  /\ (Bullet.alive b1 = true ->
      g1 = g /\ b1 = bullet
      /\ ~ overlapsWall (Bullet.getBounds bullet) (walls g))
  /\ (Bullet.alive b1 = false ->
      b1 = Bullet.set_alive bullet false
      /\ length (explosions g1) = S (length (explosions g))).
Proof.
  intro Ha. cbv zeta. unfold checkBullet. rewrite Ha. cbn [negb].
  unfold bulletVsWalls.
  destruct (wallHit (Bullet.getBounds bullet) (walls g)) as [[w ws']|] eqn:Ew.
  - cbn [Bullet.alive Bullet.set_alive negb fst snd].
    split; [intros _|split; [discriminate|intros _]].
    + destruct (Wall.destructible w); now repeat split.
    + split; [reflexivity|].
      destruct (Wall.destructible w); rewrite addExplosion_length; reflexivity.
  - assert (Hno : ~ overlapsWall (Bullet.getBounds bullet) (walls g))
      by now apply wallHit_None.
    rewrite Ha. cbn [negb].
    split; [intro H; contradiction|].
    unfold bulletVsEnemies, bulletVsPlayer.
    destruct (Bullet.isPlayerBullet bullet) eqn:Es.
    + destruct (enemyHit _ (enemies g)) as [[e es']|].
      * cbn [Bullet.isPlayerBullet Bullet.set_alive]. rewrite Es.
        cbn [negb fst snd Bullet.alive].
        split; [discriminate|intros _].
        split; [reflexivity | rewrite addExplosion_length; reflexivity].
      * rewrite Es. cbn [negb fst snd]. rewrite Ha.
        split; [intros _; now repeat split | discriminate].
    + rewrite Es. cbn [negb].
      destruct (player g) as [p|];
        [|cbn [fst snd]; rewrite Ha;
          split; [intros _; now repeat split | discriminate]].
      destruct (Tank.alive p);
        [|cbn [fst snd]; rewrite Ha;
          split; [intros _; now repeat split | discriminate]].
      destruct (_ && _);
        [|cbn [fst snd]; rewrite Ha;
          split; [intros _; now repeat split | discriminate]].
      cbn [fst snd Bullet.alive Bullet.set_alive].
      split; [discriminate|intros _]. split; [reflexivity|].
      unfold playerHit. cbv zeta.
      destruct (_ <=? _)%Z;
        cbn [explosions set_state set_player]; rewrite addExplosion_length; reflexivity.
Qed.

Lemma X25_bullet_hits_once_witness :
  Bullet.alive (Bullet.new 625 610 DOWN false COLOR_BULLET_ENEMY) = true
  /\ (Bullet.alive
        (snd (checkBullet 3000 engine_under_fire
                (Bullet.new 625 610 DOWN false COLOR_BULLET_ENEMY))) = false ->
      length (explosions
                (fst (checkBullet 3000 engine_under_fire
                        (Bullet.new 625 610 DOWN false COLOR_BULLET_ENEMY))))
      = S (length (explosions engine_under_fire))).
Proof.
  split; [reflexivity|].
  destruct (X25_bullet_hits_once 3000 engine_under_fire
              (Bullet.new 625 610 DOWN false COLOR_BULLET_ENEMY) eq_refl)
    as (_ & _ & H).
  intro Hd. now destruct (H Hd).
Defined.

(** ** The animation loop *)

Lemma update_idle (g : GameEngine) (now : Q) (r : Rand) :
  state g <> PLAYING -> update g now r = (g, r).
Proof.
  intro H. unfold update. destruct (state g); try reflexivity.
  now contradiction H.
Qed.

Lemma frames_idle (nows : list Q) (g : GameEngine) (r : Rand) :
  state g <> PLAYING -> frames g r nows = (g, r).
Proof.
  intro H. induction nows as [|now rest IH]; [reflexivity|].
  cbn [frames]. now rewrite (update_idle g now r H).
Qed.

(** X26.  Over any number of frames of the animation loop the level does
    not change, the kill counter never goes down, the score grows by
    exactly 100 per kill, the lives never go up and fall by at most one a
    frame, and at most one enemy is spawned a frame.  Out of PLAYING the
    loop changes nothing at all; from PLAYING it can only reach GAME_OVER
    or LEVEL_CLEAR, LEVEL_CLEAR only with the quota of kills, GAME_OVER
    only without a life. *)
Theorem X26_frames_ledger (nows : list Q) (g : GameEngine) (r : Rand) :
  let g' := fst (frames g r nows) in
  level g' = level g
  /\ (enemiesDestroyed g <= enemiesDestroyed g')%Z
  /\ (score g' = score g + 100 * (enemiesDestroyed g' - enemiesDestroyed g))%Z
  /\ (lives g - Z.of_nat (length nows) <= lives g' <= lives g)%Z
  /\ (totalEnemiesSpawned g <= totalEnemiesSpawned g'
      <= totalEnemiesSpawned g + Z.of_nat (length nows))%Z
  /\ (state g <> PLAYING -> frames g r nows = (g, r))
  /\ (state g = PLAYING ->
      state g' = PLAYING
      \/ (state g' = GAME_OVER /\ (lives g' <= 0)%Z)
      \/ (state g' = LEVEL_CLEAR
          /\ (ENEMIES_PER_LEVEL <= enemiesDestroyed g')%Z)).
Proof.
  cbv zeta. revert g r. induction nows as [|now rest IH]; intros g r.
  - cbn [frames fst length]. repeat split; try lia; try reflexivity.
    now left.
  - destruct (GAME_STATE_eqb (state g) PLAYING) eqn:Es.
    + assert (Hs : state g = PLAYING) by (now destruct (state g)).
      destruct (tick_ledger g now r Hs)
        as (T1 & T2 & T3 & T4 & T5 & T6 & T7 & T8).
      cbv zeta in *. cbn [frames].
      destruct (update g now r) as [g1 r1]. cbn [fst] in *.
      destruct (IH g1 r1) as (I1 & I2 & I3 & I4 & I5 & I6 & I7).
      cbn [length]. rewrite Nat2Z.inj_succ.
      split; [congruence|]. split; [lia|]. split; [lia|]. split; [lia|].
      split; [lia|]. split; [intro H; now contradiction H|]. intros _.
      destruct T7 as [P|[P|P]].
      * exact (I7 P).
      * rewrite (I6 ltac:(rewrite P; discriminate)). cbn [fst].
        right. left. split; [exact P | now apply T8].
      * rewrite (I6 ltac:(rewrite P; discriminate)). cbn [fst].
        right. right. split; [exact P | now apply T6].
    + assert (Hs : state g <> PLAYING)
        by (intro H; rewrite H in Es; discriminate).
      rewrite (frames_idle (now :: rest) g r Hs). cbn [fst length].
      split; [reflexivity|]. split; [lia|]. split; [lia|]. split; [lia|].
      split; [lia|]. split; [reflexivity|]. intro H. now contradiction Hs.
Qed.
